(** * imgur-auto-delete: post discovery and deletion orchestration

    A shallow embedding of [src/main.py] (the link extractor
    [find_post_links_sorted], the click helper [safe_click], the album
    helper [delete_post_container], the per-post driver [delete_one] and
    the [while] loop of [main]) together with the properties the
    specification states about them.

    Modelling conventions.
    - Python [str] values are [string]s; the hrefs, selectors and page
      texts handled here are taken in the ASCII range, where [len] counts
      characters and [lower] acts on the letters A-Z.
    - Python [int]s are [Z]; the bounding-box coordinates, which Python
      holds as finite floats, are exact rationals [Q] (every finite float
      is one), and [round] is the round-half-to-even of Python 3.
    - The browser page is an explicit state of an arbitrary type, acted
      upon through a record of primitives, each of which may raise.
      Exceptions are values ([Raise]); [try]/[except] is [catch].
    - [polite_sleep] and [print] have no effect on the page and are left
      out; the [timeout] arguments of the primitives are choices of the
      engine and are part of what an arbitrary browser stands for. *)

From Stdlib Require Import ZArith QArith Qround Ascii String List Sorted Permutation Bool Lia Lqa.
From stdpp Require Import base decidable gmap strings.
Import ListNotations.

Local Open Scope string_scope.
Local Open Scope Z_scope.

(** ** Strings, the way Python treats them *)

Module Py.

(** [s.startswith(p)] *)
Fixpoint startswith (s p : string) : bool :=
  match p with
  | EmptyString => true
  | String c p' =>
      match s with
      | EmptyString => false
      | String d s' => Ascii.eqb c d && startswith s' p'
      end
  end.

(** [sub in s] *)
Fixpoint contains (sub s : string) : bool :=
  startswith s sub ||
  match s with
  | EmptyString => false
  | String _ s' => contains sub s'
  end.

(** [s.split(c)] for a one-character separator: never empty. *)
Fixpoint split (c : ascii) (s : string) : list string :=
  match s with
  | EmptyString => [EmptyString]
  | String d s' =>
      if Ascii.eqb d c then EmptyString :: split c s'
      else match split c s' with
           | [] => [String d EmptyString]
           | h :: t => String d h :: t
           end
  end.

(** [l[0]] and [l[-1]] on the result of a split (which is never empty). *)
Definition first (l : list string) : string := hd EmptyString l.
Definition last (l : list string) : string := List.last l EmptyString.

Definition len (s : string) : Z := Z.of_nat (String.length s).

Definition lower_ascii (c : ascii) : ascii :=
  let n := nat_of_ascii c in
  if (Nat.leb 65 n && Nat.leb n 90)%bool then ascii_of_nat (n + 32) else c.

(** [s.lower()] *)
Fixpoint lower (s : string) : string :=
  match s with
  | EmptyString => EmptyString
  | String c s' => String (lower_ascii c) (lower s')
  end.

(** [s.startswith(prefixes)] with a tuple of prefixes. *)
Definition startswith_any (s : string) (ps : list string) : bool :=
  existsb (startswith s) ps.

Definition is_alnum (c : ascii) : bool :=
  let n := nat_of_ascii c in
  ((Nat.leb 48 n && Nat.leb n 57) || (Nat.leb 65 n && Nat.leb n 90)
   || (Nat.leb 97 n && Nat.leb n 122))%bool.

(** Length of the longest run of [A-Za-z0-9] at the start of [s]. *)
Fixpoint alnum_run (s : string) : nat :=
  match s with
  | EmptyString => O
  | String c s' => if is_alnum c then S (alnum_run s') else O
  end.

(** [round(q)] of Python 3: to the nearest integer, ties to even. *)
Definition round (q : Q) : Z :=
  let f := Qfloor q in
  match Qcompare (q - inject_Z f) (1 # 2) with
  | Lt => f
  | Gt => f + 1
  | Eq => if Z.even f then f else f + 1
  end.

End Py.

(** ** The Post Classifier ([delete_one], lines 566-573 and the
       [if is_image / elif is_album / else] that follows) *)

Inductive PostKind := Image | Album | Other.

Definition is_album (href : string) : bool :=
  Py.startswith href "/a/" || Py.startswith href "/gallery/".

Definition is_image (href : string) : bool :=
  Py.contains "/image/" href
  || (Py.startswith href "/"
      && (Py.len (Py.last (Py.split "/" href)) =? 7)
      && negb (is_album href)).

(** The branch [delete_one] takes: [if is_image: ... elif is_album: ...
    else: ...]. *)
Definition classify (href : string) : PostKind :=
  if is_image href then Image
  else if is_album href then Album
  else Other.

(** The classifier as the specification words it: album prefix first,
    then the image shape, else Other. *)
Definition spec_classify (href : string) : PostKind :=
  if Py.startswith href "/a/" || Py.startswith href "/gallery/" then Album
  else if Py.contains "/image/" href
          || (Py.len (Py.last (Py.split "/" href)) =? 7) then Image
  else Other.

(** ** Results of operations that may raise *)

(** The source distinguishes Playwright's [TimeoutError] from every
    other [Exception]. *)
Inductive exn := TimeoutError | OtherError.

Inductive res (A : Type) : Type :=
| Ok (a : A)
| Raise (e : exn).
Arguments Ok {A} a.
Arguments Raise {A} e.

(** ** The Geometry-Ordered Link Extractor ([find_post_links_sorted]) *)

Module Extractor.

(** [a.bounding_box()]: the dict's ["x"] and ["y"] entries. *)
Record box := { box_x : Q; box_y : Q }.

(** One anchor matched by [page.locator(sel)], as the three calls the
    loop makes on it answer: [is_visible()], [get_attribute("href")]
    (which may be [None]) and [bounding_box()] (which may be [None]). *)
Record anchor := {
  a_visible : res bool;
  a_href : res (option string);
  a_box : res (option box)
}.

(** The tuples [(href, x, y)]. *)
Record item := { href : string; x : Q; y : Q }.

Definition BAD_PREFIXES : list string :=
  ["/upload"; "/notifications"; "/settings"; "/account/";
   "/user/"; "/t/"; "/topics"; "/privacy"; "/terms"; "/arcade"].

(** [POST_HREF_PAT.search(href)] for
    [^/(gallery/|a/|post/|image/|[A-Za-z0-9]{5,})]. *)
Definition POST_HREF_PAT (s : string) : bool :=
  match s with
  | String "/" r =>
      Py.startswith r "gallery/" || Py.startswith r "a/"
      || Py.startswith r "post/" || Py.startswith r "image/"
      || Nat.leb 5 (Py.alnum_run r)
  | _ => false
  end.

(** [(a.get_attribute("href") or "").split("#")[0].split("?")[0]] *)
Definition normalize (raw : option string) : string :=
  Py.first (Py.split "?" (Py.first (Py.split "#" (default EmptyString raw)))).

(** One turn of the [for i in range(count)] loop: [Ok None] is a
    [continue], [Ok (Some it)] an [items.append], [Raise] an exception
    of [get_attribute], the one call no [try] surrounds. *)
Definition candidate (a : anchor) : res (option item) :=
  match a_visible a with
  | Raise _ | Ok false => Ok None
  | Ok true =>
      match a_href a with
      | Raise e => Raise e
      | Ok raw =>
          let h := normalize raw in
          if negb (Py.startswith h "/") || Py.startswith_any h BAD_PREFIXES
          then Ok None
          else if negb (POST_HREF_PAT h) then Ok None
          else match a_box a with
               | Raise _ | Ok None => Ok None
               | Ok (Some b) => Ok (Some {| href := h; x := box_x b; y := box_y b |})
               end
      end
  end.

Fixpoint collect (anchors : list anchor) : res (list item) :=
  match anchors with
  | [] => Ok []
  | a :: rest =>
      match candidate a with
      | Raise e => Raise e
      | Ok o =>
          match collect rest with
          | Raise e => Raise e
          | Ok l => Ok (match o with Some it => it :: l | None => l end)
          end
      end
  end.

(** The sort key [lambda t: (round(t[2]), round(t[1]))] and the order
    Python puts on such pairs. *)
Definition key (it : item) : Z * Z := (Py.round (y it), Py.round (x it)).

Definition key_leb (k1 k2 : Z * Z) : bool :=
  (fst k1 <? fst k2) || ((fst k1 =? fst k2) && (snd k1 <=? snd k2)).

Definition key_le (a b : item) : Prop := key_leb (key a) (key b) = true.

(** [items.sort(key=...)] is a stable sort; a stable sort has one
    possible result, computed here by insertion from the right. *)
Fixpoint insert (it : item) (l : list item) : list item :=
  match l with
  | [] => [it]
  | j :: l' => if key_leb (key it) (key j) then it :: l else j :: insert it l'
  end.

Fixpoint sort_items (l : list item) : list item :=
  match l with
  | [] => []
  | it :: l' => insert it (sort_items l')
  end.

(** The de-duplication loop with its [seen] set. *)
Fixpoint dedupe (seen : gset string) (items : list item) : list item :=
  match items with
  | [] => []
  | it :: rest =>
      if decide (href it ∈ seen) then dedupe seen rest
      else it :: dedupe ({[href it]} ∪ seen) rest
  end.

Definition find_post_links_sorted (anchors : list anchor) : res (list item) :=
  match collect anchors with
  | Raise e => Raise e
  | Ok items => Ok (dedupe ∅ (sort_items items))
  end.

Definition same_href (a b : item) : bool := String.eqb (href a) (href b).

(** [c in s] for a character. *)
Definition has_char (c : ascii) (s : string) : bool :=
  Py.contains (String c EmptyString) s.

End Extractor.

(** ** The browsing engine *)

(** [name=] of [get_by_role]: a plain string, or [re.compile(s, re.I)]. *)
Inductive name_pat :=
| Name (s : string)
| NameRe (s : string).

(** The locators the source builds. Building one never touches the
    page; only [is_visible], [click] and [get_attribute] do. *)
Inductive locator :=
| Css (sel : string)                       (* page.locator(sel).first *)
| Role (role : string) (name : name_pat)   (* page.get_by_role(role, name=...).first *)
| NthOf (sel : string) (i : nat).          (* page.locator(sel).all()[i] *)

Definition locator_eqb (a b : locator) : bool :=
  match a, b with
  | Css s, Css t => String.eqb s t
  | Role r (Name n), Role r' (Name n') => String.eqb r r' && String.eqb n n'
  | Role r (NameRe n), Role r' (NameRe n') => String.eqb r r' && String.eqb n n'
  | NthOf s i, NthOf t j => String.eqb s t && Nat.eqb i j
  | _, _ => false
  end.

Definition among (ls : list locator) (l : locator) : bool :=
  existsb (locator_eqb l) ls.

(** What a run does to the page, in order. [Outcome] is not an action
    of the page: it records what [delete_one] returned for a link, as
    the loop's [print] of the result does. *)
Inductive event :=
| Goto (url : string)
| Click (l : locator)
| ScrollTop
| ScrollBottom
| Outcome (href : string) (ok : bool) (images : Z).

(** The interface of section 6 of the specification, over a page state
    [S] the engine owns. Every call answers and may change the page. *)
Record browser (S : Type) := {
  goto : string -> S -> res unit * S;
  is_visible : locator -> S -> res bool * S;
  click : locator -> S -> res unit * S;
  get_attribute : locator -> string -> S -> res (option string) * S;
  count_all : string -> S -> res nat * S;       (* len(page.locator(sel).all()) *)
  content : S -> res string * S;
  page_url : S -> string;
  wait_for_load_state : S -> res unit * S;
  scroll_height : S -> res Z * S;               (* document.body.scrollHeight *)
  scroll_to_top : S -> res unit * S;            (* window.scrollTo(0, 0) *)
  scroll_to_bottom : S -> res unit * S;         (* window.scrollTo(0, scrollHeight) *)
  anchors : string -> S -> res (list Extractor.anchor) * S
}.
Arguments goto {S}.
Arguments is_visible {S}.
Arguments click {S}.
Arguments get_attribute {S}.
Arguments count_all {S}.
Arguments content {S}.
Arguments page_url {S}.
Arguments wait_for_load_state {S}.
Arguments scroll_height {S}.
Arguments scroll_to_top {S}.
Arguments scroll_to_bottom {S}.
Arguments anchors {S}.

(** ** Programs over a page: state, trace and exceptions *)

Section Monad.
Context {S : Type}.

Record world := { page : S; trace : list event }.

Definition M (A : Type) : Type := world -> res A * world.

Definition ret {A} (a : A) : M A := fun w => (Ok a, w).

Definition bind {A B} (m : M A) (k : A -> M B) : M B :=
  fun w => match m w with
           | (Ok a, w') => k a w'
           | (Raise e, w') => (Raise e, w')
           end.

(** [try: m except ...: h e] *)
Definition catch {A} (m : M A) (h : exn -> M A) : M A :=
  fun w => match m w with
           | (Ok a, w') => (Ok a, w')
           | (Raise e, w') => h e w'
           end.

Definition raise {A} (e : exn) : M A := fun w => (Raise e, w).

(** [try: m except Exception: (the value is d)] *)
Definition attempt {A} (m : M A) (d : A) : M A := catch m (fun _ => ret d).

(** A primitive of the engine, run on the page. *)
Definition prim {A} (f : S -> res A * S) : M A :=
  fun w => let (r, p) := f (page w) in (r, {| page := p; trace := trace w |}).

(** A primitive that acts on the page: it is recorded, then run. *)
Definition act {A} (e : event) (f : S -> res A * S) : M A :=
  fun w => let (r, p) := f (page w) in (r, {| page := p; trace := trace w ++ [e] |}).

Definition note (e : event) : M unit :=
  fun w => (Ok tt, {| page := page w; trace := trace w ++ [e] |}).

Definition read {A} (f : S -> A) : M A := fun w => (Ok (f (page w)), w).

End Monad.
Arguments world S : clear implicits.
Arguments M S A : clear implicits.

Declare Scope prog_scope.
Delimit Scope prog_scope with prog.
Notation "x <- m ;; k" := (bind m (fun x => k))
  (at level 100, m at next level, right associativity) : prog_scope.
Notation "m ;;; k" := (bind m (fun _ => k))
  (at level 100, right associativity) : prog_scope.
Local Open Scope prog_scope.

(** ** Selector texts

    The selectors are the strings of the source; the double quotes
    inside them are built with [quoted]. *)

Module Sel.

Definition dq : string := String (ascii_of_nat 34) EmptyString.
Definition quoted (s : string) : string := dq +:+ s +:+ dq.

(** [tag:has-text("text")] *)
Definition has_text (tag text : string) : string :=
  tag +:+ ":has-text(" +:+ quoted text +:+ ")".
(** [text="text"] *)
Definition text_is (text : string) : string := "text=" +:+ quoted text.
(** [tag[aria-label*="label" i]] *)
Definition aria_has (tag label : string) : string :=
  tag +:+ "[aria-label*=" +:+ quoted label +:+ " i]".
(** [tag:has([class*="cls"])] *)
Definition has_class (tag cls : string) : string :=
  tag +:+ ":has([class*=" +:+ quoted cls +:+ "])".
(** [[role="r"]] *)
Definition role_is (r : string) : string := "[role=" +:+ quoted r +:+ "]".

Definition delete_post_selectors : list string :=
  [ has_text "button" "Delete post";
    text_is "Delete post";
    has_text (role_is "button") "Delete post";
    aria_has "button" "Delete post";
    has_text "a" "Delete post";
    has_text "*" "Delete post" +:+ ":visible" ].

(** The tuples of [confirmation_selectors] (lines 525-530), already
    turned into the locator the loop of lines 532-537 builds from them.
    The loop header is [for selector_type, *args in ...], so for
    [('role', 'button', 'Delete Post Only')] the list [args] is
    [['button', 'Delete Post Only']] and [args[0]] is ['button']: both
    role tuples give [page.get_by_role('button', name='button')], and
    the labels "Delete Post Only" and "Delete Post" are asked for by
    the two [('selector', sel)] tuples only, where [args[0]] is [sel]. *)
Definition confirmation_selectors : list locator :=
  [ Role "button" (Name "button");
    Role "button" (Name "button");
    Css (has_text "button" "Delete Post Only");
    Css (has_text "button" "Delete Post") ].

Definition cancel_selectors : list string :=
  [ has_text "button" "Cancel";
    text_is "Cancel";
    has_text (role_is "button") "Cancel";
    aria_has "button" "Cancel";
    has_text "button" "Close";
    has_text (role_is "dialog" +:+ " button") "Cancel" ].

Definition three_dots_selectors : list string :=
  [ aria_has "button" "more";
    aria_has "button" "More";
    aria_has "button" "options";
    aria_has "" "more options";
    has_class "button" "more";
    has_class "button" "menu";
    has_class "button" "dots";
    has_class (role_is "button") "more";
    has_text "button" "⋯";
    has_text "button" "..." ].

Definition delete_image_selectors : list string :=
  [ text_is "Delete image";
    has_text "button" "Delete image";
    has_text (role_is "menuitem") "Delete image";
    has_text (role_is "menu" +:+ " button") "Delete image";
    has_text "a" "Delete image";
    has_text "*" "Delete image" +:+ ":visible" ].

Definition delete_from_account_selectors : list string :=
  [ "button.DeleteImageDialog-confirm--accountRemove";
    has_text "button" "Delete from account";
    text_is "Delete from account";
    has_text (role_is "dialog" +:+ " button") "Delete from account";
    aria_has "button" "Delete from account";
    has_class (role_is "dialog" +:+ " button") "red";
    has_class (role_is "dialog" +:+ " button") "danger" ].

Definition confirm_selectors : list string :=
  [ has_text "button" "Yes, Delete It";
    has_text "button" "Delete";
    has_text "button" "Confirm";
    "button[data-action=" +:+ quoted "confirm" +:+ "]";
    has_text (role_is "dialog" +:+ " button") "Delete";
    has_text (role_is "dialog" +:+ " button") "Confirm" ].

Definition confirm_labels : list string := ["Yes, Delete It"; "Delete"; "Confirm"].

Definition all_tab_selectors : list string :=
  [ "a:has-text('All')"; "button:has-text('All')"; "text=/^\s*All\s*$/i" ].

(** The selector of [find_post_links_sorted]. *)
Definition post_anchor_selector : string :=
  "a[href^=" +:+ quoted "/gallery/" +:+ "], a[href^=" +:+ quoted "/a/"
  +:+ "], a[href^=" +:+ quoted "/post/" +:+ "], a[href^=" +:+ quoted "/image/"
  +:+ "], a[href^=" +:+ quoted "/" +:+ "][href*=" +:+ quoted "/" +:+ "]".

End Sel.

(** The outcome [(success, images_deleted)] of [delete_one]. *)
Definition outcome : Type := bool * Z.

(** ** The deletion drivers *)

Section Drivers.
Context {S : Type} (B : browser S).

Definition visible (l : locator) : M S bool := prim (is_visible B l).
Definition do_click (l : locator) : M S unit := act (Click l) (click B l).
Definition navigate (url : string) : M S unit := act (Goto url) (goto B url).
Definition page_content : M S string := prim (content B).
Definition current_url : M S string := read (page_url B).

(** [safe_goto]: a second try after a [TimeoutError] only. *)
Definition safe_goto (url : string) : M S unit :=
  catch (navigate url)
        (fun e => match e with
                  | TimeoutError => navigate url
                  | OtherError => raise OtherError
                  end).

(** [safe_click]: in dry-run a visible element is reported as clicked
    and left alone. *)
Definition safe_click (l : locator) (dry_run : bool) : M S bool :=
  attempt (v <- visible l ;;
           if v then (if dry_run then ret true else (do_click l ;;; ret true))
           else ret false)
          false.

(** [if l.is_visible(): l.click(); found = True], the two real clicks
    the dry-run path of the image driver and [select_all_tab] make. *)
Definition click_if_visible (l : locator) : M S bool :=
  v <- visible l ;; if v then (do_click l ;;; ret true) else ret false.

(** [for a in l: try: if f(a): flag = True; break
     except Exception: continue]; the value is [flag]. *)
Fixpoint first_success {A} (f : A -> M S bool) (l : list A) : M S bool :=
  match l with
  | [] => ret false
  | a :: l' => b <- attempt (f a) false ;;
               if b then ret true else first_success f l'
  end.

(** [flag] is already set, or the fallback is tried inside a [try]. *)
Definition or_else (flag : bool) (fallback : M S bool) : M S bool :=
  if flag then ret true else attempt fallback false.

(** *** [delete_post_container] *)

(** Lines 479-517: the "Delete post" button, by selector then by role. *)
Definition click_delete_post (dry_run : bool) : M S bool :=
  c <- first_success (fun sel => safe_click (Css sel) dry_run) Sel.delete_post_selectors ;;
  or_else c (safe_click (Role "button" (NameRe "Delete post")) dry_run).

(** Lines 523-548: the confirmation button of the modal. *)
Definition click_confirmation (dry_run : bool) : M S bool :=
  first_success (fun l => safe_click l dry_run) Sel.confirmation_selectors.

Definition delete_post_container (dry_run : bool) : M S bool :=
  delete_post_clicked <- click_delete_post dry_run ;;
  if delete_post_clicked then
    confirmation_clicked <- click_confirmation dry_run ;;
    ret (confirmation_clicked || delete_post_clicked)
  else ret false.

(** *** [delete_one], the image branch *)

Definition delete_image_button : locator := Role "button" (Name "Delete image").
Definition yes_delete_it_button : locator := Role "button" (Name "Yes, Delete It").

(** Step 1 (lines 581-612): [true] when the flow goes on to step 2,
    [false] for each [return False, 0]. In dry-run the button is really
    clicked, to open the modal. *)
Definition image_step1 (dry_run : bool) : M S bool :=
  attempt (v <- visible delete_image_button ;;
           if negb v then ret false
           else if dry_run
                then attempt (do_click delete_image_button ;;; ret true) false
                else safe_click delete_image_button dry_run)
          false.

(** Step 2 in dry-run (lines 615-656): close the modal with Cancel. *)
Definition image_cancel : M S bool :=
  cancel_clicked <- first_success (fun sel => click_if_visible (Css sel)) Sel.cancel_selectors ;;
  or_else cancel_clicked (click_if_visible (Role "button" (NameRe "Cancel"))).

(** Step 2 in live mode (lines 661-676): [true] when "Yes, Delete It"
    was clicked. *)
Definition image_confirm (dry_run : bool) : M S bool :=
  attempt (v <- visible yes_delete_it_button ;;
           if negb v then ret false
           else safe_click yes_delete_it_button dry_run)
          false.

Definition delete_image (dry_run : bool) : M S outcome :=
  opened <- image_step1 dry_run ;;
  if negb opened then ret (false, 0)
  else if dry_run then (image_cancel ;;; ret (true, 1))
  else (confirmed <- image_confirm dry_run ;;
        if confirmed then ret (true, 1) else ret (false, 0)).

(** *** [delete_one], the album branch *)

(** Lines 689-697: the number of "..." glyphs, for the log only. *)
Definition count_album_images : M S (option nat) :=
  attempt (n <- prim (count_all B (Sel.text_is "...")) ;;
           ret (if Nat.ltb 0 n then Some n else None))
          None.

Definition delete_album (dry_run : bool) : M S outcome :=
  image_count <- count_album_images ;;
  deleted <- delete_post_container dry_run ;;
  if deleted then ret (true, 0) else ret (false, 0).

(** *** [delete_one], the other posts *)

(** Lines 743-757: every button whose aria-label mentions a menu. *)
Definition scan_buttons (dry_run : bool) : M S bool :=
  n <- prim (count_all B "button") ;;
  first_success
    (fun i =>
       a <- prim (get_attribute B (NthOf "button" i) "aria-label") ;;
       let aria_label := Py.lower (default EmptyString a) in
       if Py.contains "more" aria_label || Py.contains "menu" aria_label
          || Py.contains "options" aria_label
       then safe_click (NthOf "button" i) dry_run
       else ret false)
    (seq 0 n).

Definition open_menu (dry_run : bool) : M S bool :=
  c <- first_success (fun sel => safe_click (Css sel) dry_run) Sel.three_dots_selectors ;;
  or_else c (scan_buttons dry_run).

Definition click_delete_image (dry_run : bool) : M S bool :=
  c <- first_success (fun sel => safe_click (Css sel) dry_run) Sel.delete_image_selectors ;;
  or_else c (safe_click (Role "menuitem" (NameRe "Delete image")) dry_run).

Definition click_delete_from_account (dry_run : bool) : M S bool :=
  c <- first_success (fun sel => safe_click (Css sel) dry_run) Sel.delete_from_account_selectors ;;
  or_else c (safe_click (Role "button" (NameRe "Delete from account")) dry_run).

(** Lines 842-873: the confirmation buttons, by selector then by role. *)
Definition confirm_deletion (dry_run : bool) : M S bool :=
  c <- first_success (fun sel => safe_click (Css sel) dry_run) Sel.confirm_selectors ;;
  if c then ret true
  else first_success (fun label => safe_click (Role "button" (NameRe label)) dry_run)
                     Sel.confirm_labels.

Definition removal_text (page_text : string) : bool :=
  Py.contains "404" page_text || Py.contains "not found" page_text
  || Py.contains "deleted" page_text.

Definition not_found_text (page_text : string) : bool :=
  Py.contains "404" page_text || Py.contains "not found" page_text
  || Py.contains "page doesn't exist" page_text.

(** Lines 875-897, run when [not confirmed]: [true] for each
    [return True, 1]. *)
Definition check_unconfirmed (url : string) : M S bool :=
  cur <- current_url ;;
  removed <- attempt (c <- page_content ;; ret (removal_text (Py.lower c))) false ;;
  if removed then ret true
  else if negb (Py.contains url cur)
       then attempt (prim (wait_for_load_state B) ;;;
                     c <- page_content ;;
                     ret (negb (Py.contains "404" (Py.lower c))))
                    false
       else ret false.

(** Lines 899-918: back to the post's URL; [Some o] for each [return],
    [None] when the block falls through. *)
Definition revisit (url : string) : M S (option outcome) :=
  catch (navigate url ;;;
         c <- page_content ;;
         if not_found_text (Py.lower c) then ret (Some (true, 1))
         else (u <- current_url ;;
               if Py.contains url u then ret (Some (false, 0)) else ret None))
        (fun e => match e with
                  | TimeoutError => ret (Some (true, 1))
                  | OtherError => ret None
                  end).

(** Lines 875-924. *)
Definition verify (url : string) (confirmed deleted : bool) : M S outcome :=
  early <- (if negb confirmed then check_unconfirmed url else ret false) ;;
  if early then ret (true, 1)
  else
    final <- (if confirmed || deleted then revisit url else ret None) ;;
    match final with
    | Some o => ret o
    | None => if confirmed || deleted then ret (true, 1) else ret (false, 0)
    end.

(** Lines 835-924: what follows the three branches. *)
Definition finish (url : string) (dry_run deleted : bool) : M S outcome :=
  if negb deleted then ret (false, 0)
  else (confirmed <- confirm_deletion dry_run ;;
        verify url confirmed deleted).

Definition delete_other (url : string) (dry_run : bool) : M S outcome :=
  three_dots_clicked <- open_menu dry_run ;;
  if three_dots_clicked then
    clicked_delete_image <- click_delete_image dry_run ;;
    if negb clicked_delete_image then ret (false, 0)
    else (deleted <- click_delete_from_account dry_run ;;
          finish url dry_run deleted)
  else ret (false, 0).

(** *** [delete_one] *)

Definition delete_one (href : string) (dry_run : bool) : M S outcome :=
  let url := "https://imgur.com" +:+ href in
  safe_goto url ;;;
  match classify href with
  | Image => delete_image dry_run
  | Album => delete_album dry_run
  | Other => delete_other url dry_run
  end.

End Drivers.

(** ** The orchestration loop ([main], lines 965-1019) *)

(** [RunState]: the two variables the loop owns. *)
Record run_state := {
  processed : Z;
  seen_heights : gset Z
}.

(** How the [while] loop was left: its condition became false, or one
    of its two [break]s was taken, with the links of that pass and the
    scroll height that was read. *)
Inductive exit :=
| CapReached                                              (* not (processed < max_to_process) *)
| NoMorePosts (last_h : Z)                                (* line 977 *)
| NoFurtherContent (links : list Extractor.item) (last_h : Z).   (* line 1014 *)

Record final := { how : exit; at_exit : run_state }.

(** Lines 988-1001: what one link adds to [processed]. *)
Definition account (processed : Z) (o : outcome) : Z :=
  let (ok, images_count) := o in
  if ok then
    if images_count =? 0 then processed + 1 else processed + images_count
  else processed + 1.

Section Loop.
Context {S : Type} (B : browser S).
Variables (username : string) (dry_run : bool) (max_to_process : Z).

Definition get_posts_url : string :=
  "https://imgur.com/user/" +:+ username +:+ "/posts".

Definition select_all_tab : M S unit :=
  switched <- attempt (click_if_visible B (Role "tab" (NameRe "^\s*all\s*$"))) false ;;
  if switched then ret tt
  else (first_success (fun sel => click_if_visible B (Css sel)) Sel.all_tab_selectors ;;;
        ret tt).

Definition go_to_posts_all : M S unit :=
  safe_goto B get_posts_url ;;; select_all_tab.

Definition scroll_top : M S unit := act ScrollTop (scroll_to_top B).
Definition scroll_bottom : M S unit := act ScrollBottom (scroll_to_bottom B).
Definition read_scroll_height : M S Z := prim (scroll_height B).

(** [find_post_links_sorted(page)] on the anchors the page has now. *)
Definition find_links : M S (list Extractor.item) :=
  l <- prim (anchors B Sel.post_anchor_selector) ;;
  match Extractor.find_post_links_sorted l with
  | Ok links => ret links
  | Raise e => raise e
  end.

(** Lines 985-1010: the [for href, x, y in links] loop with its
    [break]; the value is [processed] when the loop is left. *)
Fixpoint process_links (links : list Extractor.item) (processed : Z) : M S Z :=
  match links with
  | [] => ret processed
  | l :: rest =>
      o <- delete_one B (Extractor.href l) dry_run ;;
      note (Outcome (Extractor.href l) (fst o) (snd o)) ;;;
      let processed := account processed o in
      go_to_posts_all ;;;
      scroll_top ;;;
      if processed >=? max_to_process then ret processed
      else process_links rest processed
  end.

(** Lines 1013-1019 (and 976-983): read the height; stop when it was
    seen, else remember it and scroll to the bottom. [None] is a
    [break]. *)
Definition pull_more (seen : gset Z) : M S (Z * option (gset Z)) :=
  last_h <- read_scroll_height ;;
  if decide (last_h ∈ seen) then ret (last_h, None)
  else (scroll_bottom ;;; ret (last_h, Some ({[last_h]} ∪ seen))).

(** The [while processed < max_to_process] loop. A page may grow for
    ever, so the number of passes is bounded by [fuel]; [None] when it
    runs out. *)
Fixpoint main_loop (fuel : nat) (rs : run_state) : M S (option final) :=
  match fuel with
  | O => ret None
  | Datatypes.S fuel' =>
      if negb (processed rs <? max_to_process)
      then ret (Some {| how := CapReached; at_exit := rs |})
      else
        links <- find_links ;;
        match links with
        | [] =>
            r <- pull_more (seen_heights rs) ;;
            match r with
            | (h, None) => ret (Some {| how := NoMorePosts h; at_exit := rs |})
            | (_, Some seen) =>
                main_loop fuel' {| processed := processed rs; seen_heights := seen |}
            end
        | _ :: _ =>
            p <- process_links links (processed rs) ;;
            r <- pull_more (seen_heights rs) ;;
            match r with
            | (h, None) =>
                ret (Some {| how := NoFurtherContent links h;
                             at_exit := {| processed := p; seen_heights := seen_heights rs |} |})
            | (_, Some seen) =>
                main_loop fuel' {| processed := p; seen_heights := seen |}
            end
        end
  end.

(** Lines 965-1019. *)
Definition run (fuel : nat) : M S (option final) :=
  go_to_posts_all ;;;
  scroll_top ;;;
  main_loop fuel {| processed := 0; seen_heights := ∅ |}.

End Loop.

(** ** A scripted browser

    A concrete engine for running the drivers: the page state is the
    URL the page is on, and what the page shows is fixed by a script. *)

Module Scripted.

Record script := {
  s_goto : string -> res unit * string;     (* the answer and the URL landed on *)
  s_visible : string -> locator -> res bool;
  s_click : locator -> res unit;
  s_attribute : locator -> string -> res (option string);
  s_count : string -> res nat;
  s_content : string -> res string;
  s_load : res unit;
  s_height : Z;
  s_anchors : list Extractor.anchor
}.

Definition engine (sc : script) : browser string := {|
  goto := fun url _ => s_goto sc url;
  is_visible := fun l cur => (s_visible sc cur l, cur);
  click := fun l cur => (s_click sc l, cur);
  get_attribute := fun l a cur => (s_attribute sc l a, cur);
  count_all := fun sel cur => (s_count sc sel, cur);
  content := fun cur => (s_content sc cur, cur);
  page_url := fun cur => cur;
  wait_for_load_state := fun cur => (s_load sc, cur);
  scroll_height := fun cur => (Ok (s_height sc), cur);
  scroll_to_top := fun cur => (Ok tt, cur);
  scroll_to_bottom := fun cur => (Ok tt, cur);
  anchors := fun _ cur => (Ok (s_anchors sc), cur)
|}.

Definition start : world string := {| page := "about:blank"; trace := [] |}.

Definition tile (h : string) (px py : Q) : Extractor.anchor :=
  {| Extractor.a_visible := Ok true;
     Extractor.a_href := Ok (Some h);
     Extractor.a_box := Ok (Some {| Extractor.box_x := px; Extractor.box_y := py |}) |}.

(** A site on which every call succeeds, the locators of [shown] are
    visible on every page and no other is; the grid has [tiles]. *)
Definition site (shown : locator -> bool) (tiles : list Extractor.anchor) : script := {|
  s_goto := fun url => (Ok tt, url);
  s_visible := fun _ l => Ok (shown l);
  s_click := fun _ => Ok tt;
  s_attribute := fun _ _ => Ok None;
  s_count := fun _ => Ok 5%nat;
  s_content := fun _ => Ok "<html>a post</html>";
  s_load := Ok tt;
  s_height := 1080;
  s_anchors := tiles
|}.

(** The controls each driver looks for first, and a Cancel button. *)
Definition usual_controls : list locator :=
  [ Css (Sel.has_text "button" "Delete post");
    Css (Sel.has_text "button" "Delete Post Only");
    Role "button" (Name "Delete image");
    Role "button" (Name "Yes, Delete It");
    Css (Sel.has_text "button" "Cancel") ].

Definition plain (tiles : list Extractor.anchor) : script :=
  site (among usual_controls) tiles.

(** The same site, on which waiting for the page to load times out. *)
Definition stalled : script := {|
  s_goto := fun url => (Ok tt, url);
  s_visible := fun _ l => Ok (among usual_controls l);
  s_click := fun _ => Ok tt;
  s_attribute := fun _ _ => Ok None;
  s_count := fun _ => Ok 5%nat;
  s_content := fun _ => Ok "<html>a post</html>";
  s_load := Raise TimeoutError;
  s_height := 1080;
  s_anchors := []
|}.

(** The same site, on which every navigation fails with an error that
    is no timeout and leaves the page where it is asked to go. *)
Definition unreachable : script := {|
  s_goto := fun url => (Raise OtherError, url);
  s_visible := fun _ l => Ok (among usual_controls l);
  s_click := fun _ => Ok tt;
  s_attribute := fun _ _ => Ok None;
  s_count := fun _ => Ok 5%nat;
  s_content := fun _ => Ok "<html>a post</html>";
  s_load := Ok tt;
  s_height := 1080;
  s_anchors := []
|}.

(** The same site, every page of which says the post is gone. *)
Definition gone : script := {|
  s_goto := fun url => (Ok tt, url);
  s_visible := fun _ l => Ok (among usual_controls l);
  s_click := fun _ => Ok tt;
  s_attribute := fun _ _ => Ok None;
  s_count := fun _ => Ok 5%nat;
  s_content := fun _ => Ok "<html>This post was Deleted</html>";
  s_load := Ok tt;
  s_height := 1080;
  s_anchors := []
|}.

End Scripted.

(** ** Sample data *)

Definition sample_anchors : list Extractor.anchor :=
  [ Scripted.tile "/gallery/abc?sort=new" (3 # 2) 300;
    Scripted.tile "/a/1#top" (401 # 2) (1 # 2);
    Scripted.tile "/upload" 0 0;
    Scripted.tile "/a/1" 10 (1 # 4);
    {| Extractor.a_visible := Raise TimeoutError;
       Extractor.a_href := Ok (Some "/a/2");
       Extractor.a_box := Ok None |};
    Scripted.tile "/user/bob/posts" 5 5;
    Scripted.tile "/AbCdEfG" (5 # 2) 300 ].

Definition sample_links : list Extractor.item :=
  [ {| Extractor.href := "/a/1"; Extractor.x := 10; Extractor.y := 1 # 4 |};
    {| Extractor.href := "/gallery/abc"; Extractor.x := 3 # 2; Extractor.y := 300 |};
    {| Extractor.href := "/AbCdEfG"; Extractor.x := 5 # 2; Extractor.y := 300 |} ].

(** ** Judgements on programs *)

Section Judgements.
Context {S : Type}.

(** [w'] is [w] after some more events, all of them in [E]. *)
Definition extends (E : event -> Prop) (w w' : world S) : Prop :=
  exists new, trace w' = (trace w ++ new)%list /\ Forall E new.

(** Whatever the page, [m] only adds events of [E] to the trace. *)
Definition emits {A} (E : event -> Prop) (m : M S A) : Prop :=
  forall w, extends E w (snd (m w)).

(** [m] never raises. *)
Definition total {A} (m : M S A) : Prop :=
  forall w, exists a, fst (m w) = Ok a.

(** Every value [m] returns is in [R]. *)
Definition yields {A} (R : A -> Prop) (m : M S A) : Prop :=
  forall w a, fst (m w) = Ok a -> R a.

(** [m] never raises and every value it returns is in [R]. *)
Definition always {A} (R : A -> Prop) (m : M S A) : Prop :=
  forall w, exists a, fst (m w) = Ok a /\ R a.

End Judgements.

Definition is_goto (e : event) : Prop := exists url, e = Goto url.

(** The three outcomes the docstring of [delete_one] lists. *)
Definition documented_outcome (o : outcome) : Prop :=
  o = (true, 1) \/ o = (true, 0) \/ o = (false, 0).

(** ** The controls of the dry-run property *)

(** The "Delete post" controls of the album driver. *)
Definition delete_post_controls : list locator :=
  (map Css Sel.delete_post_selectors ++ [Role "button" (NameRe "Delete post")])%list.

(** The cancel and dismiss controls of the image driver. *)
Definition cancel_controls : list locator :=
  (map Css Sel.cancel_selectors ++ [Role "button" (NameRe "Cancel")])%list.

(** The affirmative controls of the three confirmation dialogs: the
    locators the drivers build, and the two role locators the tuples of
    [confirmation_selectors] name. *)
Definition confirmation_controls : list locator :=
  ([yes_delete_it_button]
   ++ [Role "button" (Name "Delete Post Only"); Role "button" (Name "Delete Post")]
   ++ Sel.confirmation_selectors
   ++ map Css Sel.delete_from_account_selectors
   ++ [Role "button" (NameRe "Delete from account")]
   ++ map Css Sel.confirm_selectors
   ++ map (fun label => Role "button" (NameRe label)) Sel.confirm_labels)%list.

(** What a dry run of [delete_one] may do to the page: navigate, click
    the "Delete image" button that opens the modal, click a cancel
    control. *)
Definition dry_run_allowed (e : event) : bool :=
  match e with
  | Goto _ => true
  | Click l => locator_eqb l delete_image_button || among cancel_controls l
  | _ => false
  end.

Definition clicks (tr : list event) : list locator :=
  flat_map (fun e => match e with Click l => [l] | _ => [] end) tr.

(** The dry-run property as the specification words it, for one run of
    [delete_one] from a fresh trace: no confirmation control is clicked,
    only cancel controls are, and the outcome is a success. *)
Definition dry_run_as_specified {S} (B : browser S) (href : string) (p : S) : Prop :=
  let r := delete_one B href true {| page := p; trace := [] |} in
  Forall (fun l => among confirmation_controls l = false) (clicks (trace (snd r)))
  /\ Forall (fun l => among cancel_controls l = true) (clicks (trace (snd r)))
  /\ exists n, fst r = Ok (true, n).

(** ** The terminal conditions as the specification words them *)

(** [processed >= cap], or no link extracted and a height seen before. *)
Definition terminal_as_specified (cap : Z) (f : final) : Prop :=
  cap <= processed (at_exit f)
  \/ exists h, how f = NoMorePosts h /\ h ∈ seen_heights (at_exit f).

(** ** How the loop is left *)

(** What holds at each of the three ways out of the loop. *)
Definition exit_condition (cap : Z) (f : final) : Prop :=
  match how f with
  | CapReached => cap <= processed (at_exit f)
  | NoMorePosts h =>
      processed (at_exit f) < cap /\ h ∈ seen_heights (at_exit f)
  | NoFurtherContent links h =>
      links <> [] /\ h ∈ seen_heights (at_exit f)
  end.

(** How a run of [main_loop] that ends relates to where it started. *)
Definition exit_from (cap : Z) (rs : run_state) (f : final) : Prop :=
  processed rs <= processed (at_exit f)
  /\ (processed rs <= cap -> processed (at_exit f) <= cap)
  /\ seen_heights rs ⊆ seen_heights (at_exit f)
  /\ exit_condition cap f.

(** ** The passes of the loop

    One turn of the [while] loop of lines 972-1019, told as the steps
    the page answers: either it leaves the loop, in one of three ways,
    or it goes on to the next test with a new state. The height read
    is tested against the heights seen before the read. *)

Section Passes.
Context {S : Type} (B : browser S).
Variables (username : string) (dry_run : bool) (cap : Z).

(** The three ways out: the test of line 972 fails; no link and a
    height seen before (lines 974-979); links processed and a height
    seen before (lines 1013-1016). *)
Inductive ends : run_state -> world S -> final -> world S -> Prop :=
| ends_cap_reached rs w :
    cap <= processed rs ->
    ends rs w {| how := CapReached; at_exit := rs |} w
| ends_no_more_posts rs w w1 h w2 :
    processed rs < cap ->
    find_links B w = (Ok [], w1) ->
    read_scroll_height B w1 = (Ok h, w2) ->
    h ∈ seen_heights rs ->
    ends rs w {| how := NoMorePosts h; at_exit := rs |} w2
| ends_no_further_content rs w l links w1 p w2 h w3 :
    processed rs < cap ->
    find_links B w = (Ok (l :: links), w1) ->
    process_links B username dry_run cap (l :: links) (processed rs) w1 = (Ok p, w2) ->
    read_scroll_height B w2 = (Ok h, w3) ->
    h ∈ seen_heights rs ->
    ends rs w {| how := NoFurtherContent (l :: links) h;
                 at_exit := {| processed := p; seen_heights := seen_heights rs |} |} w3.

(** The two ways on: a height not seen before is remembered and the
    page scrolled to the bottom, after no link (lines 980-983) or after
    the links of the pass (lines 1017-1019). *)
Inductive continues : run_state -> world S -> run_state -> world S -> Prop :=
| continues_without_links rs w w1 h w2 w3 :
    processed rs < cap ->
    find_links B w = (Ok [], w1) ->
    read_scroll_height B w1 = (Ok h, w2) ->
    h ∉ seen_heights rs ->
    scroll_bottom B w2 = (Ok tt, w3) ->
    continues rs w
      {| processed := processed rs; seen_heights := {[h]} ∪ seen_heights rs |} w3
| continues_with_links rs w l links w1 p w2 h w3 w4 :
    processed rs < cap ->
    find_links B w = (Ok (l :: links), w1) ->
    process_links B username dry_run cap (l :: links) (processed rs) w1 = (Ok p, w2) ->
    read_scroll_height B w2 = (Ok h, w3) ->
    h ∉ seen_heights rs ->
    scroll_bottom B w3 = (Ok tt, w4) ->
    continues rs w {| processed := p; seen_heights := {[h]} ∪ seen_heights rs |} w4.

(** [n] turns that go on, one after the other. *)
Inductive after_passes : nat -> run_state -> world S -> run_state -> world S -> Prop :=
| after_no_pass rs w : after_passes 0 rs w rs w
| after_one_more n rs w rs1 w1 rs2 w2 :
    continues rs w rs1 w1 ->
    after_passes n rs1 w1 rs2 w2 ->
    after_passes (Datatypes.S n) rs w rs2 w2.

End Passes.

(** ** The end-to-end scenario *)

Module Scenario.

(** The three tiles, the positions read as [(x, y)], the order of the
    extractor's tuples ... *)
Definition grid_xy : list Extractor.anchor :=
  [ Scripted.tile "/a/1" 0 0; Scripted.tile "/IMAGE01" 0 150; Scripted.tile "/gallery/2" 150 0 ].

(** ... and read as [(y, x)], the order of the sort key. *)
Definition grid_yx : list Extractor.anchor :=
  [ Scripted.tile "/a/1" 0 0; Scripted.tile "/IMAGE01" 150 0; Scripted.tile "/gallery/2" 0 150 ].

Definition outcomes (tr : list event) : list (string * bool * Z) :=
  flat_map (fun e => match e with Outcome h ok n => [(h, ok, n)] | _ => [] end) tr.

Definition scrolls_to_bottom (tr : list event) : nat :=
  List.length (List.filter (fun e => match e with ScrollBottom => true | _ => false end) tr).

(** The run of the scenario: cap 3, dry-run, on a site with the usual
    controls. *)
Definition scenario (grid : list Extractor.anchor) (fuel : nat)
  : res (option final) * world string :=
  run (Scripted.engine (Scripted.plain grid)) "user" true 3 fuel Scripted.start.

(** Where the scenario ends. *)
Definition at_cap : final :=
  {| how := CapReached;
     at_exit := {| processed := 3; seen_heights := {[ 1080 ]} |} |}.

Definition grid_page : string := "https://imgur.com/user/user/posts".

Definition album_visit (h : string) : list event :=
  [ Goto ("https://imgur.com" +:+ h); Outcome h true 0; Goto grid_page; ScrollTop ].

Definition image_visit (h : string) : list event :=
  [ Goto ("https://imgur.com" +:+ h);
    Click (Role "button" (Name "Delete image"));
    Click (Css (Sel.has_text "button" "Cancel"));
    Outcome h true 1; Goto grid_page; ScrollTop ].

(** What the run does when the positions are read as [(y, x)] ... *)
Definition trace_yx : list event :=
  ([ Goto grid_page; ScrollTop ]
   ++ album_visit "/a/1" ++ image_visit "/IMAGE01" ++ album_visit "/gallery/2"
   ++ [ ScrollBottom ])%list.

(** ... and when they are read as [(x, y)]. *)
Definition trace_xy : list event :=
  ([ Goto grid_page; ScrollTop ]
   ++ album_visit "/a/1" ++ album_visit "/gallery/2" ++ image_visit "/IMAGE01"
   ++ [ ScrollBottom ])%list.

(** The scenario as the specification words it. *)
Definition as_specified (r : res (option final) * world string) : Prop :=
  outcomes (trace (snd r)) = [("/a/1", true, 0); ("/IMAGE01", true, 1); ("/gallery/2", true, 0)]
  /\ (exists f, fst r = Ok (Some f) /\ how f = CapReached /\ processed (at_exit f) = 3)
  /\ scrolls_to_bottom (trace (snd r)) = 0%nat.

End Scenario.

(** ** Further definitions, for the properties beyond the claims *)

(** A site on which every control is visible, every call succeeds and
    every page says the post is not found. *)
Definition vanished : Scripted.script := {|
  Scripted.s_goto := fun url => (Ok tt, url);
  Scripted.s_visible := fun _ _ => Ok true;
  Scripted.s_click := fun _ => Ok tt;
  Scripted.s_attribute := fun _ _ => Ok None;
  Scripted.s_count := fun _ => Ok 5%nat;
  Scripted.s_content := fun _ => Ok "<html>404 Not Found</html>";
  Scripted.s_load := Ok tt;
  Scripted.s_height := 1080;
  Scripted.s_anchors := []
|}.

(** An anchor that answers as a visible tile with the href and the
    position of a link of the extractor. *)
Definition as_tile (it : Extractor.item) : Extractor.anchor :=
  Scripted.tile (Extractor.href it) (Extractor.x it) (Extractor.y it).

(** What makes an anchor a post link for [find_post_links_sorted]: it
    answers visible, its href reads, normalises to [h], [h] passes the
    three tests of lines 433-436, and it has a bounding box. *)
Definition qualifies (a : Extractor.anchor) (h : string) (b : Extractor.box) : Prop :=
  Extractor.a_visible a = Ok true
  /\ (exists raw, Extractor.a_href a = Ok raw /\ h = Extractor.normalize raw)
  /\ Py.startswith h "/" = true
  /\ Py.startswith_any h Extractor.BAD_PREFIXES = false
  /\ Extractor.POST_HREF_PAT h = true
  /\ Extractor.a_box a = Ok (Some b).

(** The outcomes of the image and the menu drivers. *)
Definition counted (o : outcome) : Prop := o = (true, 1) \/ o = (false, 0).

(** Every locator the album driver may click through: those of its
    first stage and those its confirmation loop builds. *)
Definition album_controls : list locator :=
  (delete_post_controls ++ Sel.confirmation_selectors)%list.

Definition album_event (e : event) : bool :=
  match e with
  | Click l => among album_controls l
  | _ => false
  end.

(** The controls of the three stages of the menu driver. *)
Definition is_menu_control (l : locator) : Prop :=
  In l (map Css Sel.three_dots_selectors) \/ exists i, l = NthOf "button" i.

Definition delete_image_controls : list locator :=
  (map Css Sel.delete_image_selectors ++ [Role "menuitem" (NameRe "Delete image")])%list.

Definition delete_from_account_controls : list locator :=
  (map Css Sel.delete_from_account_selectors
   ++ [Role "button" (NameRe "Delete from account")])%list.

(** What [delete_one] may do for the post at [url]. *)
Definition post_event (url : string) (e : event) : Prop :=
  e = Goto url \/ exists l, e = Click l.

(** The controls of [select_all_tab]. *)
Definition all_tab_controls : list locator :=
  (Role "tab" (NameRe "^\s*all\s*$") :: map Css Sel.all_tab_selectors)%list.

(** The controls that delete an image: those of the image driver and of
    the menu driver, and the generic confirmation buttons. *)
Definition image_deleting_controls : list locator :=
  ([delete_image_button; yes_delete_it_button]
   ++ delete_image_controls
   ++ delete_from_account_controls
   ++ map Css Sel.confirm_selectors
   ++ map (fun label => Role "button" (NameRe label)) Sel.confirm_labels)%list.

(** The hrefs of the links a trace records an outcome for, in order. *)
Definition attempted (tr : list event) : list string :=
  flat_map (fun e => match e with Outcome h _ _ => [h] | _ => [] end) tr.

(** What one link adds to [processed] as the specification words it:
    [images_deleted] when it is not zero, 1 otherwise. *)
Definition increment (images_deleted : Z) : Z :=
  if images_deleted =? 0 then 1 else images_deleted.

(** The increments of the outcomes a trace records, added up. *)
Definition gained (tr : list event) : Z :=
  fold_right (fun e acc => match e with
                           | Outcome _ _ n => increment n + acc
                           | _ => acc
                           end) 0 tr.

(** Events that are neither an outcome nor a scroll to the bottom. *)
Definition quiet (e : event) : Prop :=
  match e with
  | Outcome _ _ _ | ScrollBottom => False
  | _ => True
  end.

(** Every outcome of the trace is immediately followed by a navigation
    to [grid]. *)
Fixpoint back_to_grid (grid : string) (tr : list event) : Prop :=
  match tr with
  | [] => True
  | Outcome _ _ _ :: rest =>
      match rest with
      | Goto u :: _ => u = grid
      | _ => False
      end /\ back_to_grid grid rest
  | _ :: rest => back_to_grid grid rest
  end.

(** What a dry run of the whole loop may click: the "All" tab, the
    "Delete image" button that opens the dialog, a cancel control. *)
Definition dry_run_controls : list locator :=
  (all_tab_controls ++ delete_image_button :: cancel_controls)%list.

Definition dry_run_loop_event (e : event) : bool :=
  match e with
  | Click l => among dry_run_controls l
  | _ => true
  end.

(** ** The interactive prompts ([prompt_yes_no], [prompt_int]) *)

Module Console.

(** [str.isspace] on the ASCII range: tab to carriage return, the four
    separators 28-31, and the space. *)
Definition is_space (c : ascii) : bool :=
  let n := nat_of_ascii c in
  ((Nat.leb 9 n && Nat.leb n 13) || (Nat.leb 28 n && Nat.leb n 32))%bool.

Fixpoint lstrip (s : string) : string :=
  match s with
  | EmptyString => EmptyString
  | String c s' => if is_space c then lstrip s' else s
  end.

Fixpoint rstrip (s : string) : string :=
  match s with
  | EmptyString => EmptyString
  | String c s' =>
      match rstrip s' with
      | EmptyString => if is_space c then EmptyString else String c EmptyString
      | r => String c r
      end
  end.

(** [s.strip()] *)
Definition strip (s : string) : string := lstrip (rstrip s).

(** What a call of [input()] finds on the terminal: a line, or Ctrl+C.
    With nothing left to read, [input()] raises [EOFError]. *)
Inductive keyed :=
| Line (s : string)
| CtrlC.

(** How a prompt ends: with an answer and the input left unread, by the
    [KeyboardInterrupt] it re-raises, or by the [EOFError] of
    [input()]. *)
Inductive asked (A : Type) : Type :=
| Answered (a : A) (rest : list keyed)
| Interrupted (rest : list keyed)
| EndOfInput.
Arguments Answered {A} a rest.
Arguments Interrupted {A} rest.
Arguments EndOfInput {A}.

(** [prompt_yes_no(prompt, default)] *)
Fixpoint prompt_yes_no (default : bool) (inputs : list keyed) : asked bool :=
  match inputs with
  | [] => EndOfInput
  | CtrlC :: rest => Interrupted rest
  | Line s :: rest =>
      let response := Py.lower (strip s) in
      if String.eqb response EmptyString then Answered default rest
      else if String.eqb response "y" || String.eqb response "yes" then Answered true rest
      else if String.eqb response "n" || String.eqb response "no" then Answered false rest
      else prompt_yes_no default rest
  end.

Section PromptInt.

(** Python's [int(str)]: [None] stands for its [ValueError]. *)
Variable int : string -> option Z.

(** [prompt_int(prompt, default, min_val, max_val)] *)
Fixpoint prompt_int (default : Z) (min_val : Z) (max_val : option Z)
    (inputs : list keyed) : asked Z :=
  match inputs with
  | [] => EndOfInput
  | CtrlC :: rest => Interrupted rest
  | Line s :: rest =>
      let response := strip s in
      if String.eqb response EmptyString then Answered default rest
      else match int response with
           | None => prompt_int default min_val max_val rest
           | Some val =>
               if val <? min_val then prompt_int default min_val max_val rest
               else match max_val with
                    | Some m =>
                        if val >? m then prompt_int default min_val max_val rest
                        else Answered val rest
                    | None => Answered val rest
                    end
           end
  end.

(** A line [prompt_int] answers: blank, or an integer within the
    bounds. *)
Definition accepted (min_val : Z) (max_val : option Z) (s : string) : bool :=
  let response := strip s in
  String.eqb response EmptyString
  || match int response with
     | None => false
     | Some val =>
         negb (val <? min_val)
         && match max_val with Some m => negb (val >? m) | None => true end
     end.

End PromptInt.

(** A line [prompt_yes_no] answers. *)
Definition recognised (s : string) : bool :=
  let response := Py.lower (strip s) in
  String.eqb response EmptyString
  || String.eqb response "y" || String.eqb response "yes"
  || String.eqb response "n" || String.eqb response "no".

(** Lines 299-310 of [interactive_setup]: the dry-run question and,
    when it is answered no, the confirmation that may switch back to a
    dry run. *)
Definition choose_dry_run (default : bool) (inputs : list keyed) : asked bool :=
  match prompt_yes_no default inputs with
  | Answered true rest => Answered true rest
  | Answered false rest =>
      match prompt_yes_no true rest with
      | Answered confirm_del rest' =>
          Answered (if negb confirm_del then true else false) rest'
      | Interrupted rest' => Interrupted rest'
      | EndOfInput => EndOfInput
      end
  | Interrupted rest => Interrupted rest
  | EndOfInput => EndOfInput
  end.

(** [int] on plain runs of decimal digits, enough to run the prompts. *)
Fixpoint digits_value (acc : Z) (s : string) : option Z :=
  match s with
  | EmptyString => Some acc
  | String c s' =>
      let n := nat_of_ascii c in
      if (Nat.leb 48 n && Nat.leb n 57)%bool
      then digits_value (10 * acc + Z.of_nat (n - 48)) s'
      else None
  end.

Definition int_of_digits (s : string) : option Z :=
  match s with
  | EmptyString => None
  | _ => digits_value 0 s
  end.

End Console.

(** ** The user name of a stored session ([extract_username_from_storage]) *)

Module Storage.

(** The parts of the storage-state JSON the function reads: for each
    entry of ["origins"] its ["origin"] and for each entry of
    ["cookies"] its ["domain"], [None] where the key is missing
    ([.get(key, "")]). A file that cannot be opened or parsed, or whose
    entries are not objects with string values, raises inside the
    [try]; the function then returns [None]. *)
Record state := {
  origins : list (option string);
  cookies : list (option string)
}.

(** The longest prefix without a dot, and what follows it. *)
Fixpoint take_label (s : string) : string * string :=
  match s with
  | EmptyString => (EmptyString, EmptyString)
  | String c s' =>
      if Ascii.eqb c "." then (EmptyString, s)
      else let (lab, rest) := take_label s' in (String c lab, rest)
  end.

(** [([^.]+)\.imgur\.com] matched at the start of [s]: group 1. The
    class cannot cross a dot and the next character must be one, so the
    group is the whole dot-free run. *)
Definition label_at (s : string) : option string :=
  let (lab, rest) := take_label s in
  if negb (String.eqb lab EmptyString) && Py.startswith rest ".imgur.com"
  then Some lab else None.

Fixpoint drop (n : nat) (s : string) : string :=
  match n, s with
  | O, _ => s
  | Datatypes.S n', String _ s' => drop n' s'
  | Datatypes.S _, EmptyString => EmptyString
  end.

(** [re.search(r"https://([^.]+)\.imgur\.com", s)]: group 1 of the
    leftmost match. *)
Fixpoint search_origin (s : string) : option string :=
  match (if Py.startswith s "https://" then label_at (drop 8 s) else None) with
  | Some lab => Some lab
  | None =>
      match s with
      | EmptyString => None
      | String _ s' => search_origin s'
      end
  end.

(** [re.search(r"([^.]+)\.imgur\.com", s)]: group 1 of the leftmost
    match. *)
Fixpoint search_domain (s : string) : option string :=
  match label_at s with
  | Some lab => Some lab
  | None =>
      match s with
      | EmptyString => None
      | String _ s' => search_domain s'
      end
  end.

Definition reserved : list string := ["www"; "i"; "api"; "m"].

Fixpoint from_origins (l : list (option string)) : option string :=
  match l with
  | [] => None
  | o :: l' =>
      match search_origin (default EmptyString o) with
      | Some u => Some u
      | None => from_origins l'
      end
  end.

Fixpoint from_cookies (l : list (option string)) : option string :=
  match l with
  | [] => None
  | c :: l' =>
      let domain := default EmptyString c in
      if Py.contains ".imgur.com" domain then
        match search_domain domain with
        | Some username =>
            if existsb (String.eqb username) reserved then from_cookies l'
            else Some username
        | None => from_cookies l'
        end
      else from_cookies l'
  end.

(** [extract_username_from_storage]: [None] for the input stands for
    an exception inside the [try]. *)
Definition extract_username_from_storage (data : option state) : option string :=
  match data with
  | None => None
  | Some d =>
      match from_origins (origins d) with
      | Some u => Some u
      | None => from_cookies (cookies d)
      end
  end.

End Storage.

(** A line a prompt passes over. *)
Definition passed_over (ok : string -> bool) (k : Console.keyed) : Prop :=
  exists s, k = Console.Line s /\ ok s = false.

(** An href the extractor lets through. *)
Definition post_href (h : string) : Prop :=
  Py.startswith h "/" = true
  /\ Py.startswith_any h Extractor.BAD_PREFIXES = false
  /\ Extractor.POST_HREF_PAT h = true.

(** Where a run may send the page: to the user's posts page, or to the
    page of a post whose href the extractor let through. *)
Definition run_event (grid : string) (e : event) : Prop :=
  match e with
  | Goto u => u = grid \/ exists h, u = "https://imgur.com" +:+ h /\ post_href h
  | _ => True
  end.
(** * Properties *)

(** ** Small checks of the string functions and the classifier *)

Example classify_a : classify "/a/123" = Album.
Proof. reflexivity. Qed.
Example classify_gallery : classify "/gallery/abcDE" = Album.
Proof. reflexivity. Qed.
Example classify_image : classify "/image/xyz" = Image.
Proof. reflexivity. Qed.
Example classify_seven : classify "/AbCdEfG" = Image.
Proof. reflexivity. Qed.
Example round_half_even :
  (Py.round (5 # 2), Py.round (7 # 2), Py.round (-1 # 2), Py.round (149 # 1))
  = (2, 4, 0, 149).
Proof. reflexivity. Qed.

(** ** The classifier *)

(** C1, as stated, fails: an href under an album prefix that contains
    [/image/] takes the image branch, which [delete_one] tests first. *)
Lemma classify_album_prefix_with_image_segment :
  Py.startswith "/a/image/x" "/a/" = true /\
  Py.contains "/image/" "/a/image/x" = true /\
  classify "/a/image/x" = Image /\
  spec_classify "/a/image/x" = Album /\
  classify "/a/image/x" <> spec_classify "/a/image/x".
Proof. repeat split; try reflexivity. discriminate. Qed.

(** C1, amended: the classifier is a function of the href alone in which
    the [/image/] substring comes first: an href that contains [/image/]
    is Image, also under an album prefix; otherwise an href that starts
    with [/a/] or [/gallery/] is Album; otherwise an href that starts
    with [/] and whose final path segment has exactly 7 characters is
    Image; otherwise it is Other. On hrefs that start with [/] and do
    not contain [/image/] this is the album-first order of the
    specification. *)
Theorem classify_image_substring_first (href : string) :
  classify href =
    (if Py.contains "/image/" href then Image
     else if Py.startswith href "/a/" || Py.startswith href "/gallery/" then Album
     else if Py.startswith href "/" && (Py.len (Py.last (Py.split "/" href)) =? 7)
          then Image
     else Other)
  /\ (Py.startswith href "/" = true -> Py.contains "/image/" href = false ->
      classify href = spec_classify href).
Proof.
  unfold classify, spec_classify, is_image, is_album.
  split.
  - destruct (Py.contains "/image/" href); [reflexivity|].
    destruct (Py.startswith href "/a/" || Py.startswith href "/gallery/");
      rewrite ?andb_false_r; [reflexivity|].
    rewrite andb_true_r.
    destruct (Py.startswith href "/" && _); reflexivity.
  - intros Hslash Himg. rewrite Hslash, Himg. cbn [orb andb].
    destruct (Py.startswith href "/a/" || Py.startswith href "/gallery/");
      rewrite ?andb_false_r, ?andb_true_r; [reflexivity|].
    destruct (_ =? 7); reflexivity.
Qed.

Lemma classify_image_substring_first_witness :
  Py.startswith "/gallery/abcDEFG" "/" = true /\
  Py.contains "/image/" "/gallery/abcDEFG" = false /\
  classify "/gallery/abcDEFG" = spec_classify "/gallery/abcDEFG".
Proof.
  split; [reflexivity|]. split; [reflexivity|].
  apply (proj2 (classify_image_substring_first "/gallery/abcDEFG")); reflexivity.
Defined.

(** ** The extractor *)

Module ExtractorFacts.
Import Extractor.

Lemma key_leb_total k1 k2 : key_leb k1 k2 = false -> key_leb k2 k1 = true.
Proof.
  unfold key_leb. destruct k1 as [a b], k2 as [c d]; cbn [fst snd]. lia.
Qed.

Lemma key_leb_trans k1 k2 k3 :
  key_leb k1 k2 = true -> key_leb k2 k3 = true -> key_leb k1 k3 = true.
Proof.
  unfold key_leb. destruct k1 as [a b], k2 as [c d], k3 as [e f]; cbn [fst snd]. lia.
Qed.

Lemma key_le_trans a b c : key_le a b -> key_le b c -> key_le a c.
Proof. unfold key_le. apply key_leb_trans. Qed.

Lemma in_insert it a l : In a (insert it l) <-> a = it \/ In a l.
Proof.
  induction l as [|j l IH]; cbn [insert].
  - cbn. intuition.
  - destruct (key_leb (key it) (key j)); cbn [In]; [|rewrite IH]; intuition.
Qed.

Lemma in_sort_items a l : In a (sort_items l) <-> In a l.
Proof.
  induction l as [|it l IH]; cbn [sort_items]; [reflexivity|].
  rewrite in_insert, IH. cbn. intuition.
Qed.

Lemma insert_sorted it l :
  StronglySorted key_le l -> StronglySorted key_le (insert it l).
Proof.
  induction 1 as [|j l Hs IH Hall]; cbn [insert].
  - repeat constructor.
  - destruct (key_leb (key it) (key j)) eqn:E.
    + constructor; [constructor; assumption|].
      constructor; [exact E|].
      eapply List.Forall_impl; [|exact Hall].
      intros c Hc. eapply key_le_trans; [exact E|exact Hc].
    + constructor; [exact IH|].
      apply List.Forall_forall. intros c Hc. apply in_insert in Hc as [->|Hc].
      * apply key_leb_total, E.
      * rewrite List.Forall_forall in Hall. apply Hall, Hc.
Qed.

Lemma sort_items_sorted l : StronglySorted key_le (sort_items l).
Proof.
  induction l; cbn [sort_items]; [constructor|apply insert_sorted; assumption].
Qed.

(** What the de-duplication keeps: items of the list, in its order,
    with an href not seen before. *)
Lemma in_dedupe seen l it :
  In it (dedupe seen l) -> In it l /\ href it ∉ seen.
Proof.
  revert seen. induction l as [|j l IH]; intros seen; cbn [dedupe]; [intros []|].
  destruct (decide (href j ∈ seen)) as [Hin|Hout].
  - intros H. destruct (IH _ H) as [H1 H2]. split; [right; exact H1|exact H2].
  - intros [<-|H]; [split; [left; reflexivity|exact Hout]|].
    destruct (IH _ H) as [H1 H2]. split; [right; exact H1|].
    intros Hs. apply H2, elem_of_union. right. exact Hs.
Qed.

Lemma dedupe_Forall (P : item -> Prop) seen l :
  Forall P l -> Forall P (dedupe seen l).
Proof.
  rewrite !List.Forall_forall. intros H it Hit. apply in_dedupe in Hit as [Hit _]. auto.
Qed.

Lemma dedupe_sorted seen l :
  StronglySorted key_le l -> StronglySorted key_le (dedupe seen l).
Proof.
  intros Hs. revert seen. induction Hs as [|j l Hs IH Hall]; intros seen; cbn [dedupe].
  - constructor.
  - destruct (decide (href j ∈ seen)); [apply IH|].
    constructor; [apply IH|apply dedupe_Forall, Hall].
Qed.

Lemma dedupe_NoDup seen l : List.NoDup (map href (dedupe seen l)).
Proof.
  revert seen. induction l as [|j l IH]; intros seen; cbn [dedupe]; [constructor|].
  destruct (decide (href j ∈ seen)); [apply IH|].
  cbn [map]. constructor; [|apply IH].
  intros Hin. apply in_map_iff in Hin as (it & Heq & Hit).
  apply in_dedupe in Hit as [_ Hnot]. rewrite Heq in Hnot. set_solver.
Qed.

(** The item kept for an href is the first one of the list with it. *)
Lemma dedupe_first seen l it :
  In it (dedupe seen l) -> find (same_href it) l = Some it.
Proof.
  revert seen. induction l as [|j l IH]; intros seen; cbn [dedupe find]; [intros []|].
  unfold same_href at 1.
  destruct (decide (href j ∈ seen)) as [Hin|Hout].
  - intros H. pose proof (in_dedupe _ _ _ H) as [_ Hnot].
    destruct (String.eqb_spec (href it) (href j)) as [E|_]; [congruence|].
    eapply IH, H.
  - intros [<-|H]; [rewrite String.eqb_refl; reflexivity|].
    pose proof (in_dedupe _ _ _ H) as [_ Hnot].
    destruct (String.eqb_spec (href it) (href j)) as [E|_]; [set_solver|].
    eapply IH, H.
Qed.

(** Where the collected items come from. *)
Lemma in_collect anchors items it :
  collect anchors = Ok items -> In it items ->
  exists a, In a anchors /\ candidate a = Ok (Some it).
Proof.
  revert items. induction anchors as [|a rest IH]; intros items; cbn [collect].
  - intros [= <-] [].
  - destruct (candidate a) as [o|e] eqn:Ea; [|discriminate].
    destruct (collect rest) as [l|e] eqn:Er; [|discriminate].
    intros [= <-] Hin.
    assert (In it l -> exists a0, In a0 (a :: rest) /\ candidate a0 = Ok (Some it)) as Hl.
    { intros H. destruct (IH l eq_refl H) as (a0 & H1 & H2).
      exists a0. split; [right; exact H1|exact H2]. }
    destruct o as [j|]; [|auto].
    destruct Hin as [<-|Hin]; [|auto].
    exists a. split; [left; reflexivity|exact Ea].
Qed.

Lemma candidate_some a it :
  candidate a = Ok (Some it) ->
  a_visible a = Ok true /\
  (exists raw, a_href a = Ok raw /\ href it = normalize raw) /\
  Py.startswith (href it) "/" = true /\
  Py.startswith_any (href it) BAD_PREFIXES = false /\
  POST_HREF_PAT (href it) = true /\
  a_box a = Ok (Some {| box_x := x it; box_y := y it |}).
Proof.
  unfold candidate.
  destruct (a_visible a) as [[|]|]; try discriminate.
  destruct (a_href a) as [raw|]; try discriminate.
  destruct (Py.startswith (normalize raw) "/") eqn:E1; cbn [negb orb]; try discriminate.
  destruct (Py.startswith_any (normalize raw) BAD_PREFIXES) eqn:E2; try discriminate.
  destruct (POST_HREF_PAT (normalize raw)) eqn:E3; cbn [negb]; try discriminate.
  destruct (a_box a) as [[b|]|]; try discriminate.
  intros [= <-]. cbn [href x y]. destruct b. eauto 10.
Qed.

(** Normalisation leaves neither a [?] nor a [#]. *)
Lemma has_char_cons c d s :
  has_char c (String d s) = Ascii.eqb c d || has_char c s.
Proof.
  unfold has_char.
  change (Py.contains (String c EmptyString) (String d s))
    with ((Ascii.eqb c d && Py.startswith s EmptyString)
          || Py.contains (String c EmptyString) s).
  replace (Py.startswith s EmptyString) with true by (destruct s; reflexivity).
  rewrite andb_true_r. reflexivity.
Qed.

Lemma split_first_prefix c s :
  forall d, has_char d s = false -> has_char d (Py.first (Py.split c s)) = false.
Proof.
  induction s as [|e s IH]; intros d; cbn [Py.split]; [auto|].
  destruct (Ascii.eqb e c); [reflexivity|].
  rewrite has_char_cons. intros H. apply orb_false_elim in H as [H1 H2].
  specialize (IH d H2).
  destruct (Py.split c s) as [|h t]; cbn [Py.first hd] in *;
    rewrite has_char_cons, H1; [reflexivity|exact IH].
Qed.

Lemma split_first_no_sep c s : has_char c (Py.first (Py.split c s)) = false.
Proof.
  induction s as [|e s IH]; cbn [Py.split]; [reflexivity|].
  destruct (Ascii.eqb e c) eqn:E; [reflexivity|].
  destruct (Py.split c s) as [|h t]; cbn [Py.first hd] in *;
    rewrite has_char_cons, Ascii.eqb_sym, E; [reflexivity|exact IH].
Qed.

Lemma normalize_strips raw :
  has_char "?" (normalize raw) = false /\ has_char "#" (normalize raw) = false.
Proof.
  unfold normalize. split; [apply split_first_no_sep|].
  apply split_first_prefix, split_first_no_sep.
Qed.

End ExtractorFacts.

(** C5: whatever anchors the page has, the sequence the extractor
    returns is sorted non-decreasing by [(round(y), round(x))]; its
    hrefs, each the href of an anchor with query string and fragment
    stripped, are pairwise different, the item kept for an href being
    the first one with it in the sorted order; and no href of the
    output starts with one of [BAD_PREFIXES]. *)
Theorem find_post_links_sorted_ordered_unique_filtered
    (anchors : list Extractor.anchor) (out : list Extractor.item) :
  Extractor.find_post_links_sorted anchors = Ok out ->
  StronglySorted Extractor.key_le out
  /\ List.NoDup (map Extractor.href out)
  /\ (exists items, Extractor.collect anchors = Ok items /\
        forall it, In it out ->
          find (Extractor.same_href it) (Extractor.sort_items items) = Some it)
  /\ (forall it, In it out ->
        Py.startswith_any (Extractor.href it) Extractor.BAD_PREFIXES = false
        /\ Extractor.has_char "?" (Extractor.href it) = false
        /\ Extractor.has_char "#" (Extractor.href it) = false
        /\ exists a raw, In a anchors /\ Extractor.a_href a = Ok raw
                         /\ Extractor.href it = Extractor.normalize raw).
Proof.
  unfold Extractor.find_post_links_sorted.
  destruct (Extractor.collect anchors) as [items|e] eqn:Ec; [|discriminate].
  intros [= <-].
  split; [apply ExtractorFacts.dedupe_sorted, ExtractorFacts.sort_items_sorted|].
  split; [apply ExtractorFacts.dedupe_NoDup|].
  split.
  - exists items. split; [reflexivity|]. intros it. apply ExtractorFacts.dedupe_first.
  - intros it Hit.
    apply ExtractorFacts.in_dedupe in Hit as [Hit _].
    apply (proj1 (ExtractorFacts.in_sort_items _ _)) in Hit.
    destruct (ExtractorFacts.in_collect _ _ _ Ec Hit) as (a & Ha & Hc).
    apply ExtractorFacts.candidate_some in Hc as (_ & (raw & Hraw & Hn) & _ & Hbad & _).
    split; [exact Hbad|].
    rewrite Hn.
    split; [apply ExtractorFacts.normalize_strips|].
    split; [apply ExtractorFacts.normalize_strips|].
    exists a, raw. rewrite <- Hn. auto.
Qed.

Lemma find_post_links_sorted_ordered_unique_filtered_witness :
  Extractor.find_post_links_sorted sample_anchors = Ok sample_links
  /\ StronglySorted Extractor.key_le sample_links
  /\ List.NoDup (map Extractor.href sample_links).
Proof.
  assert (Extractor.find_post_links_sorted sample_anchors = Ok sample_links) as E
    by (vm_compute; reflexivity).
  split; [exact E|].
  destruct (find_post_links_sorted_ordered_unique_filtered sample_anchors sample_links E)
    as (Hs & Hn & _).
  split; [exact Hs|exact Hn].
Defined.

(** ** Reasoning about programs *)

Section ProgramFacts.
Context {S : Type}.
Implicit Types (w : world S) (E : event -> Prop).

Lemma extends_refl E w : extends E w w.
Proof. exists []. split; [symmetry; apply app_nil_r|constructor]. Qed.

Lemma extends_trans E w1 w2 w3 :
  extends E w1 w2 -> extends E w2 w3 -> extends E w1 w3.
Proof.
  intros (n1 & H1 & F1) (n2 & H2 & F2). exists (n1 ++ n2)%list. split.
  - rewrite H2, H1, app_assoc. reflexivity.
  - apply Forall_app; split; assumption.
Qed.

Lemma extends_event E w (e : event) (p : S) :
  E e -> extends E w {| page := p; trace := (trace w ++ [e])%list |}.
Proof. intros He. exists [e]. split; [reflexivity|repeat constructor; exact He]. Qed.

Lemma extends_page E w (p : S) : extends E w {| page := p; trace := trace w |}.
Proof. exists []. split; [symmetry; apply app_nil_r|constructor]. Qed.

Lemma extends_weaken (E E' : event -> Prop) w w' :
  (forall e, E e -> E' e) -> extends E w w' -> extends E' w w'.
Proof.
  intros H (n & Hn & F). exists n. split; [exact Hn|].
  eapply List.Forall_impl; [exact H|exact F].
Qed.

(** *** [emits] *)

Lemma emits_ret E {A} (a : A) : emits E (ret (S := S) a).
Proof. intros w. apply extends_refl. Qed.

Lemma emits_raise E {A} (e : exn) : emits E (raise (S := S) (A := A) e).
Proof. intros w. apply extends_refl. Qed.

Lemma emits_read E {A} (f : S -> A) : emits E (read f).
Proof. intros w. apply extends_refl. Qed.

Lemma emits_prim E {A} (f : S -> res A * S) : emits E (prim f).
Proof. intros w. unfold prim. destruct (f (page w)). apply extends_page. Qed.

Lemma emits_act E {A} (e : event) (f : S -> res A * S) : E e -> emits E (act e f).
Proof. intros He w. unfold act. destruct (f (page w)). apply extends_event, He. Qed.

Lemma emits_note E (e : event) : E e -> emits E (note (S := S) e).
Proof. intros He w. apply extends_event, He. Qed.

Lemma emits_bind E {A C} (m : M S A) (k : A -> M S C) :
  emits E m -> (forall a, emits E (k a)) -> emits E (bind m k).
Proof.
  intros Hm Hk w. unfold bind. specialize (Hm w).
  destruct (m w) as [[a|e] w1]; cbn [snd] in *; [|exact Hm].
  eapply extends_trans; [exact Hm|apply Hk].
Qed.

Lemma emits_catch E {A} (m : M S A) (h : exn -> M S A) :
  emits E m -> (forall e, emits E (h e)) -> emits E (catch m h).
Proof.
  intros Hm Hh w. unfold catch. specialize (Hm w).
  destruct (m w) as [[a|e] w1]; cbn [snd] in *; [exact Hm|].
  eapply extends_trans; [exact Hm|apply Hh].
Qed.

Lemma emits_attempt E {A} (m : M S A) (d : A) : emits E m -> emits E (attempt m d).
Proof. intros Hm. apply emits_catch; [exact Hm|]. intros _. apply emits_ret. Qed.

Lemma emits_first_success E {A} (f : A -> M S bool) (l : list A) :
  Forall (fun a => emits E (f a)) l -> emits E (first_success f l).
Proof.
  induction 1 as [|a l Ha _ IH]; cbn [first_success]; [apply emits_ret|].
  apply emits_bind; [apply emits_attempt, Ha|].
  intros [|]; [apply emits_ret|exact IH].
Qed.

Lemma emits_or_else E (flag : bool) (m : M S bool) :
  emits E m -> emits E (or_else flag m).
Proof.
  intros Hm. unfold or_else. destruct flag; [apply emits_ret|apply emits_attempt, Hm].
Qed.

(** *** [total], [yields], [always] *)

Lemma total_ret {A} (a : A) : total (ret (S := S) a).
Proof. intros w. exists a. reflexivity. Qed.

Lemma total_read {A} (f : S -> A) : total (read f).
Proof. intros w. eexists. reflexivity. Qed.

Lemma total_note (e : event) : total (note (S := S) e).
Proof. intros w. exists tt. reflexivity. Qed.

Lemma total_bind {A C} (m : M S A) (k : A -> M S C) :
  total m -> (forall a, total (k a)) -> total (bind m k).
Proof.
  intros Hm Hk w. unfold bind. destruct (Hm w) as [a Ha].
  destruct (m w) as [[a'|e] w1]; cbn [fst] in Ha; [|discriminate]. apply Hk.
Qed.

Lemma total_catch {A} (m : M S A) (h : exn -> M S A) :
  (forall e, total (h e)) -> total (catch m h).
Proof.
  intros Hh w. unfold catch. destruct (m w) as [[a|e] w1]; [exists a; reflexivity|apply Hh].
Qed.

Lemma total_attempt {A} (m : M S A) (d : A) : total (attempt m d).
Proof. apply total_catch. intros _. apply total_ret. Qed.

Lemma total_first_success {A} (f : A -> M S bool) (l : list A) :
  total (first_success f l).
Proof.
  induction l as [|a l IH]; cbn [first_success]; [apply total_ret|].
  apply total_bind; [apply total_attempt|]. intros [|]; [apply total_ret|exact IH].
Qed.

Lemma total_or_else (flag : bool) (m : M S bool) : total (or_else flag m).
Proof. unfold or_else. destruct flag; [apply total_ret|apply total_attempt]. Qed.

Lemma always_ret {A} (R : A -> Prop) (a : A) : R a -> always R (ret (S := S) a).
Proof. intros Ha w. exists a. split; [reflexivity|exact Ha]. Qed.

Lemma always_bind {A C} (R : C -> Prop) (m : M S A) (k : A -> M S C) :
  total m -> (forall a, always R (k a)) -> always R (bind m k).
Proof.
  intros Hm Hk w. unfold bind. destruct (Hm w) as [a Ha].
  destruct (m w) as [[a'|e] w1]; cbn [fst] in Ha; [|discriminate]. apply Hk.
Qed.

Lemma always_bind_with {A C} (Q : A -> Prop) (R : C -> Prop) (m : M S A) (k : A -> M S C) :
  always Q m -> (forall a, Q a -> always R (k a)) -> always R (bind m k).
Proof.
  intros Hm Hk w. unfold bind. destruct (Hm w) as (a & Ha & Hq).
  destruct (m w) as [[a'|e] w1]; cbn [fst] in Ha; [|discriminate].
  injection Ha as ->. apply Hk, Hq.
Qed.

Lemma always_catch {A} (R : A -> Prop) (m : M S A) (h : exn -> M S A) :
  yields R m -> (forall e, always R (h e)) -> always R (catch m h).
Proof.
  intros Hm Hh w. unfold catch. specialize (Hm w).
  destruct (m w) as [[a|e] w1]; cbn [fst] in *; [|apply Hh].
  exists a. split; [reflexivity|apply Hm; reflexivity].
Qed.

Lemma always_weaken {A} (Q R : A -> Prop) (m : M S A) :
  (forall a, Q a -> R a) -> always Q m -> always R m.
Proof.
  intros H Hm w. destruct (Hm w) as (a & Ha & Hq). exists a. auto.
Qed.

Lemma always_total {A} (R : A -> Prop) (m : M S A) : always R m -> total m.
Proof. intros H w. destruct (H w) as (a & Ha & _). exists a. exact Ha. Qed.

Lemma always_yields {A} (R : A -> Prop) (m : M S A) : always R m -> yields R m.
Proof.
  intros H w a Ha. destruct (H w) as (a' & Ha' & Hr). congruence.
Qed.

Lemma yields_ret {A} (R : A -> Prop) (a : A) : R a -> yields R (ret (S := S) a).
Proof. intros Ha w a' [= <-]. exact Ha. Qed.

Lemma yields_bind {A C} (R : C -> Prop) (m : M S A) (k : A -> M S C) :
  (forall a, yields R (k a)) -> yields R (bind m k).
Proof.
  intros Hk w c. unfold bind. destruct (m w) as [[a|e] w1]; [apply Hk|discriminate].
Qed.

Lemma yields_bind_with {A C} (Q : A -> Prop) (R : C -> Prop) (m : M S A) (k : A -> M S C) :
  yields Q m -> (forall a, Q a -> yields R (k a)) -> yields R (bind m k).
Proof.
  intros Hm Hk w c. unfold bind. specialize (Hm w).
  destruct (m w) as [[a|e] w1]; [|discriminate].
  apply Hk, Hm. reflexivity.
Qed.

Lemma yields_weaken {A} (Q R : A -> Prop) (m : M S A) :
  (forall a, Q a -> R a) -> yields Q m -> yields R m.
Proof. intros H Hm w a Ha. apply H, (Hm w a Ha). Qed.

End ProgramFacts.

Create HintDb emits.
Create HintDb total.
#[local] Hint Resolve emits_ret emits_raise emits_read emits_prim emits_bind
  emits_catch emits_attempt emits_or_else : emits.
#[local] Hint Resolve total_ret total_read total_note total_bind total_catch
  total_attempt total_first_success total_or_else : total.

Ltac total_step :=
  first
    [ progress intros
    | apply total_ret | apply total_read | apply total_note
    | apply total_attempt | apply total_first_success | apply total_or_else
    | apply total_catch | apply total_bind
    | match goal with
      | |- total (if ?b then _ else _) => destruct b
      | |- total (match ?e with TimeoutError => _ | OtherError => _ end) => destruct e
      end ].

Ltac always_step :=
  first
    [ progress intros
    | apply always_ret
    | apply always_bind; [solve [auto with total]|]
    | match goal with
      | |- always _ (if ?b then _ else _) => destruct b
      | |- always _ (match ?e with TimeoutError => _ | OtherError => _ end) => destruct e
      | |- always _ (match ?o with Some _ => _ | None => _ end) => destruct o
      end ].

(** ** The drivers never raise, and answer as documented *)

Section DriverFacts.
Context {S : Type} (B : browser S).

Lemma safe_click_total l dry_run : total (safe_click B l dry_run).
Proof. apply total_attempt. Qed.

Lemma click_delete_post_total dry_run : total (click_delete_post B dry_run).
Proof. unfold click_delete_post. repeat total_step. Qed.

Lemma click_confirmation_total dry_run : total (click_confirmation B dry_run).
Proof. apply total_first_success. Qed.

Lemma delete_post_container_total dry_run : total (delete_post_container B dry_run).
Proof.
  unfold delete_post_container.
  apply total_bind; [apply click_delete_post_total|].
  intros [|]; [|apply total_ret].
  apply total_bind; [apply click_confirmation_total|]. intros c. apply total_ret.
Qed.

Lemma image_step1_total dry_run : total (image_step1 B dry_run).
Proof. apply total_attempt. Qed.

Lemma image_cancel_total : total (image_cancel B).
Proof. unfold image_cancel. repeat total_step. Qed.

Lemma image_confirm_total dry_run : total (image_confirm B dry_run).
Proof. apply total_attempt. Qed.

Lemma count_album_images_total : total (count_album_images B).
Proof. apply total_attempt. Qed.

Lemma open_menu_total dry_run : total (open_menu B dry_run).
Proof. unfold open_menu. repeat total_step. Qed.

Lemma click_delete_image_total dry_run : total (click_delete_image B dry_run).
Proof. unfold click_delete_image. repeat total_step. Qed.

Lemma click_delete_from_account_total dry_run :
  total (click_delete_from_account B dry_run).
Proof. unfold click_delete_from_account. repeat total_step. Qed.

Lemma confirm_deletion_total dry_run : total (confirm_deletion B dry_run).
Proof. unfold confirm_deletion. repeat total_step. Qed.

Lemma check_unconfirmed_total url : total (check_unconfirmed B url).
Proof. unfold check_unconfirmed, current_url. repeat total_step. Qed.

Hint Resolve safe_click_total click_delete_post_total click_confirmation_total
  delete_post_container_total image_step1_total image_cancel_total
  image_confirm_total count_album_images_total open_menu_total
  click_delete_image_total click_delete_from_account_total
  confirm_deletion_total check_unconfirmed_total : total.

Lemma delete_image_documented dry_run :
  always documented_outcome (delete_image B dry_run).
Proof.
  unfold delete_image, documented_outcome. repeat always_step; auto.
Qed.

Lemma delete_album_zero dry_run :
  always (fun o => o = (true, 0) \/ o = (false, 0)) (delete_album B dry_run).
Proof. unfold delete_album. repeat always_step; auto. Qed.

(** What [revisit] decides, when it decides, is a documented outcome. *)
Lemma revisit_documented url :
  always (fun f => match f with Some o => documented_outcome o | None => True end)
         (revisit B url).
Proof.
  unfold revisit, documented_outcome. apply always_catch.
  - apply yields_bind; intros _. apply yields_bind; intros c.
    destruct (not_found_text (Py.lower c)); [apply yields_ret; auto|].
    apply yields_bind; intros u.
    destruct (Py.contains url u); apply yields_ret; auto.
  - intros [|]; apply always_ret; auto.
Qed.

Lemma verify_documented url confirmed deleted :
  always documented_outcome (verify B url confirmed deleted).
Proof.
  unfold verify.
  apply always_bind; [destruct (negb confirmed); auto with total|].
  intros [|]; [apply always_ret; unfold documented_outcome; auto|].
  eapply always_bind_with
    with (Q := fun f => match f with Some o => documented_outcome o | None => True end).
  - destruct (confirmed || deleted); [apply revisit_documented|apply always_ret; exact I].
  - intros [o|] Ho; [apply always_ret, Ho|].
    destruct (confirmed || deleted); apply always_ret; unfold documented_outcome; auto.
Qed.

Lemma finish_documented url dry_run deleted :
  always documented_outcome (finish B url dry_run deleted).
Proof.
  unfold finish. destruct (negb deleted).
  - apply always_ret. unfold documented_outcome; auto.
  - apply always_bind; [auto with total|]. intros c. apply verify_documented.
Qed.

Lemma delete_other_documented url dry_run :
  always documented_outcome (delete_other B url dry_run).
Proof.
  unfold delete_other.
  apply always_bind; [auto with total|]. intros [|].
  - apply always_bind; [auto with total|]. intros [|]; cbn [negb].
    + apply always_bind; [auto with total|]. intros d. apply finish_documented.
    + apply always_ret. unfold documented_outcome; auto.
  - apply always_ret. unfold documented_outcome; auto.
Qed.

(** Once the navigation to the post has returned, [delete_one] returns,
    and with a documented outcome. *)
Lemma delete_one_documented href dry_run :
  yields documented_outcome (delete_one B href dry_run).
Proof.
  unfold delete_one. apply yields_bind. intros _.
  destruct (classify href); apply always_yields.
  - apply delete_image_documented.
  - eapply always_weaken; [|apply delete_album_zero].
    unfold documented_outcome. tauto.
  - apply delete_other_documented.
Qed.

End DriverFacts.

(** ** The album driver *)

(** C2: for an href classified Album, whatever number of images the
    page shows, [delete_one] returns [(true, 0)] when the album driver
    [delete_post_container] reports success and [(false, 0)] when it
    reports failure; no album deletion returns a nonzero count. *)
Theorem album_deletion_deletes_no_image {S} (B : browser S)
    (href : string) (dry_run : bool) (w : world S) :
  classify href = Album ->
  (forall o, fst (delete_one B href dry_run w) = Ok o -> o = (true, 0) \/ o = (false, 0))
  /\ (forall w1, safe_goto B ("https://imgur.com" +:+ href) w = (Ok tt, w1) ->
      exists (image_count : option nat) (w2 : world S) (reported : bool),
        count_album_images B w1 = (Ok image_count, w2)
        /\ fst (delete_post_container B dry_run w2) = Ok reported
        /\ fst (delete_one B href dry_run w) = Ok (reported, 0)).
Proof.
  intros Hk. split.
  - intros o. unfold delete_one, bind. rewrite Hk.
    destruct (safe_goto B _ w) as [[[]|e] w1]; [|discriminate].
    intros Ho. destruct (delete_album_zero B dry_run w1) as (o' & Ho' & Hr).
    pose proof (eq_trans (eq_sym Ho) Ho') as E. injection E as ->. exact Hr.
  - intros w1 Hgo. unfold delete_one, bind. rewrite Hgo, Hk.
    unfold delete_album, bind.
    destruct (count_album_images_total B w1) as [c Hc].
    destruct (count_album_images B w1) as [[c'|e] w2] eqn:Ec; [|discriminate].
    destruct (delete_post_container_total B dry_run w2) as [b Hb].
    destruct (delete_post_container B dry_run w2) as [[b'|e] w3] eqn:Ed; [|discriminate].
    cbn [fst] in Hb. injection Hb as ->.
    exists c', w2, b. rewrite Ed. split; [reflexivity|]. split; [reflexivity|].
    destruct b; reflexivity.
Qed.

Lemma album_deletion_deletes_no_image_witness :
  classify "/gallery/2" = Album
  /\ exists reported,
       fst (delete_one (Scripted.engine (Scripted.plain [])) "/gallery/2" false Scripted.start)
       = Ok (reported, 0).
Proof.
  split; [reflexivity|].
  destruct (proj2 (album_deletion_deletes_no_image
                     (Scripted.engine (Scripted.plain [])) "/gallery/2" false
                     Scripted.start eq_refl)
                  {| page := "https://imgur.com/gallery/2";
                     trace := [Goto "https://imgur.com/gallery/2"] |}
                  eq_refl)
    as (c & w2 & b & _ & _ & Ho).
  exists b. exact Ho.
Defined.

(** ** What the drivers click *)

Section ClickFacts.
Context {S : Type} (B : browser S).
Implicit Types (E : event -> Prop).

Lemma emits_visible E l : emits E (visible B l).
Proof. apply emits_prim. Qed.

Lemma emits_do_click E l : E (Click l) -> emits E (do_click B l).
Proof. apply emits_act. Qed.

Lemma emits_navigate E url : E (Goto url) -> emits E (navigate B url).
Proof. apply emits_act. Qed.

Lemma emits_safe_goto E url : E (Goto url) -> emits E (safe_goto B url).
Proof.
  intros H. apply emits_catch; [apply emits_navigate, H|].
  intros [|]; [apply emits_navigate, H|apply emits_raise].
Qed.

(** A [safe_click] clicks in live mode only. *)
Lemma emits_safe_click E l dry_run :
  (dry_run = false -> E (Click l)) -> emits E (safe_click B l dry_run).
Proof.
  intros H. apply emits_attempt, emits_bind; [apply emits_visible|].
  intros [|]; [|apply emits_ret].
  destruct dry_run; [apply emits_ret|].
  apply emits_bind; [apply emits_do_click; auto|intros _; apply emits_ret].
Qed.

Lemma emits_click_if_visible E l : E (Click l) -> emits E (click_if_visible B l).
Proof.
  intros H. apply emits_bind; [apply emits_visible|].
  intros [|]; [|apply emits_ret].
  apply emits_bind; [apply emits_do_click, H|intros _; apply emits_ret].
Qed.

Lemma emits_first_safe_click E {A} (loc : A -> locator) (l : list A) dry_run :
  (dry_run = false -> Forall (fun a => E (Click (loc a))) l) ->
  emits E (first_success (fun a => safe_click B (loc a) dry_run) l).
Proof.
  intros H. apply emits_first_success.
  destruct dry_run.
  - apply List.Forall_forall. intros a _. apply emits_safe_click. discriminate.
  - eapply List.Forall_impl; [|exact (H eq_refl)].
    intros a Ha. apply emits_safe_click. intros _. exact Ha.
Qed.

(** In dry-run the album driver touches nothing. *)
Lemma emits_delete_post_container_dry E : emits E (delete_post_container B true).
Proof.
  unfold delete_post_container, click_delete_post, click_confirmation.
  apply emits_bind.
  - apply emits_bind; [apply emits_first_safe_click; discriminate|].
    intros c. apply emits_or_else, emits_safe_click. discriminate.
  - intros [|]; [|apply emits_ret].
    apply emits_bind; [|intros c; apply emits_ret].
    apply (emits_first_safe_click E (fun l => l)). discriminate.
Qed.

Lemma emits_delete_album_dry E : emits E (delete_album B true).
Proof.
  unfold delete_album, count_album_images.
  apply emits_bind.
  - apply emits_attempt, emits_bind; [apply emits_prim|intros n; apply emits_ret].
  - intros _. apply emits_bind; [apply emits_delete_post_container_dry|].
    intros [|]; apply emits_ret.
Qed.

(** In dry-run the image driver clicks its "Delete image" button and
    cancel controls. *)
Lemma emits_delete_image_dry E :
  E (Click delete_image_button) ->
  Forall (fun l => E (Click l)) cancel_controls ->
  emits E (delete_image B true).
Proof.
  intros Hd Hc. unfold delete_image. apply emits_bind.
  - unfold image_step1. apply emits_attempt, emits_bind; [apply emits_visible|].
    intros [|]; cbn [negb]; [|apply emits_ret].
    apply emits_attempt, emits_bind; [apply emits_do_click, Hd|intros _; apply emits_ret].
  - intros [|]; cbn [negb]; [|apply emits_ret].
    apply emits_bind; [|intros _; apply emits_ret].
    unfold image_cancel, cancel_controls in *.
    apply Forall_app in Hc as [Hc1 Hc2].
    apply emits_bind.
    + apply emits_first_success. apply List.Forall_forall. intros sel Hsel.
      apply emits_click_if_visible.
      rewrite List.Forall_forall in Hc1. apply Hc1, in_map, Hsel.
    + intros c. apply emits_or_else, emits_click_if_visible.
      inversion Hc2; assumption.
Qed.

Lemma emits_revisit E url : E (Goto url) -> emits E (revisit B url).
Proof.
  intros H. unfold revisit. apply emits_catch.
  - apply emits_bind; [apply emits_navigate, H|]. intros _.
    apply emits_bind; [apply emits_prim|]. intros c.
    destruct (not_found_text (Py.lower c)); [apply emits_ret|].
    apply emits_bind; [apply emits_read|]. intros u.
    destruct (Py.contains url u); apply emits_ret.
  - intros [|]; apply emits_ret.
Qed.

Lemma emits_verify E url confirmed deleted :
  E (Goto url) -> emits E (verify B url confirmed deleted).
Proof.
  intros H. unfold verify. apply emits_bind.
  - destruct (negb confirmed); [|apply emits_ret].
    unfold check_unconfirmed.
    apply emits_bind; [apply emits_read|]. intros cur.
    apply emits_bind.
    + apply emits_attempt, emits_bind; [apply emits_prim|intros c; apply emits_ret].
    + intros [|]; [apply emits_ret|].
      destruct (negb (Py.contains url cur)); [|apply emits_ret].
      apply emits_attempt, emits_bind; [apply emits_prim|]. intros _.
      apply emits_bind; [apply emits_prim|intros c; apply emits_ret].
  - intros [|]; [apply emits_ret|].
    apply emits_bind.
    + destruct (confirmed || deleted); [apply emits_revisit, H|apply emits_ret].
    + intros [o|]; [apply emits_ret|].
      destruct (confirmed || deleted); apply emits_ret.
Qed.

(** In dry-run the menu driver clicks nothing; it only goes back to the
    post's URL. *)
Lemma emits_delete_other_dry E url : E (Goto url) -> emits E (delete_other B url true).
Proof.
  intros H. unfold delete_other.
  apply emits_bind.
  - unfold open_menu. apply emits_bind; [apply emits_first_safe_click; discriminate|].
    intros c. apply emits_or_else. unfold scan_buttons.
    apply emits_bind; [apply emits_prim|]. intros n.
    apply emits_first_success, List.Forall_forall. intros i _.
    apply emits_bind; [apply emits_prim|]. intros a.
    match goal with |- emits _ (if ?b then _ else _) => destruct b end;
      [apply emits_safe_click; discriminate|apply emits_ret].
  - intros [|]; [|apply emits_ret].
    apply emits_bind.
    + unfold click_delete_image.
      apply emits_bind; [apply emits_first_safe_click; discriminate|].
      intros c. apply emits_or_else, emits_safe_click. discriminate.
    + intros [|]; cbn [negb]; [|apply emits_ret].
      apply emits_bind.
      * unfold click_delete_from_account.
        apply emits_bind; [apply emits_first_safe_click; discriminate|].
        intros c. apply emits_or_else, emits_safe_click. discriminate.
      * intros d. unfold finish. destruct (negb d); [apply emits_ret|].
        apply emits_bind; [|intros c; apply emits_verify, H].
        unfold confirm_deletion.
        apply emits_bind; [apply emits_first_safe_click; discriminate|].
        intros [|]; [apply emits_ret|].
        apply (emits_first_safe_click E (fun label => Role "button" (NameRe label))).
        discriminate.
Qed.

End ClickFacts.

(** ** Dry run *)

Lemma locator_eqb_eq a b : locator_eqb a b = true -> a = b.
Proof.
  destruct a as [s|r [n|n]|s i], b as [t|r' [n'|n']|t j]; cbn; try discriminate.
  - intros H. apply String.eqb_eq in H. congruence.
  - intros H. apply andb_prop in H as [H1 H2].
    apply String.eqb_eq in H1, H2. congruence.
  - intros H. apply andb_prop in H as [H1 H2].
    apply String.eqb_eq in H1, H2. congruence.
  - intros H. apply andb_prop in H as [H1 H2].
    apply String.eqb_eq in H1. apply Nat.eqb_eq in H2. congruence.
Qed.

Lemma among_In ls l : among ls l = true -> In l ls.
Proof.
  unfold among. intros H. apply existsb_exists in H as (l' & Hin & Heq).
  apply locator_eqb_eq in Heq. subst. exact Hin.
Qed.

(** No control a dry run may click is a confirmation control. *)
Lemma dry_run_allowed_not_confirmation l :
  dry_run_allowed (Click l) = true -> among confirmation_controls l = false.
Proof.
  cbn [dry_run_allowed]. intros H. apply orb_prop in H as [H|H].
  - apply locator_eqb_eq in H. subst. reflexivity.
  - apply among_In in H. cbv [cancel_controls Sel.cancel_selectors map app] in H.
    repeat (destruct H as [<-|H]; [vm_compute; reflexivity|]). destruct H.
Qed.

Lemma clicks_app tr1 tr2 : clicks (tr1 ++ tr2) = (clicks tr1 ++ clicks tr2)%list.
Proof. unfold clicks. apply flat_map_app. Qed.

Lemma clicks_of_gotos tr : Forall is_goto tr -> clicks tr = [].
Proof.
  induction 1 as [|e tr [u ->] _ IH]; [reflexivity|exact IH].
Qed.

Lemma clicks_allowed tr :
  Forall (fun e => dry_run_allowed e = true) tr ->
  Forall (fun l => among confirmation_controls l = false) (clicks tr).
Proof.
  induction 1 as [|e tr He _ IH]; [constructor|].
  destruct e; try exact IH.
  change (clicks (Click l :: tr)) with (l :: clicks tr).
  constructor; [apply dry_run_allowed_not_confirmation, He|exact IH].
Qed.

Section DryRun.
Context {S : Type} (B : browser S).

Lemma delete_one_dry_emits_allowed href :
  emits (fun e => dry_run_allowed e = true) (delete_one B href true).
Proof.
  unfold delete_one. apply emits_bind; [apply emits_safe_goto; reflexivity|].
  intros _. destruct (classify href).
  - apply emits_delete_image_dry; [reflexivity|].
    repeat constructor.
  - apply emits_delete_album_dry.
  - apply emits_delete_other_dry. reflexivity.
Qed.

Lemma delete_one_dry_not_image_emits_goto href :
  classify href <> Image -> emits is_goto (delete_one B href true).
Proof.
  intros Hk. unfold delete_one.
  apply emits_bind; [apply emits_safe_goto; eexists; reflexivity|].
  intros _. destruct (classify href); [congruence| |].
  - apply emits_delete_album_dry.
  - apply emits_delete_other_dry. eexists; reflexivity.
Qed.

End DryRun.

(** C4, as stated, fails twice. On a page with the usual controls the
    dry run of the image driver really clicks "Delete image", which is
    no cancel control; and on a page where every control is found the
    dry run of the menu driver reports [(false, 0)]: its final visit
    finds the post still there. *)
Lemma dry_run_clicks_delete_image_and_menu_driver_fails :
  clicks (trace (snd (delete_one (Scripted.engine (Scripted.plain [])) "/IMAGE01" true
                        Scripted.start)))
    = [ Role "button" (Name "Delete image"); Css (Sel.has_text "button" "Cancel") ]
  /\ ~ dry_run_as_specified (Scripted.engine (Scripted.plain [])) "/IMAGE01" "about:blank"
  /\ fst (delete_one (Scripted.engine (Scripted.site (fun _ => true) [])) "/post/abc" true
            Scripted.start) = Ok (false, 0)
  /\ ~ dry_run_as_specified (Scripted.engine (Scripted.site (fun _ => true) []))
         "/post/abc" "about:blank".
Proof.
  split; [vm_compute; reflexivity|]. split.
  - intros (_ & H & _). vm_compute in H.
    inversion H as [|? ? Hd _]. discriminate Hd.
  - split; [vm_compute; reflexivity|].
    intros (_ & _ & n & H). vm_compute in H. discriminate H.
Qed.

(** C4, amended: in a dry run of [delete_one] no confirmation control
    is ever clicked, whatever the page does. The only clicks are the
    image driver's click on its "Delete image" button, which opens the
    dialog, and clicks on cancel controls; the album and the menu
    drivers click nothing at all. The image driver reports [(true, 1)]
    as soon as that first click went through, and the album driver
    reports success as soon as a "Delete post" control was visible. *)
Theorem dry_run_clicks_no_confirmation {S} (B : browser S) (href : string) (w : world S) :
  (exists new,
      trace (snd (delete_one B href true w)) = (trace w ++ new)%list
      /\ Forall (fun e => dry_run_allowed e = true) new
      /\ Forall (fun l => among confirmation_controls l = false) (clicks new)
      /\ (classify href <> Image -> clicks new = []))
  /\ (forall w1, image_step1 B true w = (Ok true, w1) ->
        fst (delete_image B true w) = Ok (true, 1))
  /\ (forall w1, click_delete_post B true w = (Ok true, w1) ->
        fst (delete_post_container B true w) = Ok true).
Proof.
  split; [|split].
  - destruct (delete_one_dry_emits_allowed B href w) as (new & Hn & Hall).
    exists new. split; [exact Hn|]. split; [exact Hall|].
    split; [apply clicks_allowed, Hall|].
    intros Hk. destruct (delete_one_dry_not_image_emits_goto B href Hk w) as (new' & Hn' & Hg).
    rewrite Hn in Hn'. apply app_inv_head in Hn'. subst new'.
    apply clicks_of_gotos, Hg.
  - intros w1 H1. unfold delete_image, bind. rewrite H1. cbn [negb].
    destruct (image_cancel_total B w1) as [c Hc].
    destruct (image_cancel B w1) as [[c'|e] w2]; [reflexivity|discriminate].
  - intros w1 H1. unfold delete_post_container, bind. rewrite H1.
    destruct (click_confirmation_total B true w1) as [c Hc].
    destruct (click_confirmation B true w1) as [[c'|e] w2]; [|discriminate].
    cbn. rewrite orb_true_r. reflexivity.
Qed.

Lemma dry_run_clicks_no_confirmation_witness :
  classify "/a/1" <> Image
  /\ clicks (trace (snd (delete_one (Scripted.engine (Scripted.plain [])) "/a/1" true
                           Scripted.start))) = []
  /\ fst (delete_post_container (Scripted.engine (Scripted.plain [])) true Scripted.start)
     = Ok true.
Proof.
  assert (classify "/a/1" <> Image) as Hk by discriminate.
  split; [exact Hk|].
  destruct (dry_run_clicks_no_confirmation (Scripted.engine (Scripted.plain [])) "/a/1"
              Scripted.start) as ((new & Hn & _ & _ & Hc) & _ & Ha).
  split.
  - rewrite Hn. cbn [Scripted.start trace app]. exact (Hc Hk).
  - exact (Ha Scripted.start eq_refl).
Defined.

(** ** The album driver's report *)

Section AlbumReport.
Context {S : Type} (B : browser S).

Lemma attempt_true (m : M S bool) (w w' : world S) :
  attempt m false w = (Ok true, w') -> m w = (Ok true, w').
Proof.
  unfold attempt, catch, ret. destruct (m w) as [[b|e] w1]; congruence.
Qed.

(** A [safe_click] that answers [True] in live mode has just clicked. *)
Lemma safe_click_live_true l (w w' : world S) :
  safe_click B l false w = (Ok true, w') ->
  trace w' = (trace w ++ [Click l])%list.
Proof.
  intros H. apply attempt_true in H. revert H.
  unfold bind, visible, prim, do_click, act, ret.
  destruct (is_visible B l (page w)) as [[[|]|e] p]; cbn [page trace]; try discriminate.
  destruct (click B l p) as [[[]|e] p2]; [|discriminate].
  intros [= <-]. reflexivity.
Qed.

(** [first_success] answers [True] on the first element that does. *)
Lemma first_success_true {A} (f : A -> M S bool) (l : list A) (w w' : world S) :
  (forall a, emits (fun _ => True) (f a)) ->
  first_success f l w = (Ok true, w') ->
  exists a w0 pre, In a l /\ trace w0 = (trace w ++ pre)%list /\ f a w0 = (Ok true, w').
Proof.
  intros Hf. revert w. induction l as [|a l IH]; intros w; cbn [first_success].
  - discriminate.
  - unfold bind at 1.
    destruct (attempt (f a) false w) as [[[|]|e] w1] eqn:Ea; try discriminate.
    + intros [= <-]. exists a, w, []. split; [left; reflexivity|].
      split; [symmetry; apply app_nil_r|apply attempt_true, Ea].
    + intros H. destruct (IH _ H) as (a' & w0 & pre & Hin & Htr & Hok).
      pose proof (emits_attempt (fun _ => True) (f a) false (Hf a) w) as (n1 & Hn1 & _).
      rewrite Ea in Hn1. cbn [snd] in Hn1.
      exists a', w0, (n1 ++ pre)%list. split; [right; exact Hin|].
      split; [|exact Hok]. rewrite Htr, Hn1, app_assoc. reflexivity.
Qed.

Lemma click_delete_post_live_true (w w' : world S) :
  click_delete_post B false w = (Ok true, w') ->
  exists l pre, In l delete_post_controls
                /\ trace w' = (trace w ++ pre ++ [Click l])%list.
Proof.
  unfold click_delete_post, bind at 1.
  destruct (first_success _ Sel.delete_post_selectors w) as [[[|]|e] w1] eqn:E1;
    try discriminate.
  - cbn [or_else]. intros [= <-].
    apply first_success_true in E1 as (sel & w0 & pre & Hin & Htr & Hok).
    + apply safe_click_live_true in Hok.
      exists (Css sel), pre. split.
      * unfold delete_post_controls. apply in_or_app. left. apply in_map, Hin.
      * rewrite Hok, Htr, app_assoc. reflexivity.
    + intros sel. apply emits_safe_click. auto.
  - cbn [or_else]. intros H. apply attempt_true in H.
    pose proof (emits_first_safe_click B (fun _ => True) Css Sel.delete_post_selectors false)
      as Hem.
    destruct (Hem ltac:(intros _; apply List.Forall_forall; auto) w) as (pre & Hpre & _).
    rewrite E1 in Hpre. cbn [snd] in Hpre.
    apply safe_click_live_true in H.
    exists (Role "button" (NameRe "Delete post")), pre. split.
    + unfold delete_post_controls. apply in_or_app. right. left. reflexivity.
    + rewrite H, Hpre, app_assoc. reflexivity.
Qed.

End AlbumReport.

(** C7, as stated, fails: on a page that shows the "Delete post" button
    and no confirmation button at all, the live album driver clicks the
    former, nothing else, and reports success. *)
Lemma album_success_without_confirmation :
  let B := Scripted.engine
             (Scripted.site (among [Css (Sel.has_text "button" "Delete post")]) []) in
  let r := delete_one B "/a/1" false Scripted.start in
  fst r = Ok (true, 0)
  /\ clicks (trace (snd r)) = [Css (Sel.has_text "button" "Delete post")]
  /\ Forall (fun l => among Sel.confirmation_selectors l = false) (clicks (trace (snd r)))
  /\ fst (click_confirmation B false (snd (click_delete_post B false Scripted.start)))
     = Ok false.
Proof. vm_compute. repeat split; repeat constructor. Qed.

(** The confirmation stage asks for the button of role [button] whose
    name is "button" before anything else (see [Sel.confirmation_selectors]):
    on a page that shows such a button beside "Delete Post Only", the live
    driver clicks it and tries no other locator. *)
Example confirmation_stage_asks_for_button_first :
  let shown := [ Css (Sel.has_text "button" "Delete post");
                 Role "button" (Name "button");
                 Css (Sel.has_text "button" "Delete Post Only") ] in
  let r := delete_post_container (Scripted.engine (Scripted.site (among shown) []))
             false Scripted.start in
  fst r = Ok true
  /\ clicks (trace (snd r)) = [ Css (Sel.has_text "button" "Delete post");
                                Role "button" (Name "button") ].
Proof. vm_compute. split; reflexivity. Qed.

(** C7, amended: the album driver reports exactly what its first stage
    reports: success when a "Delete post" control was located and, in
    live mode, clicked; failure otherwise. A confirmation stage runs
    after that first click: it is the whole of what the driver does
    next, in live mode it clicks nothing but locators of
    [Sel.confirmation_selectors] and in dry-run nothing at all, and
    whether it located a button does not change the report. *)
Theorem delete_post_container_reports_first_click {S} (B : browser S)
    (dry_run : bool) (w : world S) :
  fst (delete_post_container B dry_run w) = fst (click_delete_post B dry_run w)
  /\ (forall w1, click_delete_post B dry_run w = (Ok true, w1) ->
        snd (delete_post_container B dry_run w) = snd (click_confirmation B dry_run w1))
  /\ (forall w', dry_run = false -> delete_post_container B dry_run w = (Ok true, w') ->
        exists l pre post, In l delete_post_controls
          /\ trace w' = (trace w ++ pre ++ Click l :: post)%list)
  /\ (forall w1,
        extends (fun e => dry_run = false
                          /\ exists l, e = Click l /\ In l Sel.confirmation_selectors)
                w1 (snd (click_confirmation B dry_run w1)))
  /\ (forall w1 c, fst (click_confirmation B dry_run w1) = Ok c ->
        click_delete_post B dry_run w = (Ok true, w1) ->
        fst (delete_post_container B dry_run w) = Ok true).
Proof.
  split; [|split; [|split; [|split]]].
  - unfold delete_post_container, bind.
    destruct (click_delete_post B dry_run w) as [[[|]|e] w1]; try reflexivity.
    destruct (click_confirmation_total B dry_run w1) as [c Hc].
    destruct (click_confirmation B dry_run w1) as [[c'|e] w2]; [|discriminate].
    cbn. rewrite orb_true_r. reflexivity.
  - intros w1 H1. unfold delete_post_container, bind. rewrite H1.
    destruct (click_confirmation_total B dry_run w1) as [c Hc].
    destruct (click_confirmation B dry_run w1) as [[c'|e] w2]; [reflexivity|discriminate].
  - intros w' -> H. revert H. unfold delete_post_container, bind.
    destruct (click_delete_post B false w) as [[[|]|e] w1] eqn:E1; try discriminate.
    pose proof (emits_first_safe_click B (fun _ => True) (fun l => l)
                  Sel.confirmation_selectors false) as Hem.
    destruct (Hem ltac:(intros _; apply List.Forall_forall; auto) w1) as (post & Hpost & _).
    fold (click_confirmation B false) in Hpost.
    destruct (click_confirmation B false w1) as [[c|e] w2]; [|discriminate].
    intros [= _ <-]. cbn [snd] in Hpost.
    apply click_delete_post_live_true in E1 as (l & pre & Hin & Htr).
    exists l, pre, post. split; [exact Hin|].
    rewrite Hpost, Htr, <- !app_assoc. reflexivity.
  - intros w1. unfold click_confirmation.
    apply (emits_first_safe_click B _ (fun l => l)).
    intros ->. apply List.Forall_forall. intros l Hl.
    split; [reflexivity|]. exists l. split; [reflexivity|exact Hl].
  - intros w1 c Hc H1. unfold delete_post_container, bind. rewrite H1.
    destruct (click_confirmation B dry_run w1) as [[c'|e] w2]; [|discriminate].
    cbn. rewrite orb_true_r. reflexivity.
Qed.

Lemma delete_post_container_reports_first_click_witness :
  (exists l pre post,
    In l delete_post_controls
    /\ trace (snd (delete_post_container (Scripted.engine (Scripted.plain [])) false
                     Scripted.start))
       = ([] ++ pre ++ Click l :: post)%list)
  /\ fst (delete_post_container
            (Scripted.engine
               (Scripted.site (among [Css (Sel.has_text "button" "Delete post")]) []))
            false Scripted.start) = Ok true.
Proof.
  split.
  - destruct (delete_post_container_reports_first_click
                (Scripted.engine (Scripted.plain [])) false Scripted.start)
      as (_ & _ & H & _).
    exact (H _ eq_refl eq_refl).
  - destruct (delete_post_container_reports_first_click
                (Scripted.engine
                   (Scripted.site (among [Css (Sel.has_text "button" "Delete post")]) []))
                false Scripted.start)
      as (_ & _ & _ & _ & H).
    exact (H _ false eq_refl eq_refl).
Defined.

(** ** The verification stage *)

Ltac answers_true :=
  exists (true, 1);
  split; [eassumption|];
  split; [left; reflexivity|];
  split; [intros; reflexivity|];
  split; [intros; reflexivity|];
  split; [discriminate|].

Ltac refute_revisit :=
  intros (_ & ? & ? & ? & ? & ? & ? & ?); congruence.

(** C8, as stated, fails in both directions. With the URL diverged from
    the post's but the wait for the new page timing out, the stage goes
    back to the post, finds it there and answers [(false, 0)]; with no
    signal at all but a failing navigation back, it answers [(true, 1)]. *)
Lemma verify_signal_ignored_and_success_without_signal :
  let url := "https://imgur.com/post/abc" in
  (Py.contains url "https://imgur.com/" = false
   /\ fst (verify (Scripted.engine Scripted.stalled) url false true
             {| page := "https://imgur.com/"; trace := [] |}) = Ok (false, 0))
  /\ (removal_text (Py.lower "<html>a post</html>") = false
      /\ not_found_text (Py.lower "<html>a post</html>") = false
      /\ Py.contains url url = true
      /\ fst (verify (Scripted.engine Scripted.unreachable) url false true
                {| page := url; trace := [] |}) = Ok (true, 1)).
Proof. vm_compute. repeat split. Qed.

(** C8, amended: entered after a delete action ([deleted] true), the
    stage always answers, with [(true, 1)] or [(false, 0)]. When the
    action was not confirmed, removal text in the page yields
    [(true, 1)], and so does a diverged URL once the new page has
    loaded and shows no "404". In every case the stage then goes back to
    the post's URL, and it answers [(false, 0)] exactly when that
    navigation succeeds, the page read shows no not-found text and the
    URL still contains the post's; a not-found text, a failed or timed
    out navigation, an unreadable page or another URL all yield
    [(true, 1)]. *)
Theorem verify_outcome {S} (B : browser S) (url : string) (confirmed : bool) (w : world S) :
  let early := (if negb confirmed then check_unconfirmed B url else ret false) w in
  exists o,
    fst (verify B url confirmed true w) = Ok o
    /\ (o = (true, 1) \/ o = (false, 0))
    /\ (confirmed = false ->
        forall c p, content B (page w) = (Ok c, p) ->
                    removal_text (Py.lower c) = true -> o = (true, 1))
    /\ (confirmed = false ->
        forall r p1 p2 c p3,
          content B (page w) = (r, p1) ->
          Py.contains url (page_url B (page w)) = false ->
          wait_for_load_state B p1 = (Ok tt, p2) ->
          content B p2 = (Ok c, p3) ->
          Py.contains "404" (Py.lower c) = false -> o = (true, 1))
    /\ (o = (false, 0) <->
        fst early = Ok false
        /\ exists p2 c p3,
            goto B url (page (snd early)) = (Ok tt, p2)
            /\ content B p2 = (Ok c, p3)
            /\ not_found_text (Py.lower c) = false
            /\ Py.contains url (page_url B p3) = true).
Proof.
  intros early.
  assert (exists b, fst early = Ok b) as [b Hb].
  { subst early. destruct (negb confirmed);
      [apply check_unconfirmed_total|eexists; reflexivity]. }
  assert (fst (verify B url confirmed true w)
          = if b then Ok (true, 1)
            else match fst (revisit B url (snd early)) with
                 | Ok (Some o) => Ok o
                 | Ok None => Ok (true, 1)
                 | Raise e => Raise e
                 end) as Hv.
  { unfold verify, bind. fold early. destruct early as [[b'|e] w1]; [|discriminate].
    cbn [fst snd] in *. injection Hb as ->. destruct b; [reflexivity|].
    rewrite orb_true_r. destruct (revisit B url w1) as [[[o|]|e] w2]; reflexivity. }
  assert (fst (revisit B url (snd early))
          = match goto B url (page (snd early)) with
            | (Ok _, p2) =>
                match content B p2 with
                | (Ok c, p3) =>
                    if not_found_text (Py.lower c) then Ok (Some (true, 1))
                    else if Py.contains url (page_url B p3) then Ok (Some (false, 0))
                    else Ok None
                | (Raise TimeoutError, _) => Ok (Some (true, 1))
                | (Raise OtherError, _) => Ok None
                end
            | (Raise TimeoutError, _) => Ok (Some (true, 1))
            | (Raise OtherError, _) => Ok None
            end) as Hr.
  { unfold revisit, catch, bind, navigate, act, page_content, prim, current_url, read, ret.
    destruct (goto B url (page (snd early))) as [[[]|[|]] p2];
      cbn [page trace fst snd]; try reflexivity.
    destruct (content B p2) as [[c|[|]] p3]; cbn [page trace fst snd]; try reflexivity.
    destruct (not_found_text (Py.lower c)); cbn [page trace fst snd]; [reflexivity|].
    destruct (Py.contains url (page_url B p3)); reflexivity. }
  assert (confirmed = false ->
          forall c p, content B (page w) = (Ok c, p) ->
                      removal_text (Py.lower c) = true -> b = true) as Ha.
  { intros -> c p Hc Hrem. subst early. cbn [negb] in Hb. revert Hb.
    unfold check_unconfirmed, bind, current_url, read, attempt, catch, page_content,
      prim, ret.
    rewrite Hc. cbn [page]. rewrite Hrem. cbn. congruence. }
  assert (confirmed = false ->
          forall r p1 p2 c p3,
            content B (page w) = (r, p1) ->
            Py.contains url (page_url B (page w)) = false ->
            wait_for_load_state B p1 = (Ok tt, p2) ->
            content B p2 = (Ok c, p3) ->
            Py.contains "404" (Py.lower c) = false -> b = true) as Hdiv.
  { intros -> r p1 p2 c p3 Hc Hu Hw Hc2 H404. subst early. cbn [negb] in Hb. revert Hb.
    unfold check_unconfirmed, bind, current_url, read, attempt, catch, page_content,
      prim, ret.
    rewrite Hc. cbn [page]. rewrite Hu. cbn [negb].
    destruct r as [c0|e]; [destruct (removal_text (Py.lower c0))|];
      cbn [page]; rewrite ?Hw; cbn [page]; rewrite ?Hc2; cbn [page];
      rewrite ?H404; cbn; congruence. }
  rewrite Hr in Hv. clear Hr.
  destruct b.
  - answers_true. intros [H _]. congruence.
  - destruct (goto B url (page (snd early))) as [[[]|[|]] p2] eqn:Eg;
      [|answers_true; refute_revisit..].
    destruct (content B p2) as [[c|[|]] p3] eqn:Ec; [|answers_true; refute_revisit..].
    destruct (not_found_text (Py.lower c)) eqn:Enf; [answers_true; refute_revisit|].
    destruct (Py.contains url (page_url B p3)) eqn:Eu; [|answers_true; refute_revisit].
    exists (false, 0). split; [exact Hv|]. split; [auto|].
    split; [intros Hc0 c0 p Hc1 Hrem; discriminate (Ha Hc0 c0 p Hc1 Hrem)|].
    split; [intros Hc0 r p1 q2 c0 q3 H1 H2 H3 H4 H5;
            discriminate (Hdiv Hc0 r p1 q2 c0 q3 H1 H2 H3 H4 H5)|].
    split; [intros _|reflexivity].
    split; [exact Hb|]. exists p2, c, p3. auto.
Qed.

Lemma verify_outcome_witness :
  let url := "https://imgur.com/post/abc" in
  fst (verify (Scripted.engine Scripted.gone) url false true
         {| page := url; trace := [] |}) = Ok (true, 1)
  /\ fst (verify (Scripted.engine (Scripted.plain [])) url false true
            {| page := "https://imgur.com/"; trace := [] |}) = Ok (true, 1)
  /\ fst (verify (Scripted.engine (Scripted.plain [])) url true true
            {| page := url; trace := [] |}) = Ok (false, 0).
Proof.
  intros url. split; [|split].
  - destruct (verify_outcome (Scripted.engine Scripted.gone) url false
                {| page := url; trace := [] |}) as (o & Ho & _ & Ha & _).
    rewrite Ho. f_equal. apply (Ha eq_refl _ url eq_refl). reflexivity.
  - destruct (verify_outcome (Scripted.engine (Scripted.plain [])) url false
                {| page := "https://imgur.com/"; trace := [] |}) as (o & Ho & _ & _ & Hb & _).
    rewrite Ho. f_equal.
    apply (Hb eq_refl _ "https://imgur.com/" "https://imgur.com/" _ "https://imgur.com/"
              eq_refl eq_refl eq_refl eq_refl).
    reflexivity.
  - destruct (verify_outcome (Scripted.engine (Scripted.plain [])) url true
                {| page := url; trace := [] |}) as (o & Ho & _ & _ & _ & Hc).
    rewrite Ho. f_equal. apply Hc. split; [reflexivity|].
    exists url, "<html>a post</html>", url. repeat split; reflexivity.
Defined.

(** ** The orchestration loop *)

Lemma account_documented (p : Z) (o : outcome) :
  documented_outcome o ->
  account p o = p + 1 /\ account p o = p + (if snd o =? 0 then 1 else snd o).
Proof. intros [ -> | [ -> | -> ] ]; split; reflexivity. Qed.

Section LoopFacts.
Context {S : Type} (B : browser S).
Variables (username : string) (dry_run : bool) (cap : Z).

Local Abbreviation links_loop := (process_links B username dry_run cap).
Local Abbreviation while_loop := (main_loop B username dry_run cap).

(** One link, then the rest: what [processed] becomes. *)
Lemma process_links_progress links p :
  yields (fun p' => p <= p'
                    /\ p' <= p + Z.of_nat (List.length links)
                    /\ (links <> [] -> p < p')
                    /\ (p < cap -> p' <= cap))
         (links_loop links p).
Proof.
  revert p. induction links as [|l rest IH]; intros p; cbn [process_links].
  - apply yields_ret. cbn. repeat split; try lia. congruence.
  - eapply yields_bind_with; [apply delete_one_documented|].
    intros o Ho. destruct (account_documented p o Ho) as [Hacc _]. rewrite Hacc.
    apply yields_bind; intros _. apply yields_bind; intros _. apply yields_bind; intros _.
    destruct (p + 1 >=? cap) eqn:Ecap.
    + apply yields_ret. cbn [List.length]. repeat split; lia.
    + eapply yields_weaken; [|apply IH].
      cbn [List.length]. intros p' (H1 & H2 & H3 & H4). repeat split; lia.
Qed.

(** The [break] of the [for] loop: the link that brings [processed] to
    the cap is the last one processed. *)
Lemma process_links_break l rest p (w w1 : world S) p1 :
  links_loop [l] p w = (Ok p1, w1) -> cap <= p1 ->
  links_loop (l :: rest) p w = (Ok p1, w1).
Proof.
  cbn [process_links]. unfold bind.
  destruct (delete_one B (Extractor.href l) dry_run w) as [[o|e] w2]; [|discriminate].
  destruct (note _ w2) as [[[]|e] w3]; [|discriminate].
  destruct (go_to_posts_all B username w3) as [[[]|e] w4]; [|discriminate].
  destruct (scroll_top B w4) as [[[]|e] w5]; [|discriminate].
  destruct (account p o >=? cap) eqn:E; unfold ret; intros [= <- <-] Hcap.
  - reflexivity.
  - lia.
Qed.

Lemma pull_more_decides seen :
  yields (fun r => match r with
                   | (h, None) => h ∈ seen
                   | (h, Some seen') => (h ∉ seen) /\ (seen' = {[h]} ∪ seen)
                   end)
         (pull_more B seen).
Proof.
  unfold pull_more. apply yields_bind; intros h.
  destruct (decide (h ∈ seen)) as [Hin|Hout]; [apply yields_ret, Hin|].
  apply yields_bind; intros _. apply yields_ret. auto.
Qed.

Lemma exit_from_step rs rs' f :
  processed rs <= processed rs' ->
  (processed rs <= cap -> processed rs' <= cap) ->
  seen_heights rs ⊆ seen_heights rs' ->
  exit_from cap rs' f -> exit_from cap rs f.
Proof.
  unfold exit_from. intros H1 H2 H3 (H4 & H5 & H6 & H7).
  repeat split; [lia|auto|set_solver|exact H7].
Qed.

Lemma main_loop_exit fuel rs :
  yields (fun r => match r with Some f => exit_from cap rs f | None => True end)
         (while_loop fuel rs).
Proof.
  revert rs. induction fuel as [|fuel IH]; intros rs; cbn [main_loop].
  - apply yields_ret. exact I.
  - destruct (processed rs <? cap) eqn:Elt; cbn [negb].
    + apply yields_bind. intros [|l links].
      * eapply yields_bind_with; [apply pull_more_decides|].
        intros [h [seen'|]].
        -- intros [Hout ->].
           eapply yields_weaken; [|apply IH].
           intros [f|]; [|auto]. apply exit_from_step; cbn; [lia|lia|set_solver].
        -- intros Hin. apply yields_ret.
           unfold exit_from, exit_condition. cbn. repeat split; try lia; auto.
      * eapply yields_bind_with; [apply process_links_progress|].
        intros p (H1 & H2 & H3 & H4).
        eapply yields_bind_with; [apply pull_more_decides|].
        intros [h [seen'|]].
        -- intros [Hout ->].
           eapply yields_weaken; [|apply IH].
           intros [f|]; [|auto]. apply exit_from_step; cbn; [lia|lia|set_solver].
        -- intros Hin. apply yields_ret.
           unfold exit_from, exit_condition. cbn.
           repeat split; try lia; auto; try congruence.
    + apply yields_ret. unfold exit_from, exit_condition. cbn.
      repeat split; try lia; auto.
Qed.

(** More fuel does not change a run that ended. *)
Lemma main_loop_fuel fuel k rs (w w' : world S) f :
  while_loop fuel rs w = (Ok (Some f), w') ->
  while_loop (fuel + k) rs w = (Ok (Some f), w').
Proof.
  revert rs w. induction fuel as [|fuel IH]; intros rs w; [discriminate|].
  cbn [main_loop Nat.add].
  destruct (negb (processed rs <? cap)); [auto|].
  unfold bind.
  destruct (find_links B w) as [[[|l links]|e] w1]; try discriminate.
  - destruct (pull_more B (seen_heights rs) w1) as [[[h [seen'|]]|e] w2];
      try discriminate; auto.
  - destruct (links_loop (l :: links) (processed rs) w1) as [[p|e] w2];
      try discriminate.
    destruct (pull_more B (seen_heights rs) w2) as [[[h [seen'|]]|e] w3];
      try discriminate; auto.
Qed.

End LoopFacts.

Section RunFacts.
Context {S : Type} (B : browser S).
Variables (username : string) (dry_run : bool) (cap : Z).


Lemma run_fuel fuel k (w w' : world S) f :
  run B username dry_run cap fuel w = (Ok (Some f), w') ->
  run B username dry_run cap (fuel + k) w = (Ok (Some f), w').
Proof.
  unfold run, bind.
  destruct (go_to_posts_all B username w) as [[[]|e] w1]; [|discriminate].
  destruct (scroll_top B w1) as [[[]|e] w2]; [|discriminate].
  apply main_loop_fuel.
Qed.

End RunFacts.

(** ** One turn of the loop *)

Section PassFacts.
Context {S : Type} (B : browser S).
Variables (username : string) (dry_run : bool) (cap : Z).

Local Abbreviation while_loop := (main_loop B username dry_run cap).
Local Abbreviation leaves := (ends B username dry_run cap).
Local Abbreviation goes_on := (continues B username dry_run cap).

Lemma main_loop_ends fuel rs (w w' : world S) f :
  leaves rs w f w' ->
  while_loop (Datatypes.S fuel) rs w = (Ok (Some f), w').
Proof.
  intros H. destruct H as [rs w Hcap|rs w w1 h w2 Hlt Hfind Hh Hin
                           |rs w l links w1 p w2 h w3 Hlt Hfind Hp Hh Hin];
    cbn [main_loop].
  - replace (processed rs <? cap) with false by (symmetry; apply Z.ltb_ge; exact Hcap).
    reflexivity.
  - replace (processed rs <? cap) with true by (symmetry; apply Z.ltb_lt; exact Hlt).
    cbn [negb]. unfold bind at 1. rewrite Hfind.
    unfold pull_more, bind. rewrite Hh.
    destruct (decide (h ∈ seen_heights rs)); [reflexivity|contradiction].
  - replace (processed rs <? cap) with true by (symmetry; apply Z.ltb_lt; exact Hlt).
    cbn [negb]. unfold bind at 1. rewrite Hfind.
    unfold bind at 1. rewrite Hp.
    unfold pull_more, bind. rewrite Hh.
    destruct (decide (h ∈ seen_heights rs)); [reflexivity|contradiction].
Qed.

Lemma main_loop_continues fuel rs (w : world S) rs1 w1 :
  goes_on rs w rs1 w1 ->
  while_loop (Datatypes.S fuel) rs w = while_loop fuel rs1 w1.
Proof.
  intros H. destruct H as [rs w w1 h w2 w3 Hlt Hfind Hh Hout Hscroll
                           |rs w l links w1 p w2 h w3 w4 Hlt Hfind Hp Hh Hout Hscroll];
    cbn [main_loop].
  - replace (processed rs <? cap) with true by (symmetry; apply Z.ltb_lt; exact Hlt).
    cbn [negb]. unfold bind at 1. rewrite Hfind.
    unfold pull_more, bind. rewrite Hh.
    destruct (decide (h ∈ seen_heights rs)); [contradiction|].
    rewrite Hscroll. reflexivity.
  - replace (processed rs <? cap) with true by (symmetry; apply Z.ltb_lt; exact Hlt).
    cbn [negb]. unfold bind at 1. rewrite Hfind.
    unfold bind at 1. rewrite Hp.
    unfold pull_more, bind. rewrite Hh.
    destruct (decide (h ∈ seen_heights rs)); [contradiction|].
    rewrite Hscroll. reflexivity.
Qed.

(** A turn that does not raise either leaves the loop or goes on. *)
Lemma main_loop_cases fuel rs (w w' : world S) r :
  while_loop (Datatypes.S fuel) rs w = (Ok r, w') ->
  (exists f, r = Some f /\ leaves rs w f w')
  \/ (exists rs1 w1, goes_on rs w rs1 w1 /\ while_loop fuel rs1 w1 = (Ok r, w')).
Proof.
  cbn [main_loop].
  destruct (processed rs <? cap) eqn:Elt; cbn [negb].
  - apply Z.ltb_lt in Elt. unfold bind at 1.
    destruct (find_links B w) as [[[|l links]|e] w1] eqn:Hfind; [| |discriminate].
    + unfold pull_more, bind.
      destruct (read_scroll_height B w1) as [[h|e] w2] eqn:Hh; [|discriminate].
      destruct (decide (h ∈ seen_heights rs)) as [Hin|Hout].
      * unfold ret. intros [= <- <-]. left. eexists. split; [reflexivity|].
        eapply ends_no_more_posts; eassumption.
      * destruct (scroll_bottom B w2) as [[[]|e] w3] eqn:Hscroll; [|discriminate].
        unfold ret. intros H. right. eexists. eexists. split; [|exact H].
        eapply continues_without_links; eassumption.
    + unfold bind at 1.
      destruct (process_links B username dry_run cap (l :: links) (processed rs) w1)
        as [[p|e] w2] eqn:Hp; [|discriminate].
      unfold pull_more, bind.
      destruct (read_scroll_height B w2) as [[h|e] w3] eqn:Hh; [|discriminate].
      destruct (decide (h ∈ seen_heights rs)) as [Hin|Hout].
      * unfold ret. intros [= <- <-]. left. eexists. split; [reflexivity|].
        eapply ends_no_further_content; eassumption.
      * destruct (scroll_bottom B w3) as [[[]|e] w4] eqn:Hscroll; [|discriminate].
        unfold ret. intros H. right. eexists. eexists. split; [|exact H].
        eapply continues_with_links; eassumption.
  - apply Z.ltb_ge in Elt. unfold ret. intros [= <- <-]. left. eexists.
    split; [reflexivity|]. apply ends_cap_reached. exact Elt.
Qed.

(** The loop ends normally exactly after some turns that go on and one
    that leaves. *)
Lemma main_loop_some fuel rs (w w' : world S) f :
  while_loop fuel rs w = (Ok (Some f), w') <->
  exists n rs' w0,
    (n < fuel)%nat /\ after_passes B username dry_run cap n rs w rs' w0
    /\ leaves rs' w0 f w'.
Proof.
  split.
  - revert rs w. induction fuel as [|fuel IH]; intros rs w H; [discriminate|].
    apply main_loop_cases in H as [(f' & [= <-] & Hend)|(rs1 & w1 & Hstep & Hrest)].
    + exists 0%nat, rs, w. split; [lia|]. split; [constructor|exact Hend].
    + destruct (IH _ _ Hrest) as (n & rs' & w0 & Hn & Hpasses & Hend).
      exists (Datatypes.S n), rs', w0. split; [lia|].
      split; [econstructor; eassumption|exact Hend].
  - intros (n & rs' & w0 & Hn & Hpasses & Hend).
    revert fuel Hn. induction Hpasses as [rs w|n rs w rs1 w1 rs2 w2 Hstep _ IH];
      intros fuel Hn.
    + destruct fuel as [|fuel]; [lia|]. apply main_loop_ends, Hend.
    + destruct fuel as [|fuel]; [lia|].
      rewrite (main_loop_continues fuel _ _ _ _ Hstep).
      apply (IH Hend). lia.
Qed.

(** The fuel runs out exactly when every turn it paid for went on. *)
Lemma main_loop_none fuel rs (w w' : world S) :
  while_loop fuel rs w = (Ok None, w') <->
  exists rs', after_passes B username dry_run cap fuel rs w rs' w'.
Proof.
  split.
  - revert rs w. induction fuel as [|fuel IH]; intros rs w H.
    + revert H. cbn [main_loop]. unfold ret. intros [= <-]. exists rs. constructor.
    + apply main_loop_cases in H as [(f' & Hf & _)|(rs1 & w1 & Hstep & Hrest)];
        [discriminate Hf|].
      destruct (IH _ _ Hrest) as (rs' & Hpasses).
      exists rs'. econstructor; eassumption.
  - intros (rs' & Hpasses).
    induction Hpasses as [rs w|n rs w rs1 w1 rs2 w2 Hstep _ IH]; [reflexivity|].
    rewrite (main_loop_continues n _ _ _ _ Hstep). exact IH.
Qed.

Lemma ends_or_continues rs (w w' : world S) f rs1 w1 :
  leaves rs w f w' -> goes_on rs w rs1 w1 -> False.
Proof.
  intros Hend Hstep.
  pose proof (main_loop_ends 0 _ _ _ _ Hend) as H1.
  rewrite (main_loop_continues 0 _ _ _ _ Hstep) in H1. discriminate H1.
Qed.

Lemma ends_one_way rs (w w' w2 : world S) f f2 :
  leaves rs w f w' -> leaves rs w f2 w2 -> f = f2 /\ w' = w2.
Proof.
  intros H1 H2.
  pose proof (main_loop_ends 0 _ _ _ _ H1) as E1.
  rewrite (main_loop_ends 0 _ _ _ _ H2) in E1.
  injection E1 as -> ->. split; reflexivity.
Qed.

End PassFacts.



(** ** The terminal conditions *)

(** C6, as stated, fails: with a cap of 10 on a grid of three posts that
    a dry run leaves in place, the second pass ends at the [break] of
    line 1016: links were extracted, [processed] is 6, below the cap,
    and the run ends normally. *)
Lemma loop_ends_below_cap_with_links :
  exists f links,
    fst (run (Scripted.engine (Scripted.plain Scenario.grid_xy)) "user" true 10 5
           Scripted.start) = Ok (Some f)
    /\ how f = NoFurtherContent links 1080
    /\ List.length links = 3%nat
    /\ processed (at_exit f) = 6
    /\ ~ terminal_as_specified 10 f.
Proof.
  eexists. eexists. split; [vm_compute; reflexivity|].
  split; [reflexivity|]. split; [reflexivity|]. split; [reflexivity|].
  intros [H|(h & Hh & _)]; [cbn in H; lia|discriminate Hh].
Qed.

(** C6, amended: the loop ends normally in exactly three ways: its
    condition fails, [processed >= cap]; or a turn extracts no link and
    reads a scroll height seen earlier in the run; or a turn has
    processed its links and then reads a scroll height seen earlier in
    the run, whether or not the cap is reached. In every other state
    that raises nothing it goes on: with a height not seen before,
    after no link or after the links of the turn, it remembers the
    height, scrolls to the bottom and comes back to its test. The
    height is tested against the heights seen before it was read.
    A run ends normally exactly after some turns that go on
    ([continues]) and one that leaves ([ends]); no state both leaves
    and goes on, and it leaves in one way only. (An exception of the
    engine that no [try] catches ends the run as an error.) *)
Theorem loop_terminal_conditions {S} (B : browser S)
    (username : string) (dry_run : bool) (cap : Z) :
  (forall fuel rs w f,
      fst (main_loop B username dry_run cap fuel rs w) = Ok (Some f) ->
      exit_condition cap f)
  /\ (forall fuel rs w w1 h w2,
        processed rs < cap ->
        find_links B w = (Ok [], w1) ->
        read_scroll_height B w1 = (Ok h, w2) ->
        h ∈ seen_heights rs ->
        main_loop B username dry_run cap (Datatypes.S fuel) rs w
        = (Ok (Some {| how := NoMorePosts h; at_exit := rs |}), w2))
  /\ (forall fuel rs w w1 h w2 w3,
        processed rs < cap ->
        find_links B w = (Ok [], w1) ->
        read_scroll_height B w1 = (Ok h, w2) ->
        h ∉ seen_heights rs ->
        scroll_bottom B w2 = (Ok tt, w3) ->
        main_loop B username dry_run cap (Datatypes.S fuel) rs w
        = main_loop B username dry_run cap fuel
            {| processed := processed rs; seen_heights := {[h]} ∪ seen_heights rs |} w3)
  /\ (forall fuel rs w l links w1 p w2 h w3,
        processed rs < cap ->
        find_links B w = (Ok (l :: links), w1) ->
        process_links B username dry_run cap (l :: links) (processed rs) w1 = (Ok p, w2) ->
        read_scroll_height B w2 = (Ok h, w3) ->
        h ∈ seen_heights rs ->
        main_loop B username dry_run cap (Datatypes.S fuel) rs w
        = (Ok (Some {| how := NoFurtherContent (l :: links) h;
                       at_exit := {| processed := p; seen_heights := seen_heights rs |} |}),
           w3))
  /\ (forall fuel rs w l links w1 p w2 h w3 w4,
        processed rs < cap ->
        find_links B w = (Ok (l :: links), w1) ->
        process_links B username dry_run cap (l :: links) (processed rs) w1 = (Ok p, w2) ->
        read_scroll_height B w2 = (Ok h, w3) ->
        h ∉ seen_heights rs ->
        scroll_bottom B w3 = (Ok tt, w4) ->
        main_loop B username dry_run cap (Datatypes.S fuel) rs w
        = main_loop B username dry_run cap fuel
            {| processed := p; seen_heights := {[h]} ∪ seen_heights rs |} w4)
  /\ (forall fuel rs w,
        cap <= processed rs ->
        main_loop B username dry_run cap (Datatypes.S fuel) rs w
        = (Ok (Some {| how := CapReached; at_exit := rs |}), w))
  /\ (forall fuel rs w f w',
        main_loop B username dry_run cap fuel rs w = (Ok (Some f), w') <->
        exists n rs' w0,
          (n < fuel)%nat
          /\ after_passes B username dry_run cap n rs w rs' w0
          /\ ends B username dry_run cap rs' w0 f w')
  /\ (forall fuel rs w w',
        main_loop B username dry_run cap fuel rs w = (Ok None, w') <->
        exists rs', after_passes B username dry_run cap fuel rs w rs' w')
  /\ (forall rs w f w' rs1 w1,
        ends B username dry_run cap rs w f w' ->
        continues B username dry_run cap rs w rs1 w1 -> False)
  /\ (forall rs w f w' f2 w2,
        ends B username dry_run cap rs w f w' ->
        ends B username dry_run cap rs w f2 w2 -> f = f2 /\ w' = w2).
Proof.
  split; [|split; [|split; [|split; [|split; [|split; [|split; [|split; [|split]]]]]]]].
  - intros fuel rs w f Hf.
    apply (main_loop_exit B username dry_run cap fuel rs w (Some f) Hf).
  - intros fuel rs w w1 h w2 Hlt Hfind Hh Hin.
    apply main_loop_ends. eapply ends_no_more_posts; eassumption.
  - intros fuel rs w w1 h w2 w3 Hlt Hfind Hh Hout Hscroll.
    apply main_loop_continues. eapply continues_without_links; eassumption.
  - intros fuel rs w l links w1 p w2 h w3 Hlt Hfind Hp Hh Hin.
    apply main_loop_ends. eapply ends_no_further_content; eassumption.
  - intros fuel rs w l links w1 p w2 h w3 w4 Hlt Hfind Hp Hh Hout Hscroll.
    apply main_loop_continues. eapply continues_with_links; eassumption.
  - intros fuel rs w Hcap. apply main_loop_ends. apply ends_cap_reached. exact Hcap.
  - intros fuel rs w f w'. apply main_loop_some.
  - intros fuel rs w w'. apply main_loop_none.
  - intros rs w f w' rs1 w1. apply ends_or_continues.
  - intros rs w f w' f2 w2. apply ends_one_way.
Qed.

Lemma loop_terminal_conditions_witness :
  exists f w',
    main_loop (Scripted.engine (Scripted.plain Scenario.grid_xy)) "user" true 10 5
      {| processed := 0; seen_heights := ∅ |} Scripted.start = (Ok (Some f), w')
    /\ processed (at_exit f) = 6
    /\ exists n rs' w0,
         (n < 5)%nat
         /\ after_passes (Scripted.engine (Scripted.plain Scenario.grid_xy)) "user" true 10
              n {| processed := 0; seen_heights := ∅ |} Scripted.start rs' w0
         /\ ends (Scripted.engine (Scripted.plain Scenario.grid_xy)) "user" true 10
              rs' w0 f w'.
Proof.
  eexists. eexists. split; [vm_compute; reflexivity|]. split; [reflexivity|].
  destruct (loop_terminal_conditions
              (Scripted.engine (Scripted.plain Scenario.grid_xy)) "user" true 10)
    as (_ & _ & _ & _ & _ & _ & Hexactly & _).
  apply (proj1 (Hexactly 5%nat _ _ _ _)).
  vm_compute. reflexivity.
Defined.

(** ** The end-to-end scenario *)

Lemma scenario_yx_2 :
  Scenario.scenario Scenario.grid_yx 2
  = (Ok (Some Scenario.at_cap),
     {| page := Scenario.grid_page; trace := Scenario.trace_yx |}).
Proof. vm_compute. reflexivity. Qed.

Lemma scenario_xy_2 :
  Scenario.scenario Scenario.grid_xy 2
  = (Ok (Some Scenario.at_cap),
     {| page := Scenario.grid_page; trace := Scenario.trace_xy |}).
Proof. vm_compute. reflexivity. Qed.

(** C9, as stated, fails: whichever way the positions are read, the run
    scrolls to the bottom once after the third link, before it tests
    the cap; and with the positions read as [(x, y)], as the tuples of
    the extractor are, [/gallery/2] (at y = 0) comes before [/IMAGE01]
    (at y = 150). *)
Lemma scenario_scrolls_after_the_cap :
  ~ Scenario.as_specified (Scenario.scenario Scenario.grid_yx 2)
  /\ ~ Scenario.as_specified (Scenario.scenario Scenario.grid_xy 2)
  /\ Scenario.scrolls_to_bottom (trace (snd (Scenario.scenario Scenario.grid_yx 2))) = 1%nat
  /\ Scenario.outcomes (trace (snd (Scenario.scenario Scenario.grid_xy 2)))
     = [("/a/1", true, 0); ("/gallery/2", true, 0); ("/IMAGE01", true, 1)].
Proof.
  rewrite scenario_yx_2, scenario_xy_2. repeat split.
  - intros (_ & _ & H). discriminate H.
  - intros (_ & _ & H). discriminate H.
Qed.

(** C9, amended: on a site that shows the usual controls, with cap 3
    in dry-run, the links are processed in the order of
    [(round(y), round(x))]: with the positions read as [(y, x)] that is
    [/a/1], [/IMAGE01], [/gallery/2] with outcomes [(true, 0)],
    [(true, 1)], [(true, 0)] (read as [(x, y)] it is [/a/1],
    [/gallery/2], [/IMAGE01]); the final [processed] is 3; after the
    third link the loop reads the scroll height, scrolls to the bottom
    once, and then ends at the cap. *)
Theorem scenario_run (k : nat) :
  Scenario.scenario Scenario.grid_yx (2 + k)
  = (Ok (Some Scenario.at_cap),
     {| page := Scenario.grid_page; trace := Scenario.trace_yx |})
  /\ Scenario.scenario Scenario.grid_xy (2 + k)
     = (Ok (Some Scenario.at_cap),
        {| page := Scenario.grid_page; trace := Scenario.trace_xy |})
  /\ Scenario.outcomes Scenario.trace_yx
     = [("/a/1", true, 0); ("/IMAGE01", true, 1); ("/gallery/2", true, 0)]
  /\ Scenario.outcomes Scenario.trace_xy
     = [("/a/1", true, 0); ("/gallery/2", true, 0); ("/IMAGE01", true, 1)]
  /\ how Scenario.at_cap = CapReached
  /\ processed (at_exit Scenario.at_cap) = 3
  /\ Scenario.scrolls_to_bottom Scenario.trace_yx = 1%nat
  /\ List.last Scenario.trace_yx ScrollTop = ScrollBottom
  /\ clicks Scenario.trace_yx
     = [ Role "button" (Name "Delete image"); Css (Sel.has_text "button" "Cancel") ].
Proof.
  split; [|split].
  - apply (run_fuel _ "user" true 3 2 k), scenario_yx_2.
  - apply (run_fuel _ "user" true 3 2 k), scenario_xy_2.
  - repeat split.
Qed.

(** * Further properties of the code *)

(** ** The extractor: what it keeps, when it raises, what it fixes *)

Module ExtractorMore.
Import Extractor ExtractorFacts.

Lemma candidate_qualifies a it :
  candidate a = Ok (Some it) <->
  qualifies a (href it) {| box_x := x it; box_y := y it |}.
Proof.
  split.
  - intros H. apply candidate_some in H. exact H.
  - intros (Hv & (raw & Hraw & Hn) & Hs & Hb & Hp & Hbox).
    unfold candidate. rewrite Hv, Hraw, <- Hn, Hs, Hb, Hp, Hbox. cbn.
    destruct it; reflexivity.
Qed.

Lemma collect_complete anchors items a it :
  collect anchors = Ok items -> In a anchors -> candidate a = Ok (Some it) ->
  In it items.
Proof.
  revert items. induction anchors as [|a0 rest IH]; intros items; cbn [collect].
  - intros _ [].
  - destruct (candidate a0) as [o|e] eqn:Ea; [|discriminate].
    destruct (collect rest) as [l|e] eqn:Er; [|discriminate].
    intros [= <-] [->|Hin] Hc.
    + rewrite Hc in Ea. injection Ea as <-. left. reflexivity.
    + specialize (IH l eq_refl Hin Hc). destruct o; [right|]; exact IH.
Qed.

(** The de-duplication drops an item only for an href it has seen. *)
Lemma dedupe_complete seen l it :
  In it l -> href it ∈ seen \/ In (href it) (map href (dedupe seen l)).
Proof.
  revert seen. induction l as [|j l IH]; intros seen; [intros []|].
  cbn [dedupe]. intros [->|Hin].
  - destruct (decide (href it ∈ seen)); [left; assumption|right; left; reflexivity].
  - destruct (decide (href j ∈ seen)) as [Hj|Hj]; [apply IH, Hin|].
    destruct (IH ({[href j]} ∪ seen) Hin) as [H|H].
    + apply elem_of_union in H as [H|H]; [|left; exact H].
      apply elem_of_singleton in H. right. left. symmetry. exact H.
    + right. right. exact H.
Qed.

Lemma collect_raises anchors e :
  collect anchors = Raise e <->
  exists pre a post,
    anchors = (pre ++ a :: post)%list
    /\ a_visible a = Ok true /\ a_href a = Raise e
    /\ forall a', In a' pre -> a_visible a' = Ok true -> exists raw, a_href a' = Ok raw.
Proof.
  assert (forall a e0,
            candidate a = Raise e0 <-> a_visible a = Ok true /\ a_href a = Raise e0)
    as Hcand.
  { intros a e0. unfold candidate.
    destruct (a_visible a) as [[|]|]; try (split; [discriminate|intros [[=] _]]).
    destruct (a_href a) as [raw|e'].
    - split; [|intros [_ [=]]].
      destruct (negb _ || _); [discriminate|].
      destruct (negb _); [discriminate|].
      destruct (a_box a) as [[b|]|]; discriminate.
    - split; [intros [= ->]; auto|intros [_ [= ->]]; reflexivity]. }
  assert (forall a o, candidate a = Ok o ->
            a_visible a = Ok true -> exists raw, a_href a = Ok raw) as Hok.
  { intros a o. unfold candidate. intros H Hv. rewrite Hv in H.
    destruct (a_href a) as [raw|e']; [eauto|discriminate]. }
  induction anchors as [|a rest IH]; cbn [collect].
  - split; [discriminate|]. intros (pre & a & post & H & _). destruct pre; discriminate H.
  - destruct (candidate a) as [o|e'] eqn:Ea.
    + destruct (collect rest) as [l|e''] eqn:Er.
      * split; [discriminate|].
        intros (pre & a0 & post & Heq & Hv & Hh & Hpre).
        destruct pre as [|a1 pre]; cbn in Heq; injection Heq as <- ->.
        -- assert (candidate a = Raise e) as Hc by (apply Hcand; auto). congruence.
        -- enough (@Ok (list item) l = Raise e) as Hc by discriminate Hc.
           apply IH. exists pre, a0, post. split; [reflexivity|].
           split; [exact Hv|]. split; [exact Hh|]. intros a' Ha'. apply Hpre. right. exact Ha'.
      * split.
        -- intros [= ->]. destruct (proj1 IH eq_refl) as (pre & a0 & post & -> & Hv & Hh & Hpre).
           exists (a :: pre), a0, post. split; [reflexivity|]. split; [exact Hv|].
           split; [exact Hh|]. intros a' [<-|Ha']; [apply (Hok _ _ Ea)|apply Hpre, Ha'].
        -- intros (pre & a0 & post & Heq & Hv & Hh & Hpre).
           destruct pre as [|a1 pre]; cbn in Heq; injection Heq as <- ->.
           ++ assert (candidate a = Raise e) as Hc by (apply Hcand; auto). congruence.
           ++ apply IH. exists pre, a0, post. split; [reflexivity|].
              split; [exact Hv|]. split; [exact Hh|].
              intros a' Ha'. apply Hpre. right. exact Ha'.
    + apply Hcand in Ea as [Hv Hh]. split.
      * intros [= ->]. exists [], a, rest. repeat split; auto. intros a' [].
      * intros (pre & a0 & post & Heq & Hv0 & Hh0 & Hpre).
        destruct pre as [|a1 pre]; cbn in Heq; injection Heq as <- ->.
        -- congruence.
        -- destruct (Hpre a (or_introl eq_refl) Hv) as [raw Hraw]. congruence.
Qed.

(** Sorting a sorted list and de-duplicating a duplicate-free one
    change nothing. *)
Lemma sort_items_sorted_id l : StronglySorted key_le l -> sort_items l = l.
Proof.
  induction 1 as [|it l Hs IH Hall]; [reflexivity|].
  cbn [sort_items]. rewrite IH. destruct l as [|j l]; [reflexivity|].
  cbn [insert]. inversion Hall as [|? ? Hj _]; subst. unfold key_le in Hj.
  rewrite Hj. reflexivity.
Qed.

Lemma dedupe_nodup_id seen l :
  List.NoDup (map href l) -> (forall it, In it l -> href it ∉ seen) ->
  dedupe seen l = l.
Proof.
  revert seen. induction l as [|j l IH]; intros seen Hnd Hseen; [reflexivity|].
  cbn [dedupe map] in *. inversion Hnd as [|? ? Hj Hnd']; subst.
  destruct (decide (href j ∈ seen)) as [Hin|_].
  - exfalso. apply (Hseen j); [left; reflexivity|exact Hin].
  - f_equal. apply IH; [exact Hnd'|].
    intros it Hit Hel. apply elem_of_union in Hel as [Hel|Hel].
    + apply elem_of_singleton in Hel. apply Hj. rewrite <- Hel. apply in_map, Hit.
    + apply (Hseen it); [right; exact Hit|exact Hel].
Qed.

Lemma split_first_id c s : has_char c s = false -> Py.first (Py.split c s) = s.
Proof.
  induction s as [|d s IH]; [reflexivity|].
  rewrite has_char_cons. intros H. apply orb_false_elim in H as [H1 H2].
  cbn [Py.split]. rewrite Ascii.eqb_sym, H1.
  specialize (IH H2). destruct (Py.split c s) as [|h t]; cbn [Py.first hd] in *.
  - subst. reflexivity.
  - subst. reflexivity.
Qed.

Lemma normalize_clean s :
  has_char "?" s = false -> has_char "#" s = false -> normalize (Some s) = s.
Proof.
  intros Hq Hh. unfold normalize.
  change (default EmptyString (Some s)) with s.
  rewrite (split_first_id "#" s Hh). apply split_first_id, Hq.
Qed.

End ExtractorMore.

Lemma extractor_output_facts
    (anchors : list Extractor.anchor) (out : list Extractor.item) :
  Extractor.find_post_links_sorted anchors = Ok out ->
  StronglySorted Extractor.key_le out
  /\ List.NoDup (map Extractor.href out)
  /\ (forall it, In it out ->
        Extractor.has_char "?" (Extractor.href it) = false
        /\ Extractor.has_char "#" (Extractor.href it) = false
        /\ Py.startswith (Extractor.href it) "/" = true
        /\ Py.startswith_any (Extractor.href it) Extractor.BAD_PREFIXES = false
        /\ Extractor.POST_HREF_PAT (Extractor.href it) = true).
Proof.
  unfold Extractor.find_post_links_sorted.
  destruct (Extractor.collect anchors) as [items|e] eqn:Ec; [|discriminate].
  intros [= <-].
  split; [apply ExtractorFacts.dedupe_sorted, ExtractorFacts.sort_items_sorted|].
  split; [apply ExtractorFacts.dedupe_NoDup|].
  intros it Hit.
  apply ExtractorFacts.in_dedupe in Hit as [Hit _].
  apply (proj1 (ExtractorFacts.in_sort_items _ _)) in Hit.
  destruct (ExtractorFacts.in_collect _ _ _ Ec Hit) as (a & Ha & Hc).
  apply ExtractorFacts.candidate_some in Hc
    as (_ & (raw & Hraw & Hn) & Hslash & Hbad & Hpat & _).
  rewrite Hn at 1 2.
  split; [apply ExtractorFacts.normalize_strips|].
  split; [apply ExtractorFacts.normalize_strips|]. auto.
Qed.

(** X1: the hrefs the extractor returns are exactly the normalised
    hrefs of the anchors that qualify (visible, href read, leading
    slash, no blocked prefix, post pattern, bounding box): no post link
    is lost by the sort or the de-duplication and nothing else gets in;
    and every link returned carries the position of such an anchor. *)
Theorem extractor_keeps_every_post_link
    (anchors : list Extractor.anchor) (out : list Extractor.item) :
  Extractor.find_post_links_sorted anchors = Ok out ->
  (forall h, In h (map Extractor.href out) <->
             exists a b, In a anchors /\ qualifies a h b)
  /\ (forall it, In it out ->
        exists a, In a anchors
                  /\ qualifies a (Extractor.href it)
                       {| Extractor.box_x := Extractor.x it;
                          Extractor.box_y := Extractor.y it |}).
Proof.
  unfold Extractor.find_post_links_sorted.
  destruct (Extractor.collect anchors) as [items|e] eqn:Ec; [|discriminate].
  intros [= <-].
  assert (forall it, In it (Extractor.dedupe ∅ (Extractor.sort_items items)) ->
            exists a, In a anchors
                      /\ qualifies a (Extractor.href it)
                           {| Extractor.box_x := Extractor.x it;
                              Extractor.box_y := Extractor.y it |}) as Hprov.
  { intros it Hit. apply ExtractorFacts.in_dedupe in Hit as [Hit _].
    apply (proj1 (ExtractorFacts.in_sort_items _ _)) in Hit.
    destruct (ExtractorFacts.in_collect _ _ _ Ec Hit) as (a & Ha & Hc).
    exists a. split; [exact Ha|]. apply ExtractorMore.candidate_qualifies, Hc. }
  split; [|exact Hprov].
  intros h. split.
  - intros Hin. apply in_map_iff in Hin as (it & <- & Hit).
    destruct (Hprov it Hit) as (a & Ha & Hq). eauto.
  - intros (a & b & Ha & Hq).
    set (it := {| Extractor.href := h; Extractor.x := Extractor.box_x b;
                  Extractor.y := Extractor.box_y b |}).
    assert (Extractor.candidate a = Ok (Some it)) as Hc.
    { apply ExtractorMore.candidate_qualifies. subst it. cbn. destruct b. exact Hq. }
    pose proof (ExtractorMore.collect_complete _ _ _ _ Ec Ha Hc) as Hit.
    apply (proj2 (ExtractorFacts.in_sort_items _ _)) in Hit.
    destruct (ExtractorMore.dedupe_complete ∅ _ _ Hit) as [Hempty|Hin]; [set_solver|].
    exact Hin.
Qed.

Lemma extractor_keeps_every_post_link_witness :
  exists a b, In a sample_anchors /\ qualifies a "/gallery/abc" b.
Proof.
  apply (proj1 (proj1 (extractor_keeps_every_post_link sample_anchors sample_links
                         ltac:(vm_compute; reflexivity)) "/gallery/abc")).
  right. left. reflexivity.
Defined.

(** X2: [find_post_links_sorted(page)] raises exactly in two cases:
    the query for the anchors raises ([anchors.count()] of line 424,
    which no [try] surrounds), with that exception; or the anchors are
    listed and one that answered visible raises on
    [get_attribute("href")], with the exception of the first such
    anchor. Exceptions of [is_visible] and [bounding_box] only skip the
    anchor, and the href of a hidden anchor is never read. *)
Theorem extractor_raises_on_count_or_visible_href {S} (B : browser S)
    (w : world S) (e : exn) :
  fst (find_links B w) = Raise e <->
  (exists p, anchors B Sel.post_anchor_selector (page w) = (Raise e, p))
  \/ (exists l p pre a post,
        anchors B Sel.post_anchor_selector (page w) = (Ok l, p)
        /\ l = (pre ++ a :: post)%list
        /\ Extractor.a_visible a = Ok true
        /\ Extractor.a_href a = Raise e
        /\ forall a', In a' pre -> Extractor.a_visible a' = Ok true ->
                      exists raw, Extractor.a_href a' = Ok raw).
Proof.
  unfold find_links, bind, prim.
  destruct (anchors B Sel.post_anchor_selector (page w)) as [[l|e0] p] eqn:Ea; cbn [fst].
  - assert (Extractor.find_post_links_sorted l = Raise e <-> Extractor.collect l = Raise e)
      as Hcore.
    { unfold Extractor.find_post_links_sorted.
      destruct (Extractor.collect l); split; congruence. }
    assert (fst (match Extractor.find_post_links_sorted l with
                 | Ok links => ret links
                 | Raise e1 => raise e1
                 end {| page := p; trace := trace w |}) = Raise e
            <-> Extractor.find_post_links_sorted l = Raise e) as Hrun.
    { destruct (Extractor.find_post_links_sorted l); cbn; split; congruence. }
    rewrite Hrun, Hcore.
    split.
    + intros H. right. exists l, p.
      apply (proj1 (ExtractorMore.collect_raises l e)) in H.
      destruct H as (pre & a & post & H1 & H2). exists pre, a, post.
      split; [reflexivity|]. split; [exact H1|exact H2].
    + intros [(p0 & H)|(l0 & p0 & pre & a & post & [= <- <-] & H)]; [discriminate H|].
      apply (proj2 (ExtractorMore.collect_raises l e)).
      exists pre, a, post. exact H.
  - split.
    + intros [= ->]. left. exists p. reflexivity.
    + intros [(p0 & [= -> _])|(l0 & p0 & pre & a & post & H & _)];
        [reflexivity|discriminate H].
Qed.

(** X3: the extractor is idempotent: run on tiles with the hrefs and
    positions of the links it returned, it returns the same links in
    the same order. *)
Theorem extractor_fixes_its_output
    (anchors : list Extractor.anchor) (out : list Extractor.item) :
  Extractor.find_post_links_sorted anchors = Ok out ->
  Extractor.find_post_links_sorted (map as_tile out) = Ok out.
Proof.
  intros H.
  destruct (extractor_output_facts anchors out H)
    as (Hs & Hn & Hall).
  assert (Extractor.collect (map as_tile out) = Ok out) as Hc.
  { clear Hs Hn H. induction out as [|it out IH]; [reflexivity|].
    cbn [map Extractor.collect].
    assert (Extractor.candidate (as_tile it) = Ok (Some it)) as ->.
    { destruct (Hall it (or_introl eq_refl)) as (Hq & Hh & Hslash & Hbad & Hpat).
      apply ExtractorMore.candidate_qualifies.
      unfold qualifies, as_tile, Scripted.tile. cbn.
      repeat split; auto.
      exists (Some (Extractor.href it)). split; [reflexivity|].
      symmetry. apply ExtractorMore.normalize_clean; assumption. }
    rewrite IH; [reflexivity|]. intros j Hj. apply Hall. right. exact Hj. }
  unfold Extractor.find_post_links_sorted. rewrite Hc.
  rewrite (ExtractorMore.sort_items_sorted_id out Hs).
  rewrite (ExtractorMore.dedupe_nodup_id ∅ out Hn); [reflexivity|].
  intros it _. set_solver.
Qed.

Lemma extractor_fixes_its_output_witness :
  Extractor.find_post_links_sorted (map as_tile sample_links) = Ok sample_links.
Proof.
  apply (extractor_fixes_its_output sample_anchors). vm_compute. reflexivity.
Defined.

(** X4: normalising an href is idempotent, and it leaves an href with
    neither [?] nor [#] as it is; so the hrefs the extractor returns are
    the ones [delete_one] appends to the site's address, unchanged. *)
Theorem normalize_idempotent (raw : option string) (s : string) :
  Extractor.normalize (Some (Extractor.normalize raw)) = Extractor.normalize raw
  /\ (Extractor.has_char "?" s = false -> Extractor.has_char "#" s = false ->
      Extractor.normalize (Some s) = s).
Proof.
  split; [|apply ExtractorMore.normalize_clean].
  apply ExtractorMore.normalize_clean; apply ExtractorFacts.normalize_strips.
Qed.

Lemma normalize_idempotent_witness :
  Extractor.normalize (Some "/gallery/abc") = "/gallery/abc".
Proof.
  apply (proj2 (normalize_idempotent None "/gallery/abc")); reflexivity.
Defined.

(** [round] stays within half a unit of its argument. *)
Lemma round_near (q : Q) :
  (inject_Z (Py.round q) - (1 # 2) <= q /\ q <= inject_Z (Py.round q) + (1 # 2))%Q.
Proof.
  unfold Py.round.
  pose proof (Qfloor_le q) as Hlo. pose proof (Qlt_floor q) as Hhi.
  rewrite inject_Z_plus in Hhi. change (inject_Z 1) with 1%Q in Hhi.
  destruct (Qcompare_spec (q - inject_Z (Qfloor q)) (1 # 2)) as [E|E|E].
  - destruct (Z.even (Qfloor q)).
    + split; lra.
    + rewrite inject_Z_plus. change (inject_Z 1) with 1%Q. split; lra.
  - split; lra.
  - rewrite inject_Z_plus. change (inject_Z 1) with 1%Q. split; lra.
Qed.

Lemma sorted_earlier_le (l1 l2 l3 : list Extractor.item) (a b : Extractor.item) :
  StronglySorted Extractor.key_le (l1 ++ a :: l2 ++ b :: l3) -> Extractor.key_le a b.
Proof.
  induction l1 as [|c l1 IH]; cbn [app].
  - intros H. apply StronglySorted_inv in H as [_ Hall].
    rewrite List.Forall_forall in Hall. apply Hall.
    apply in_or_app. right. left. reflexivity.
  - intros H. apply StronglySorted_inv in H as [H _]. apply IH, H.
Qed.

(** X5: in the sequence the extractor returns, a link is never more
    than one pixel below a link that comes after it, and when the two
    round to the same row it is never more than one pixel to its
    right: the order is the visual one up to rounding. *)
Theorem extractor_order_is_visual
    (anchors : list Extractor.anchor) (l1 l2 l3 : list Extractor.item)
    (a b : Extractor.item) :
  Extractor.find_post_links_sorted anchors = Ok (l1 ++ a :: l2 ++ b :: l3)%list ->
  (Extractor.y a <= Extractor.y b + 1)%Q
  /\ (Py.round (Extractor.y a) = Py.round (Extractor.y b) ->
      (Extractor.x a <= Extractor.x b + 1)%Q).
Proof.
  intros H.
  destruct (extractor_output_facts _ _ H) as (Hs & _).
  apply sorted_earlier_le in Hs. unfold Extractor.key_le, Extractor.key_leb in Hs.
  cbn [fst snd Extractor.key] in Hs.
  pose proof (round_near (Extractor.y a)) as [_ Hya].
  pose proof (round_near (Extractor.y b)) as [Hyb _].
  pose proof (round_near (Extractor.x a)) as [_ Hxa].
  pose proof (round_near (Extractor.x b)) as [Hxb _].
  split.
  - assert (Py.round (Extractor.y a) <= Py.round (Extractor.y b)) as Hle by lia.
    rewrite Zle_Qle in Hle. lra.
  - intros Heq.
    assert (Py.round (Extractor.x a) <= Py.round (Extractor.x b)) as Hle by lia.
    rewrite Zle_Qle in Hle. lra.
Qed.

Lemma extractor_order_is_visual_witness :
  (300 <= 300 + 1)%Q /\ (Py.round 300 = Py.round 300 -> ((3 # 2) <= (5 # 2) + 1)%Q).
Proof.
  exact (extractor_order_is_visual sample_anchors
           [ {| Extractor.href := "/a/1"; Extractor.x := 10; Extractor.y := 1 # 4 |} ]
           [] []
           {| Extractor.href := "/gallery/abc"; Extractor.x := 3 # 2; Extractor.y := 300 |}
           {| Extractor.href := "/AbCdEfG"; Extractor.x := 5 # 2; Extractor.y := 300 |}
           ltac:(vm_compute; reflexivity)).
Defined.

(** ** The drivers: errors, outcomes and clicks *)

Ltac emits_go solve_event :=
  repeat first
    [ progress intros
    | apply emits_ret | apply emits_raise | apply emits_read | apply emits_prim
    | apply emits_attempt | apply emits_or_else
    | apply emits_bind | apply emits_catch
    | apply emits_first_success; apply List.Forall_forall
    | apply emits_act; solve_event
    | apply emits_note; solve_event
    | match goal with
      | |- emits _ (if ?b then _ else _) => destruct b
      | |- emits _ (match ?e with TimeoutError => _ | OtherError => _ end) => destruct e
      | |- emits _ (match ?o with Some _ => _ | None => _ end) => destruct o
      | |- emits _ (match ?k with Image => _ | Album => _ | Other => _ end) => destruct k
      end ].

Ltac unfold_drivers :=
  unfold delete_one, delete_image, delete_album, delete_other, finish, verify,
    revisit, check_unconfirmed, confirm_deletion, click_delete_from_account,
    click_delete_image, open_menu, scan_buttons, count_album_images,
    image_confirm, image_cancel, image_step1, delete_post_container,
    click_confirmation, click_delete_post, click_if_visible, safe_click,
    safe_goto, current_url, page_content, navigate, do_click, visible.

#[local] Hint Resolve safe_click_total click_delete_post_total click_confirmation_total
  delete_post_container_total image_step1_total image_cancel_total
  image_confirm_total count_album_images_total open_menu_total
  click_delete_image_total click_delete_from_account_total
  confirm_deletion_total check_unconfirmed_total : total.

Lemma emits_weaken_events {S A} (E E' : event -> Prop) (m : M S A) :
  (forall e, E e -> E' e) -> emits E m -> emits E' m.
Proof. intros H Hm w. eapply extends_weaken; [exact H|apply Hm]. Qed.

Section DriverMore.
Context {S : Type} (B : browser S).

Lemma delete_one_post_events href dry_run :
  emits (post_event ("https://imgur.com" +:+ href)) (delete_one B href dry_run).
Proof.
  unfold_drivers.
  emits_go ltac:(first [left; reflexivity|right; eexists; reflexivity]).
Qed.

Lemma delete_album_events dry_run :
  emits (fun e => album_event e = true) (delete_album B dry_run).
Proof.
  unfold_drivers.
  emits_go ltac:(first
    [ reflexivity
    | match goal with
      | H : In _ _ |- _ =>
          repeat (destruct H as [<-|H]; [reflexivity|]); destruct H
      end ]).
Qed.

Lemma delete_image_counted dry_run : always counted (delete_image B dry_run).
Proof. unfold delete_image, counted. repeat always_step; auto. Qed.

Lemma revisit_counted url :
  always (fun f => match f with Some o => counted o | None => True end) (revisit B url).
Proof.
  unfold revisit, counted. apply always_catch.
  - apply yields_bind; intros _. apply yields_bind; intros c.
    destruct (not_found_text (Py.lower c)); [apply yields_ret; auto|].
    apply yields_bind; intros u.
    destruct (Py.contains url u); apply yields_ret; auto.
  - intros [|]; apply always_ret; auto.
Qed.

Lemma verify_counted url confirmed deleted :
  always counted (verify B url confirmed deleted).
Proof.
  unfold verify.
  apply always_bind; [destruct (negb confirmed); auto with total|].
  intros [|]; [apply always_ret; unfold counted; auto|].
  eapply always_bind_with
    with (Q := fun f => match f with Some o => counted o | None => True end).
  - destruct (confirmed || deleted); [apply revisit_counted|apply always_ret; exact I].
  - intros [o|] Ho; [apply always_ret, Ho|].
    destruct (confirmed || deleted); apply always_ret; unfold counted; auto.
Qed.

Lemma delete_other_counted url dry_run : always counted (delete_other B url dry_run).
Proof.
  unfold delete_other.
  apply always_bind; [auto with total|]. intros [|].
  - apply always_bind; [auto with total|]. intros [|]; cbn [negb].
    + apply always_bind; [auto with total|]. intros d.
      unfold finish. destruct (negb d).
      * apply always_ret. unfold counted; auto.
      * apply always_bind; [auto with total|]. intros c. apply verify_counted.
    + apply always_ret. unfold counted; auto.
  - apply always_ret. unfold counted; auto.
Qed.

End DriverMore.

(** X6: [delete_one] raises only through its first navigation: when
    the first [goto] fails with an error that is no timeout, or times
    out and the second [goto] fails too. Whatever the page does after
    that, [delete_one] returns an outcome. *)
Theorem delete_one_raises_only_on_navigation {S} (B : browser S)
    (href : string) (dry_run : bool) (w : world S) (e : exn) :
  let url := "https://imgur.com" +:+ href in
  fst (delete_one B href dry_run w) = Raise e <->
  (e = OtherError /\ exists p, goto B url (page w) = (Raise OtherError, p))
  \/ (exists p, goto B url (page w) = (Raise TimeoutError, p)
                /\ fst (goto B url p) = Raise e).
Proof.
  intros url.
  assert (forall w1, exists o, fst (match classify href with
                                    | Image => delete_image B dry_run
                                    | Album => delete_album B dry_run
                                    | Other => delete_other B url dry_run
                                    end w1) = Ok o) as Hdrv.
  { intros w1. destruct (classify href).
    - apply (always_total _ _ (delete_image_documented B dry_run)).
    - apply (always_total _ _ (delete_album_zero B dry_run)).
    - apply (always_total _ _ (delete_other_documented B url dry_run)). }
  unfold delete_one. fold url. unfold bind, safe_goto, catch, navigate, act, raise.
  destruct (goto B url (page w)) as [[[]|[|]] p] eqn:E1; cbn [fst snd page trace].
  - match goal with |- fst (?d ?w1) = _ <-> _ => destruct (Hdrv w1) as [o Ho] end.
    rewrite Ho. split; [discriminate|].
    intros [(_ & q & [=])|(q & [=] & _)].
  - destruct (goto B url p) as [[[]|e2] p2] eqn:E2; cbn [fst snd].
    + match goal with |- fst (?d ?w1) = _ <-> _ => destruct (Hdrv w1) as [o Ho] end.
      rewrite Ho. split; [discriminate|].
      intros [(_ & q & [=])|(q & [= <-] & H)]. rewrite E2 in H. discriminate H.
    + split.
      * intros [= <-]. right. exists p. rewrite E2. auto.
      * intros [(_ & q & [=])|(q & [= <-] & H)]. rewrite E2 in H. cbn in H. congruence.
  - split.
    + intros [= <-]. left. eauto.
    + intros [(-> & _)|(q & [=] & _)]. reflexivity.
Qed.

(** X7: what the count of an outcome means: a failure never carries a
    count, a count of 1 is a success of the image or the menu driver,
    and [(true, 0)] is returned for albums only. *)
Theorem outcome_count_meaning {S} (B : browser S)
    (href : string) (dry_run : bool) (w : world S) (o : outcome) :
  fst (delete_one B href dry_run w) = Ok o ->
  (fst o = false -> snd o = 0)
  /\ (snd o = 1 -> fst o = true /\ classify href <> Album)
  /\ (o = (true, 0) -> classify href = Album).
Proof.
  unfold delete_one, bind.
  destruct (safe_goto B _ w) as [[[]|e] w1]; [|discriminate].
  destruct (classify href) eqn:Ek; intros Ho.
  - destruct (delete_image_counted B dry_run w1) as (o' & Ho' & Hc).
    pose proof (eq_trans (eq_sym Ho) Ho') as E. injection E as ->.
    destruct Hc as [ -> | -> ]; cbn; repeat split; try discriminate; auto.
  - destruct (delete_album_zero B dry_run w1) as (o' & Ho' & Hc).
    pose proof (eq_trans (eq_sym Ho) Ho') as E. injection E as ->.
    destruct Hc as [ -> | -> ]; cbn; repeat split; try discriminate; auto.
  - destruct (delete_other_counted B ("https://imgur.com" +:+ href) dry_run w1)
      as (o' & Ho' & Hc).
    pose proof (eq_trans (eq_sym Ho) Ho') as E. injection E as ->.
    destruct Hc as [ -> | -> ]; cbn; repeat split; try discriminate; auto.
Qed.

Lemma outcome_count_meaning_witness :
  classify "/gallery/2" = Album.
Proof.
  apply (outcome_count_meaning (Scripted.engine (Scripted.plain [])) "/gallery/2" false
           Scripted.start (true, 0)); [vm_compute|]; reflexivity.
Defined.

Section LiveImage.
Context {S : Type} (B : browser S).

Lemma delete_image_live_trace (w : world S) :
  let r := delete_image B false w in
  exists new,
    trace (snd r) = (trace w ++ new)%list
    /\ (new = [] \/ new = [Click delete_image_button]
        \/ new = [Click delete_image_button; Click yes_delete_it_button])
    /\ (fst r = Ok (true, 1) ->
        new = [Click delete_image_button; Click yes_delete_it_button]).
Proof.
  unfold delete_image, image_step1, image_confirm, safe_click, attempt, catch, bind,
    visible, do_click, prim, act, ret.
  cbn [negb page trace fst snd].
  repeat (match goal with
          | |- context [is_visible B ?l ?p] =>
              destruct (is_visible B l p) as [[[|]|?] ?]
          | |- context [click B ?l ?p] =>
              destruct (click B l p) as [[[]|?] ?]
          end; cbn [negb page trace fst snd]);
    first
      [ exists []; rewrite app_nil_r; split; [reflexivity|];
        split; [auto|discriminate]
      | exists [Click delete_image_button]; split; [reflexivity|];
        split; [auto|discriminate]
      | exists [Click delete_image_button; Click yes_delete_it_button];
        rewrite <- app_assoc; split; [reflexivity|]; split; auto ].
Qed.

End LiveImage.

(** X8: in live mode, for an href classified Image, [delete_one] clicks
    nothing but "Delete image" and then "Yes, Delete It", each at most
    once and in this order, and it reports [(true, 1)] only when both
    were clicked. *)
Theorem live_image_deletion_clicks {S} (B : browser S) (href : string) (w : world S) :
  classify href = Image ->
  let r := delete_one B href false w in
  exists new,
    trace (snd r) = (trace w ++ new)%list
    /\ (clicks new = [] \/ clicks new = [delete_image_button]
        \/ clicks new = [delete_image_button; yes_delete_it_button])
    /\ (fst r = Ok (true, 1) ->
        clicks new = [delete_image_button; yes_delete_it_button]).
Proof.
  intros Hk r. subst r. unfold delete_one, bind. rewrite Hk.
  destruct (emits_safe_goto B is_goto ("https://imgur.com" +:+ href)
              ltac:(eexists; reflexivity) w) as (n1 & Hn1 & Hg).
  destruct (safe_goto B _ w) as [[[]|e] w1]; cbn [fst snd] in *.
  - destruct (delete_image_live_trace B w1) as (n2 & Hn2 & Hshape & Hok).
    exists (n1 ++ n2)%list. rewrite Hn2, Hn1, <- app_assoc.
    split; [reflexivity|].
    rewrite clicks_app, (clicks_of_gotos n1 Hg). cbn [app].
    split.
    + destruct Hshape as [ -> | [ -> | -> ] ]; auto.
    + intros H. rewrite (Hok H). reflexivity.
  - exists n1. split; [exact Hn1|]. rewrite (clicks_of_gotos n1 Hg).
    split; [auto|discriminate].
Qed.

Lemma live_image_deletion_clicks_witness :
  clicks (trace (snd (delete_one (Scripted.engine (Scripted.plain [])) "/IMAGE01" false
                        Scripted.start)))
  = [delete_image_button; yes_delete_it_button].
Proof.
  destruct (live_image_deletion_clicks (Scripted.engine (Scripted.plain [])) "/IMAGE01"
              Scripted.start eq_refl) as (new & Hn & _ & Hok).
  rewrite Hn. cbn [Scripted.start trace app]. apply Hok. vm_compute. reflexivity.
Defined.

(** X9: for an href classified Album, in either mode, [delete_one]
    navigates to the post and clicks only through the locators of
    [album_controls]: the "Delete post" locators of the first stage and
    the locators the confirmation loop builds, which are the button of
    role [button] named "button" (what [args[0]] is for the two role
    tuples) and the selectors [button:has-text] for "Delete Post Only"
    and "Delete Post". None of them is a locator the image driver or
    the menu driver clicks through to delete an image. The statement is
    about locators: which element of the page a locator resolves to is
    the page's matter. *)
Theorem album_driver_uses_no_image_locator {S} (B : browser S)
    (href : string) (dry_run : bool) (w : world S) :
  classify href = Album ->
  exists new,
    trace (snd (delete_one B href dry_run w)) = (trace w ++ new)%list
    /\ Forall (fun e => is_goto e \/ album_event e = true) new
    /\ Forall (fun l => among album_controls l = true
                        /\ among image_deleting_controls l = false) (clicks new).
Proof.
  intros Hk.
  assert (emits (fun e => is_goto e \/ album_event e = true) (delete_one B href dry_run))
    as Hem.
  { unfold delete_one. rewrite Hk. apply emits_bind.
    - apply emits_safe_goto. left. eexists. reflexivity.
    - intros _. eapply emits_weaken_events; [|apply delete_album_events].
      intros e He. right. exact He. }
  destruct (Hem w) as (new & Hn & Hall). exists new. split; [exact Hn|].
  split; [exact Hall|].
  clear Hn. induction Hall as [|e new He _ IH]; [constructor|].
  destruct e; try exact IH.
  change (clicks (Click l :: new)) with (l :: clicks new).
  constructor; [|exact IH].
  destruct He as [[u Hu]|He]; [discriminate Hu|].
  cbn [album_event] in He. split; [exact He|].
  apply among_In in He. cbv [album_controls delete_post_controls Sel.delete_post_selectors
    Sel.confirmation_selectors map app] in He.
  repeat (destruct He as [<-|He]; [vm_compute; reflexivity|]). destruct He.
Qed.

Lemma album_driver_uses_no_image_locator_witness :
  exists new,
    trace (snd (delete_one (Scripted.engine (Scripted.plain [])) "/a/1" false
                  Scripted.start)) = ([] ++ new)%list
    /\ Forall (fun e => is_goto e \/ album_event e = true) new
    /\ Forall (fun l => among album_controls l = true
                        /\ among image_deleting_controls l = false) (clicks new).
Proof.
  exact (album_driver_uses_no_image_locator (Scripted.engine (Scripted.plain []))
           "/a/1" false Scripted.start eq_refl).
Defined.

(** X10: while it handles a post, [delete_one] sends the page nowhere
    but to that post's address, and it neither scrolls nor records an
    outcome: every event it adds is a navigation to
    [https://imgur.com] followed by the href, or a click. *)
Theorem delete_one_stays_on_its_post {S} (B : browser S)
    (href : string) (dry_run : bool) (w : world S) :
  exists new,
    trace (snd (delete_one B href dry_run w)) = (trace w ++ new)%list
    /\ Forall (post_event ("https://imgur.com" +:+ href)) new.
Proof. apply delete_one_post_events. Qed.

Section LiveMenu.
Context {S : Type} (B : browser S).

Lemma emits_anything {A} (m : M S A) (E : event -> Prop) :
  emits E m -> emits (fun _ => True) m.
Proof. apply emits_weaken_events. auto. Qed.

Lemma safe_click_emits_any l dry_run : emits (fun _ => True) (safe_click B l dry_run).
Proof. apply emits_safe_click. auto. Qed.

(** A stage "by selector, then by role" that answers [True] in live
    mode ends with the click of one of its controls. *)
Lemma selectors_then_role_live_true (sels : list string) (L : locator) (w w' : world S) :
  bind (first_success (fun sel => safe_click B (Css sel) false) sels)
       (fun c => or_else c (safe_click B L false)) w = (Ok true, w') ->
  exists l pre, In l (map Css sels ++ [L])%list
                /\ trace w' = (trace w ++ pre ++ [Click l])%list.
Proof.
  unfold bind at 1.
  destruct (first_success _ sels w) as [[[|]|e] w1] eqn:E1; try discriminate.
  - cbn [or_else]. intros [= <-].
    apply first_success_true in E1 as (sel & w0 & pre & Hin & Htr & Hok);
      [|intros sel; apply safe_click_emits_any].
    apply safe_click_live_true in Hok.
    exists (Css sel), pre. split; [apply in_or_app; left; apply in_map, Hin|].
    rewrite Hok, Htr, app_assoc. reflexivity.
  - cbn [or_else]. intros H. apply attempt_true in H.
    pose proof (emits_first_safe_click B (fun _ => True) Css sels false) as Hem.
    destruct (Hem ltac:(intros _; apply List.Forall_forall; auto) w) as (pre & Hpre & _).
    rewrite E1 in Hpre. cbn [snd] in Hpre.
    apply safe_click_live_true in H.
    exists L, pre. split; [apply in_or_app; right; left; reflexivity|].
    rewrite H, Hpre, app_assoc. reflexivity.
Qed.

Lemma scan_buttons_live_true (w w' : world S) :
  scan_buttons B false w = (Ok true, w') ->
  exists i pre, trace w' = (trace w ++ pre ++ [Click (NthOf "button" i)])%list.
Proof.
  unfold scan_buttons, bind at 1, prim.
  destruct (count_all B "button" (page w)) as [[n|e] p]; [|discriminate].
  intros H. apply first_success_true in H as (i & w0 & pre & _ & Htr & Hok).
  - revert Hok. unfold bind, prim.
    destruct (get_attribute B (NthOf "button" i) "aria-label" (page w0)) as [[a|e] p0];
      [|discriminate].
    match goal with |- (if ?c then _ else _) _ = _ -> _ => destruct c end;
      [|discriminate].
    intros Hok. apply safe_click_live_true in Hok. cbn [trace] in *.
    exists i, pre. rewrite Hok, Htr, app_assoc. reflexivity.
  - intros i. apply emits_bind; [apply emits_prim|]. intros a.
    match goal with |- emits _ (if ?c then _ else _) => destruct c end;
      [apply safe_click_emits_any|apply emits_ret].
Qed.

Lemma open_menu_live_true (w w' : world S) :
  open_menu B false w = (Ok true, w') ->
  exists l pre, is_menu_control l /\ trace w' = (trace w ++ pre ++ [Click l])%list.
Proof.
  unfold open_menu, bind at 1.
  destruct (first_success _ Sel.three_dots_selectors w) as [[[|]|e] w1] eqn:E1;
    try discriminate.
  - cbn [or_else]. intros [= <-].
    apply first_success_true in E1 as (sel & w0 & pre & Hin & Htr & Hok);
      [|intros sel; apply safe_click_emits_any].
    apply safe_click_live_true in Hok.
    exists (Css sel), pre. split; [left; apply in_map, Hin|].
    rewrite Hok, Htr, app_assoc. reflexivity.
  - cbn [or_else]. intros H. apply attempt_true in H.
    pose proof (emits_first_safe_click B (fun _ => True) Css Sel.three_dots_selectors false)
      as Hem.
    destruct (Hem ltac:(intros _; apply List.Forall_forall; auto) w) as (pre & Hpre & _).
    rewrite E1 in Hpre. cbn [snd] in Hpre.
    apply scan_buttons_live_true in H as (i & pre2 & H).
    exists (NthOf "button" i), (pre ++ pre2)%list. split; [right; eauto|].
    rewrite H, Hpre, <- !app_assoc. reflexivity.
Qed.

End LiveMenu.

(** X11: in live mode, for an href classified Other, [delete_one]
    reports [(true, 1)] only after it has clicked, in this order, a
    menu button, a "Delete image" entry and a "Delete from account"
    button. *)
Theorem live_menu_deletion_clicks {S} (B : browser S) (href : string) (w w' : world S) :
  classify href = Other ->
  delete_one B href false w = (Ok (true, 1), w') ->
  exists l1 l2 l3 t1 t2 t3 t4,
    trace w' = (trace w ++ t1 ++ Click l1 :: t2 ++ Click l2 :: t3 ++ Click l3 :: t4)%list
    /\ is_menu_control l1
    /\ In l2 delete_image_controls
    /\ In l3 delete_from_account_controls.
Proof.
  intros Hk. unfold delete_one, bind at 1. rewrite Hk.
  pose proof (emits_safe_goto B (fun _ => True) ("https://imgur.com" +:+ href) I w)
    as (t0 & Ht0 & _).
  destruct (safe_goto B _ w) as [[[]|e] w0]; [|discriminate]. cbn [snd] in Ht0.
  unfold delete_other, bind at 1.
  destruct (open_menu B false w0) as [[[|]|e] w1] eqn:E1; try discriminate.
  apply open_menu_live_true in E1 as (l1 & p1 & Hm & Ht1).
  unfold bind at 1.
  destruct (click_delete_image B false w1) as [[[|]|e] w2] eqn:E2; try discriminate.
  apply selectors_then_role_live_true in E2 as (l2 & p2 & Hl2 & Ht2).
  cbn [negb]. unfold bind at 1.
  destruct (click_delete_from_account B false w2) as [[[|]|e] w3] eqn:E3; try discriminate.
  apply selectors_then_role_live_true in E3 as (l3 & p3 & Hl3 & Ht3).
  intros Hfin.
  assert (emits (fun _ => True) (finish B ("https://imgur.com" +:+ href) false true)) as Hem.
  { unfold_drivers. emits_go ltac:(exact I). }
  destruct (Hem w3) as (t4 & Ht4 & _). rewrite Hfin in Ht4. cbn [snd] in Ht4.
  exists l1, l2, l3, (t0 ++ p1)%list, p2, p3, t4.
  split; [|auto].
  rewrite Ht4, Ht3, Ht2, Ht1, Ht0, <- !app_assoc. cbn [app]. reflexivity.
Qed.

Lemma live_menu_deletion_clicks_witness :
  exists l1 l2 l3 t1 t2 t3 t4,
    trace (snd (delete_one (Scripted.engine vanished) "/post/abc" false Scripted.start))
    = ([] ++ t1 ++ Click l1 :: t2 ++ Click l2 :: t3 ++ Click l3 :: t4)%list
    /\ is_menu_control l1
    /\ In l2 delete_image_controls
    /\ In l3 delete_from_account_controls.
Proof.
  refine (live_menu_deletion_clicks (Scripted.engine vanished) "/post/abc" Scripted.start
            (snd (delete_one (Scripted.engine vanished) "/post/abc" false Scripted.start))
            eq_refl _).
  vm_compute. reflexivity.
Defined.

(** ** The loop: accounting, return to the grid, termination *)

Lemma attempted_app tr1 tr2 : attempted (tr1 ++ tr2) = (attempted tr1 ++ attempted tr2)%list.
Proof. unfold attempted. apply flat_map_app. Qed.

Lemma scrolls_app tr1 tr2 :
  Scenario.scrolls_to_bottom (tr1 ++ tr2)
  = (Scenario.scrolls_to_bottom tr1 + Scenario.scrolls_to_bottom tr2)%nat.
Proof. unfold Scenario.scrolls_to_bottom. rewrite List.filter_app, List.length_app. reflexivity. Qed.

Lemma quiet_counts tr :
  Forall quiet tr -> attempted tr = [] /\ Scenario.scrolls_to_bottom tr = 0%nat.
Proof.
  induction 1 as [|e tr He _ [IH1 IH2]]; [split; reflexivity|].
  destruct e; cbn in He; try contradiction; split; assumption.
Qed.

Lemma quiet_back_to_grid grid tr : Forall quiet tr -> back_to_grid grid tr.
Proof.
  induction 1 as [|e tr He _ IH]; [exact I|].
  destruct e; cbn in He; try contradiction; exact IH.
Qed.

Lemma back_to_grid_app grid tr1 tr2 :
  back_to_grid grid tr1 -> back_to_grid grid tr2 -> back_to_grid grid (tr1 ++ tr2).
Proof.
  intros H1 H2. induction tr1 as [|e tr1 IH]; [exact H2|].
  destruct e; cbn [app back_to_grid] in *; try (apply IH, H1).
  destruct H1 as [Hnext H1]. split; [|apply IH, H1].
  destruct tr1 as [|[] tr1]; cbn [app]; try contradiction. exact Hnext.
Qed.

Section LoopMore.
Context {S : Type} (B : browser S).
Variables (username : string) (dry_run : bool) (cap : Z).

Local Abbreviation grid := (get_posts_url username).

Lemma select_all_tab_total : total (select_all_tab B).
Proof.
  unfold select_all_tab.
  apply total_bind; [apply total_attempt|]. intros [|]; [apply total_ret|].
  apply total_bind; [apply total_first_success|]. intros _. apply total_ret.
Qed.

Lemma select_all_tab_events :
  emits (fun e => exists l, e = Click l /\ In l all_tab_controls) (select_all_tab B).
Proof.
  unfold select_all_tab, click_if_visible, do_click, visible.
  emits_go ltac:(first
    [ eexists; split; [reflexivity|left; reflexivity]
    | eexists; split; [reflexivity|right; apply in_map; assumption]
    | eexists; split; [reflexivity|cbn; tauto] ]).
Qed.

Lemma select_all_tab_quiet : emits quiet (select_all_tab B).
Proof.
  eapply emits_weaken_events; [|apply select_all_tab_events].
  intros e (l & -> & _). exact I.
Qed.

(** [go_to_posts_all] first of all asks for the grid. *)
Lemma go_to_posts_all_starts (w : world S) :
  exists more,
    trace (snd (go_to_posts_all B username w)) = (trace w ++ Goto grid :: more)%list
    /\ Forall quiet more.
Proof.
  unfold go_to_posts_all, bind, safe_goto, catch, navigate, act, raise.
  destruct (goto B grid (page w)) as [[[]|[|]] p]; cbn [page trace snd].
  - match goal with |- context [select_all_tab B ?w1] =>
      destruct (select_all_tab_quiet w1) as (n & Hn & Hq);
      destruct (select_all_tab B w1) as [r w2] end.
    cbn [snd trace] in *. exists n. rewrite Hn, <- app_assoc. auto.
  - destruct (goto B grid p) as [[[]|e] p2]; cbn [page trace snd].
    + match goal with |- context [select_all_tab B ?w1] =>
        destruct (select_all_tab_quiet w1) as (n & Hn & Hq);
        destruct (select_all_tab B w1) as [r w2] end.
      cbn [snd trace] in *. exists (Goto grid :: n). rewrite Hn, <- !app_assoc.
      split; [reflexivity|]. constructor; [exact I|exact Hq].
    + exists [Goto grid]. rewrite <- app_assoc. split; [reflexivity|].
      repeat constructor.
  - exists []. split; [reflexivity|constructor].
Qed.

Lemma go_to_posts_all_quiet : emits quiet (go_to_posts_all B username).
Proof.
  intros w. destruct (go_to_posts_all_starts w) as (more & H & Hq).
  exists (Goto grid :: more). split; [exact H|]. constructor; [exact I|exact Hq].
Qed.

Lemma delete_one_quiet href : emits quiet (delete_one B href dry_run).
Proof.
  eapply emits_weaken_events; [|apply delete_one_post_events].
  intros e [->|[l ->]]; exact I.
Qed.

Lemma scroll_top_quiet : emits quiet (scroll_top B).
Proof. apply emits_act. exact I. Qed.

Lemma find_links_trace (w : world S) : trace (snd (find_links B w)) = trace w.
Proof.
  unfold find_links, bind, prim.
  destruct (anchors B Sel.post_anchor_selector (page w)) as [[l|e] p]; [|reflexivity].
  destruct (Extractor.find_post_links_sorted l); reflexivity.
Qed.

End LoopMore.

Section LoopTrace.
Context {S : Type} (B : browser S).
Variables (username : string) (dry_run : bool) (cap : Z).

Local Abbreviation grid := (get_posts_url username).
Local Abbreviation links_loop := (process_links B username dry_run cap).
Local Abbreviation while_loop := (main_loop B username dry_run cap).

Lemma quiet_step {A} (m : M S A) (w : world S) :
  emits quiet m ->
  exists n, trace (snd (m w)) = (trace w ++ n)%list
            /\ attempted n = [] /\ Scenario.scrolls_to_bottom n = 0%nat
            /\ forall g, back_to_grid g n.
Proof.
  intros Hm. destruct (Hm w) as (n & Hn & Hq). exists n.
  destruct (quiet_counts n Hq) as [H1 H2].
  repeat split; auto. intros g. apply quiet_back_to_grid, Hq.
Qed.

Lemma process_links_trace links p (w w' : world S) p' :
  links_loop links p w = (Ok p', w') ->
  exists new k,
    trace w' = (trace w ++ new)%list
    /\ attempted new = map Extractor.href (firstn k links)
    /\ p' = p + Z.of_nat k
    /\ (k <= List.length links)%nat
    /\ ((k < List.length links)%nat -> cap <= p')
    /\ Scenario.scrolls_to_bottom new = 0%nat.
Proof.
  revert p w. induction links as [|l rest IH]; intros p w; cbn [process_links].
  - intros [= <- <-]. exists [], 0%nat. rewrite app_nil_r.
    repeat split; cbn; try lia.
  - unfold bind at 1.
    destruct (quiet_step (delete_one B (Extractor.href l) dry_run) w
                (delete_one_quiet B dry_run _)) as (n1 & Hn1 & Ha1 & Hs1 & _).
    pose proof (delete_one_documented B (Extractor.href l) dry_run w) as Hdoc.
    destruct (delete_one B (Extractor.href l) dry_run w) as [[o|e] w1]; [|discriminate].
    cbn [fst snd] in *. specialize (Hdoc o eq_refl).
    destruct (account_documented p o Hdoc) as [Hacc _]. rewrite Hacc.
    unfold bind at 1, note at 1.
    set (w2 := {| page := page w1;
                  trace := (trace w1 ++ [Outcome (Extractor.href l) (fst o) (snd o)])%list |}).
    unfold bind at 1.
    destruct (quiet_step (go_to_posts_all B username) w2
                (go_to_posts_all_quiet B username)) as (n3 & Hn3 & Ha3 & Hs3 & _).
    destruct (go_to_posts_all B username w2) as [[[]|e] w3]; [|discriminate].
    unfold bind at 1.
    destruct (quiet_step (scroll_top B) w3 (scroll_top_quiet B)) as (n4 & Hn4 & Ha4 & Hs4 & _).
    destruct (scroll_top B w3) as [[[]|e] w4]; [|discriminate].
    cbn [fst snd] in *. subst w2. cbn [trace] in Hn3.
    assert (trace w4
            = (trace w ++ (n1 ++ [Outcome (Extractor.href l) (fst o) (snd o)] ++ n3 ++ n4))%list)
      as Htr by (rewrite Hn4, Hn3, Hn1, <- !app_assoc; reflexivity).
    assert (attempted (n1 ++ [Outcome (Extractor.href l) (fst o) (snd o)] ++ n3 ++ n4)
            = [Extractor.href l]) as Hatt
      by (rewrite !attempted_app, Ha1, Ha3, Ha4; reflexivity).
    assert (Scenario.scrolls_to_bottom
              (n1 ++ [Outcome (Extractor.href l) (fst o) (snd o)] ++ n3 ++ n4) = 0%nat)
      as Hscr by (rewrite !scrolls_app, Hs1, Hs3, Hs4; reflexivity).
    destruct (p + 1 >=? cap) eqn:Ecap.
    + intros [= <- <-]. eexists. exists 1%nat. split; [exact Htr|].
      split; [exact Hatt|]. cbn [List.length]. repeat split; try lia; try exact Hscr.
    + intros Hrest. destruct (IH _ _ Hrest) as (new & k & Hn & Ha & Hp & Hk & Hc & Hs).
      exists ((n1 ++ [Outcome (Extractor.href l) (fst o) (snd o)] ++ n3 ++ n4) ++ new)%list.
      exists (Datatypes.S k). split; [rewrite Hn, Htr, <- !app_assoc; reflexivity|].
      split; [rewrite attempted_app, Hatt, Ha; reflexivity|].
      cbn [List.length]. repeat split; try lia;
        try (rewrite scrolls_app, Hscr, Hs; reflexivity).
Qed.

(** Whatever happens, an outcome recorded is followed by the way back
    to the grid. *)
Lemma process_links_back_to_grid links p (w : world S) :
  exists new,
    trace (snd (links_loop links p w)) = (trace w ++ new)%list
    /\ back_to_grid grid new.
Proof.
  revert p w. induction links as [|l rest IH]; intros p w; cbn [process_links].
  - exists []. split; [symmetry; apply app_nil_r|exact I].
  - unfold bind at 1.
    destruct (quiet_step (delete_one B (Extractor.href l) dry_run) w
                (delete_one_quiet B dry_run _)) as (n1 & Hn1 & _ & _ & Hb1).
    destruct (delete_one B (Extractor.href l) dry_run w) as [[o|e] w1];
      [|exists n1; split; [exact Hn1|apply Hb1]].
    cbn [snd] in Hn1. unfold bind at 1, note at 1.
    set (ev := Outcome (Extractor.href l) (fst o) (snd o)).
    set (w2 := {| page := page w1; trace := (trace w1 ++ [ev])%list |}).
    destruct (go_to_posts_all_starts B username w2) as (n3 & Hn3 & Hq3).
    assert (forall tail, back_to_grid grid tail ->
              back_to_grid grid (n1 ++ ev :: Goto grid :: n3 ++ tail)) as Hshape.
    { intros tail Ht. apply back_to_grid_app; [apply Hb1|].
      cbn [back_to_grid]. split; [reflexivity|].
      apply back_to_grid_app; [apply quiet_back_to_grid, Hq3|exact Ht]. }
    assert (forall tail, (trace w ++ n1 ++ ev :: Goto grid :: n3 ++ tail)%list
                         = ((trace w2 ++ Goto grid :: n3) ++ tail)%list) as Hre.
    { intros tail. subst w2. cbn [trace]. rewrite Hn1, <- !app_assoc. reflexivity. }
    unfold bind at 1.
    destruct (go_to_posts_all B username w2) as [[[]|e] w3]; cbn [snd] in Hn3.
    + unfold bind at 1.
      destruct (quiet_step (scroll_top B) w3 (scroll_top_quiet B)) as (n4 & Hn4 & _ & _ & Hb4).
      destruct (scroll_top B w3) as [[[]|e] w4]; cbn [snd] in Hn4.
      * destruct (account p o >=? cap).
        -- exists (n1 ++ ev :: Goto grid :: n3 ++ n4)%list.
           split; [rewrite Hre, <- Hn3; exact Hn4|apply Hshape, Hb4].
        -- destruct (IH (account p o) w4) as (new & Hn & Hb).
           exists (n1 ++ ev :: Goto grid :: n3 ++ n4 ++ new)%list.
           split; [|apply Hshape, back_to_grid_app; [apply Hb4|exact Hb]].
           rewrite Hn, Hn4, Hre, <- Hn3, <- !app_assoc. reflexivity.
      * exists (n1 ++ ev :: Goto grid :: n3 ++ n4)%list.
        split; [rewrite Hre, <- Hn3; exact Hn4|apply Hshape, Hb4].
    + exists (n1 ++ ev :: Goto grid :: n3 ++ [])%list.
      split; [rewrite Hre, app_nil_r; exact Hn3|apply Hshape; exact I].
Qed.

End LoopTrace.

Section WhileTrace.
Context {S : Type} (B : browser S).
Variables (username : string) (dry_run : bool) (cap : Z).

Local Abbreviation grid := (get_posts_url username).
Local Abbreviation links_loop := (process_links B username dry_run cap).
Local Abbreviation while_loop := (main_loop B username dry_run cap).

Lemma pull_more_trace seen (w w' : world S) h r :
  pull_more B seen w = (Ok (h, r), w') ->
  (exists p, scroll_height B (page w) = (Ok h, p))
  /\ match r with
     | None => h ∈ seen /\ trace w' = trace w
     | Some seen' =>
         (h ∉ seen) /\ (seen' = {[h]} ∪ seen)
         /\ trace w' = (trace w ++ [ScrollBottom])%list
     end.
Proof.
  unfold pull_more, bind, read_scroll_height, prim, scroll_bottom, act, ret.
  destruct (scroll_height B (page w)) as [[h0|e] p]; [|discriminate].
  destruct (decide (h0 ∈ seen)) as [Hin|Hout].
  - intros [= <- <- <-]. split; [eauto|]. split; [exact Hin|reflexivity].
  - cbn [page trace].
    destruct (scroll_to_bottom B p) as [[[]|e] p2]; [|discriminate].
    intros [= <- <- <-]. split; [eauto|]. repeat split; auto.
Qed.

Lemma pull_more_any seen (w : world S) :
  exists n, trace (snd (pull_more B seen w)) = (trace w ++ n)%list
            /\ forall g, back_to_grid g n.
Proof.
  unfold pull_more, bind, read_scroll_height, prim, scroll_bottom, act, ret.
  destruct (scroll_height B (page w)) as [[h0|e] p]; cbn [snd trace];
    [|exists []; split; [symmetry; apply app_nil_r|intros; exact I]].
  destruct (decide (h0 ∈ seen));
    [exists []; split; [symmetry; apply app_nil_r|intros; exact I]|].
  cbn [page trace].
  destruct (scroll_to_bottom B p) as [[[]|e] p2]; cbn [snd trace];
    exists [ScrollBottom]; split; try reflexivity; intros; exact I.
Qed.

Lemma size_add_new (h : Z) (seen : gset Z) :
  h ∉ seen -> size ({[h]} ∪ seen) = Datatypes.S (size seen).
Proof.
  intros H. rewrite size_union by set_solver. rewrite size_singleton. reflexivity.
Qed.

Lemma main_loop_trace fuel rs (w w' : world S) f :
  while_loop fuel rs w = (Ok (Some f), w') ->
  exists new,
    trace w' = (trace w ++ new)%list
    /\ processed (at_exit f) = processed rs + Z.of_nat (List.length (attempted new))
    /\ size (seen_heights (at_exit f))
       = (size (seen_heights rs) + Scenario.scrolls_to_bottom new)%nat.
Proof.
  revert rs w. induction fuel as [|fuel IH]; intros rs w; cbn [main_loop]; [discriminate|].
  destruct (negb (processed rs <? cap)).
  - intros [= <- <-]. exists []. rewrite app_nil_r. cbn. repeat split; lia.
  - unfold bind at 1.
    pose proof (find_links_trace B w) as Hfl.
    destruct (find_links B w) as [[[|l links]|e] w1]; cbn [snd] in Hfl; [| |discriminate].
    + unfold bind at 1.
      destruct (pull_more B (seen_heights rs) w1) as [[[h [seen'|]]|e] w2] eqn:Epm;
        try discriminate; apply pull_more_trace in Epm as (_ & Hpm).
      * destruct Hpm as (Hout & -> & Htr). intros Hrest.
        destruct (IH _ _ Hrest) as (new & Hn & Hp & Hs). cbn [processed seen_heights] in *.
        exists (ScrollBottom :: new). split; [rewrite Hn, Htr, Hfl, <- app_assoc; reflexivity|].
        split; [exact Hp|]. rewrite Hs, size_add_new by exact Hout.
        change (ScrollBottom :: new) with ([ScrollBottom] ++ new)%list.
        rewrite scrolls_app. cbn. lia.
      * destruct Hpm as (_ & Htr). intros [= <- <-]. exists [].
        rewrite app_nil_r, Htr, Hfl. cbn. repeat split; lia.
    + unfold bind at 1.
      destruct (links_loop (l :: links) (processed rs) w1) as [[p|e] w2] eqn:Epl;
        [|discriminate].
      apply process_links_trace in Epl as (n1 & k & Hn1 & Ha1 & Hp1 & Hk & _ & Hs1).
      assert (List.length (attempted n1) = k) as Hlen
        by (rewrite Ha1, List.length_map; apply List.firstn_length_le, Hk).
      unfold bind at 1.
      destruct (pull_more B (seen_heights rs) w2) as [[[h [seen'|]]|e] w3] eqn:Epm;
        try discriminate; apply pull_more_trace in Epm as (_ & Hpm).
      * destruct Hpm as (Hout & -> & Htr). intros Hrest.
        destruct (IH _ _ Hrest) as (new & Hn & Hp & Hs). cbn [processed seen_heights] in *.
        exists (n1 ++ ScrollBottom :: new)%list.
        split; [rewrite Hn, Htr, Hn1, Hfl, <- !app_assoc; reflexivity|].
        rewrite attempted_app, List.length_app, scrolls_app.
        change (ScrollBottom :: new) with ([ScrollBottom] ++ new)%list.
        rewrite attempted_app, scrolls_app, Hs, Hs1, size_add_new by exact Hout.
        cbn. split; lia.
      * destruct Hpm as (_ & Htr). intros [= <- <-]. exists n1.
        split; [rewrite Htr, Hn1, Hfl; reflexivity|].
        cbn [processed seen_heights at_exit]. split; lia.
Qed.

Lemma main_loop_back_to_grid fuel rs (w : world S) :
  exists new,
    trace (snd (while_loop fuel rs w)) = (trace w ++ new)%list
    /\ back_to_grid grid new.
Proof.
  revert rs w. induction fuel as [|fuel IH]; intros rs w; cbn [main_loop];
    [exists []; split; [symmetry; apply app_nil_r|exact I]|].
  destruct (negb (processed rs <? cap));
    [exists []; split; [symmetry; apply app_nil_r|exact I]|].
  unfold bind at 1.
  pose proof (find_links_trace B w) as Hfl.
  destruct (find_links B w) as [[[|l links]|e] w1]; cbn [snd] in Hfl;
    [| |exists []; rewrite app_nil_r; split; [exact Hfl|exact I]].
  - unfold bind at 1.
    destruct (pull_more_any (seen_heights rs) w1) as (n2 & Hn2 & Hb2).
    destruct (pull_more B (seen_heights rs) w1) as [[[h [seen'|]]|e] w2]; cbn [snd] in Hn2;
      try (exists n2; rewrite <- Hfl; split; [exact Hn2|apply Hb2]).
    match goal with |- context [while_loop fuel ?rs' w2] =>
      destruct (IH rs' w2) as (new & Hn & Hb) end.
    exists (n2 ++ new)%list. split; [rewrite Hn, Hn2, Hfl, app_assoc; reflexivity|].
    apply back_to_grid_app; [apply Hb2|exact Hb].
  - unfold bind at 1.
    destruct (process_links_back_to_grid B username dry_run cap (l :: links) (processed rs) w1)
      as (n1 & Hn1 & Hb1).
    destruct (links_loop (l :: links) (processed rs) w1) as [[p|e] w2]; cbn [snd] in Hn1;
      [|exists n1; rewrite <- Hfl; split; [exact Hn1|exact Hb1]].
    unfold bind at 1.
    destruct (pull_more_any (seen_heights rs) w2) as (n2 & Hn2 & Hb2).
    assert (back_to_grid grid (n1 ++ n2)) as Hb12
      by (apply back_to_grid_app; [exact Hb1|apply Hb2]).
    destruct (pull_more B (seen_heights rs) w2) as [[[h [seen'|]]|e] w3]; cbn [snd] in Hn2;
      try (exists (n1 ++ n2)%list; unfold ret; cbn [snd];
           split; [rewrite Hn2, Hn1, Hfl, app_assoc; reflexivity|exact Hb12]).
    match goal with |- context [while_loop fuel ?rs' w3] =>
      destruct (IH rs' w3) as (new & Hn & Hb) end.
    exists ((n1 ++ n2) ++ new)%list.
    split; [rewrite Hn, Hn2, Hn1, Hfl, <- !app_assoc; reflexivity|].
    apply back_to_grid_app; [exact Hb12|exact Hb].
Qed.

End WhileTrace.

(** ** The counter, link by link *)

Lemma gained_app tr1 tr2 : gained (tr1 ++ tr2) = gained tr1 + gained tr2.
Proof.
  induction tr1 as [|e tr1 IH]; [reflexivity|].
  cbn [app gained fold_right]. fold (gained (tr1 ++ tr2)). fold (gained tr1).
  rewrite IH. destruct e; lia.
Qed.

Lemma gained_quiet tr : Forall quiet tr -> gained tr = 0.
Proof.
  induction 1 as [|e tr He _ IH]; [reflexivity|].
  destruct e; cbn in He; try contradiction; exact IH.
Qed.

Section Accumulation.
Context {S : Type} (B : browser S).
Variables (username : string) (dry_run : bool) (cap : Z).

Local Abbreviation links_loop := (process_links B username dry_run cap).
Local Abbreviation while_loop := (main_loop B username dry_run cap).

(** The first link of a pass: [delete_one] answers [o], the counter
    becomes [p + increment (snd o)], the page goes back to the grid,
    and the loop breaks at the cap or goes on with the rest from that
    counter. *)
Lemma process_links_step l rest p (w w' : world S) p' :
  links_loop (l :: rest) p w = (Ok p', w') ->
  exists o w1 w2,
    delete_one B (Extractor.href l) dry_run w = (Ok o, w1)
    /\ bind (note (Outcome (Extractor.href l) (fst o) (snd o)))
           (fun _ => bind (go_to_posts_all B username) (fun _ => scroll_top B)) w1
       = (Ok tt, w2)
    /\ (if p + increment (snd o) >=? cap
        then p' = p + increment (snd o) /\ w' = w2
        else links_loop rest (p + increment (snd o)) w2 = (Ok p', w')).
Proof.
  cbn [process_links]. unfold bind at 1.
  pose proof (delete_one_documented B (Extractor.href l) dry_run w) as Hdoc.
  destruct (delete_one B (Extractor.href l) dry_run w) as [[o|e] w1]; [|discriminate].
  cbn [fst] in Hdoc. specialize (Hdoc o eq_refl).
  destruct (account_documented p o Hdoc) as [_ Hacc]. rewrite Hacc.
  fold (increment (snd o)).
  intros H. exists o, w1. revert H. unfold bind, note.
  match goal with |- context [go_to_posts_all B username ?w2] =>
    destruct (go_to_posts_all B username w2) as [[[]|e] w3] end; [|discriminate].
  destruct (scroll_top B w3) as [[[]|e] w4]; [|discriminate].
  intros H. exists w4. split; [reflexivity|]. split; [reflexivity|].
  destruct (p + increment (snd o) >=? cap).
  - revert H. unfold ret. intros [= <- <-]. split; reflexivity.
  - exact H.
Qed.

(** Over a pass the counter grows by the increments of the outcomes
    the pass recorded. *)
Lemma process_links_gained links p (w w' : world S) p' :
  links_loop links p w = (Ok p', w') ->
  exists new, trace w' = (trace w ++ new)%list /\ p' = p + gained new.
Proof.
  revert p w. induction links as [|l rest IH]; intros p w H.
  - revert H. cbn [process_links]. unfold ret. intros [= <- <-].
    exists []. rewrite app_nil_r. split; [reflexivity|cbn; lia].
  - apply process_links_step in H as (o & w1 & w2 & Hone & Hback & Hrest).
    destruct (delete_one_quiet B dry_run (Extractor.href l) w) as (n1 & Hn1 & Hq1).
    rewrite Hone in Hn1. cbn [snd] in Hn1.
    revert Hback. unfold bind at 1, note at 1.
    set (w1' := {| page := page w1;
                   trace := (trace w1 ++ [Outcome (Extractor.href l) (fst o) (snd o)])%list |}).
    unfold bind at 1.
    destruct (go_to_posts_all_quiet B username w1') as (n3 & Hn3 & Hq3).
    destruct (go_to_posts_all B username w1') as [[[]|e] w3]; [|discriminate].
    destruct (scroll_top_quiet B w3) as (n4 & Hn4 & Hq4).
    intros Hscroll. rewrite Hscroll in Hn4. cbn [snd] in Hn3, Hn4.
    subst w1'. cbn [trace] in Hn3.
    set (one := (n1 ++ [Outcome (Extractor.href l) (fst o) (snd o)] ++ n3 ++ n4)%list).
    assert (trace w2 = (trace w ++ one)%list) as Htr
      by (subst one; rewrite Hn4, Hn3, Hn1, <- !app_assoc; reflexivity).
    assert (gained one = increment (snd o)) as Hg.
    { subst one. rewrite !gained_app, (gained_quiet n1 Hq1), (gained_quiet n3 Hq3),
        (gained_quiet n4 Hq4). cbn [gained fold_right]. lia. }
    destruct (p + increment (snd o) >=? cap).
    + destruct Hrest as [-> ->]. exists one. split; [exact Htr|]. rewrite Hg. reflexivity.
    + destruct (IH _ _ Hrest) as (new & Hn & Hp).
      exists (one ++ new)%list. split; [rewrite Hn, Htr, <- app_assoc; reflexivity|].
      rewrite gained_app, Hg, Hp. lia.
Qed.

Lemma read_scroll_height_trace (w w' : world S) r :
  read_scroll_height B w = (r, w') -> trace w' = trace w.
Proof.
  unfold read_scroll_height, prim.
  destruct (scroll_height B (page w)) as [r0 p0]. intros [= _ <-]. reflexivity.
Qed.

Lemma scroll_bottom_trace (w w' : world S) r :
  scroll_bottom B w = (r, w') -> trace w' = (trace w ++ [ScrollBottom])%list.
Proof.
  unfold scroll_bottom, act.
  destruct (scroll_to_bottom B (page w)) as [r0 p0]. intros [= _ <-]. reflexivity.
Qed.

Lemma ends_gained rs (w w' : world S) f :
  ends B username dry_run cap rs w f w' ->
  exists new, trace w' = (trace w ++ new)%list
              /\ processed (at_exit f) = processed rs + gained new.
Proof.
  intros H. destruct H as [rs w Hcap|rs w w1 h w2 Hlt Hfind Hh Hin
                           |rs w l links w1 p w2 h w3 Hlt Hfind Hp Hh Hin].
  - exists []. rewrite app_nil_r. split; [reflexivity|cbn; lia].
  - exists []. rewrite app_nil_r. split; [|cbn; lia].
    rewrite (read_scroll_height_trace _ _ _ Hh).
    pose proof (find_links_trace B w) as Hfl. rewrite Hfind in Hfl. exact Hfl.
  - destruct (process_links_gained _ _ _ _ _ Hp) as (new & Hn & Hg).
    exists new. split; [|exact Hg].
    rewrite (read_scroll_height_trace _ _ _ Hh), Hn.
    pose proof (find_links_trace B w) as Hfl. rewrite Hfind in Hfl. cbn [snd] in Hfl.
    rewrite Hfl. reflexivity.
Qed.

Lemma continues_gained rs (w w' : world S) rs' :
  continues B username dry_run cap rs w rs' w' ->
  exists new, trace w' = (trace w ++ new)%list
              /\ processed rs' = processed rs + gained new.
Proof.
  intros H. destruct H as [rs w w1 h w2 w3 Hlt Hfind Hh Hout Hscroll
                           |rs w l links w1 p w2 h w3 w4 Hlt Hfind Hp Hh Hout Hscroll].
  - exists [ScrollBottom]. split; [|cbn; lia].
    rewrite (scroll_bottom_trace _ _ _ Hscroll), (read_scroll_height_trace _ _ _ Hh).
    pose proof (find_links_trace B w) as Hfl. rewrite Hfind in Hfl. cbn [snd] in Hfl.
    rewrite Hfl. reflexivity.
  - destruct (process_links_gained _ _ _ _ _ Hp) as (new & Hn & Hg).
    exists (new ++ [ScrollBottom])%list. split.
    + rewrite (scroll_bottom_trace _ _ _ Hscroll), (read_scroll_height_trace _ _ _ Hh), Hn.
      pose proof (find_links_trace B w) as Hfl. rewrite Hfind in Hfl. cbn [snd] in Hfl.
      rewrite Hfl, <- app_assoc. reflexivity.
    + rewrite gained_app. cbn [gained fold_right processed]. lia.
Qed.

(** Over the whole loop the counter grows by the increments of the
    outcomes recorded. *)
Lemma main_loop_gained fuel rs (w w' : world S) f :
  while_loop fuel rs w = (Ok (Some f), w') ->
  exists new, trace w' = (trace w ++ new)%list
              /\ processed (at_exit f) = processed rs + gained new.
Proof.
  intros H. apply main_loop_some in H as (n & rs' & w0 & _ & Hpasses & Hend).
  induction Hpasses as [rs w|n rs w rs1 w1 rs2 w2 Hstep _ IH].
  - apply ends_gained, Hend.
  - destruct (IH Hend) as (new & Hn & Hg).
    destruct (continues_gained _ _ _ _ Hstep) as (one & Hone & Hg1).
    exists (one ++ new)%list. split; [rewrite Hn, Hone, <- app_assoc; reflexivity|].
    rewrite gained_app, Hg, Hg1. lia.
Qed.

(** Once a pass has brought the counter to the cap, the loop is left
    at the end of that pass or at its next test. *)
Lemma main_loop_after_cap fuel rs (w : world S) l links w1 p w2 r w3 :
  processed rs < cap ->
  find_links B w = (Ok (l :: links), w1) ->
  links_loop (l :: links) (processed rs) w1 = (Ok p, w2) ->
  cap <= p ->
  pull_more B (seen_heights rs) w2 = (Ok r, w3) ->
  exists f, while_loop (Datatypes.S (Datatypes.S fuel)) rs w = (Ok (Some f), w3)
            /\ processed (at_exit f) = p.
Proof.
  intros Hlt Hfind Hp Hcap. unfold pull_more, bind.
  destruct (read_scroll_height B w2) as [[h|e] w2'] eqn:Hh; [|discriminate].
  destruct (decide (h ∈ seen_heights rs)) as [Hin|Hout].
  - unfold ret. intros [= <- <-]. eexists. split.
    + apply main_loop_ends. eapply ends_no_further_content; eassumption.
    + reflexivity.
  - destruct (scroll_bottom B w2') as [[[]|e] w4] eqn:Hscroll; [|discriminate].
    unfold ret. intros [= <- <-]. eexists. split.
    + rewrite (main_loop_continues B username dry_run cap (Datatypes.S fuel) rs w
                 {| processed := p; seen_heights := {[h]} ∪ seen_heights rs |} w4).
      * apply main_loop_ends, ends_cap_reached. exact Hcap.
      * eapply continues_with_links; eassumption.
    + reflexivity.
Qed.

End Accumulation.

(** C3: [processed] never decreases, neither over the links of a pass
    nor over the passes of the loop, and it accumulates link by link:
    for the first link of a pass [delete_one] is run on its href, the
    counter grows by [images_deleted] when that is not zero and by 1
    otherwise (a successful album ungroup and a failed attempt each
    count for one), and the rest of the pass starts from the counter so
    grown; so over a pass, and over the whole loop, the counter grows
    by the sum of these increments over the outcomes recorded. The loop
    stops once [processed >= cap]: the [for] loop stops after the link
    that reaches the cap, and the [while] loop is left at the end of
    that pass or at its next test. This holds for every cap, so for
    every cap of at least 1. *)
Theorem processed_monotone_until_cap {S} (B : browser S)
    (username : string) (dry_run : bool) (cap : Z) :
  (forall href p w o,
      fst (delete_one B href dry_run w) = Ok o ->
      account p o = p + (if snd o =? 0 then 1 else snd o) /\ p < account p o)
  /\ (forall links p w p',
        fst (process_links B username dry_run cap links p w) = Ok p' -> p <= p')
  /\ (forall fuel rs w f,
        fst (main_loop B username dry_run cap fuel rs w) = Ok (Some f) ->
        processed rs <= processed (at_exit f))
  /\ (forall l rest p w w1 p1,
        process_links B username dry_run cap [l] p w = (Ok p1, w1) -> cap <= p1 ->
        process_links B username dry_run cap (l :: rest) p w = (Ok p1, w1))
  /\ (forall fuel rs w,
        cap <= processed rs ->
        main_loop B username dry_run cap (Datatypes.S fuel) rs w
        = (Ok (Some {| how := CapReached; at_exit := rs |}), w))
  /\ (forall l rest p w p' w',
        process_links B username dry_run cap (l :: rest) p w = (Ok p', w') ->
        exists o w1 w2,
          delete_one B (Extractor.href l) dry_run w = (Ok o, w1)
          /\ bind (note (Outcome (Extractor.href l) (fst o) (snd o)))
                 (fun _ => bind (go_to_posts_all B username) (fun _ => scroll_top B)) w1
             = (Ok tt, w2)
          /\ p < p + increment (snd o)
          /\ (if p + increment (snd o) >=? cap
              then p' = p + increment (snd o) /\ w' = w2
              else process_links B username dry_run cap rest (p + increment (snd o)) w2
                   = (Ok p', w')))
  /\ (forall links p w p' w',
        process_links B username dry_run cap links p w = (Ok p', w') ->
        exists new,
          trace w' = (trace w ++ new)%list
          /\ p' = p + gained new
          /\ (links <> [] -> p < p'))
  /\ (forall fuel rs w f w',
        main_loop B username dry_run cap fuel rs w = (Ok (Some f), w') ->
        exists new,
          trace w' = (trace w ++ new)%list
          /\ processed (at_exit f) = processed rs + gained new)
  /\ (forall fuel rs w l links w1 p w2 h w3 w4,
        processed rs < cap ->
        find_links B w = (Ok (l :: links), w1) ->
        process_links B username dry_run cap (l :: links) (processed rs) w1 = (Ok p, w2) ->
        read_scroll_height B w2 = (Ok h, w3) ->
        h ∉ seen_heights rs ->
        scroll_bottom B w3 = (Ok tt, w4) ->
        main_loop B username dry_run cap (Datatypes.S fuel) rs w
        = main_loop B username dry_run cap fuel
            {| processed := p; seen_heights := {[h]} ∪ seen_heights rs |} w4)
  /\ (forall fuel rs w l links w1 p w2 r w3,
        processed rs < cap ->
        find_links B w = (Ok (l :: links), w1) ->
        process_links B username dry_run cap (l :: links) (processed rs) w1 = (Ok p, w2) ->
        cap <= p ->
        pull_more B (seen_heights rs) w2 = (Ok r, w3) ->
        exists f,
          main_loop B username dry_run cap (Datatypes.S (Datatypes.S fuel)) rs w
          = (Ok (Some f), w3)
          /\ processed (at_exit f) = p).
Proof.
  split; [|split; [|split; [|split; [|split; [|split; [|split; [|split; [|split]]]]]]]].
  - intros href p w o Ho.
    pose proof (delete_one_documented B href dry_run w o Ho) as Hd.
    destruct (account_documented p o Hd) as [H1 H2]. split; [exact H2|lia].
  - intros links p w p' Hp.
    apply (process_links_progress B username dry_run cap links p w p' Hp).
  - intros fuel rs w f Hf.
    apply (main_loop_exit B username dry_run cap fuel rs w (Some f) Hf).
  - intros l rest p w w1 p1. apply process_links_break.
  - intros fuel rs w Hcap. apply main_loop_ends, ends_cap_reached. exact Hcap.
  - intros l rest p w p' w' H.
    destruct (process_links_step B username dry_run cap _ _ _ _ _ _ H)
      as (o & w1 & w2 & Hone & Hback & Hrest).
    exists o, w1, w2. split; [exact Hone|]. split; [exact Hback|]. split; [|exact Hrest].
    unfold increment. destruct (snd o =? 0) eqn:E; [lia|].
    pose proof (delete_one_documented B (Extractor.href l) dry_run w o) as Hd.
    rewrite Hone in Hd. specialize (Hd eq_refl).
    destruct Hd as [ -> | [ -> | -> ] ]; cbn in *; lia.
  - intros links p w p' w' H.
    destruct (process_links_gained B username dry_run cap _ _ _ _ _ H) as (new & Hn & Hg).
    exists new. split; [exact Hn|]. split; [exact Hg|].
    pose proof (process_links_progress B username dry_run cap links p w p') as Hpr.
    rewrite H in Hpr. apply (Hpr eq_refl).
  - intros fuel rs w f w'. apply main_loop_gained.
  - intros fuel rs w l links w1 p w2 h w3 w4 Hlt Hfind Hp Hh Hout Hscroll.
    apply main_loop_continues. eapply continues_with_links; eassumption.
  - intros fuel rs w l links w1 p w2 r w3. apply main_loop_after_cap.
Qed.

Lemma processed_monotone_until_cap_witness :
  (exists p' w',
     process_links (Scripted.engine (Scripted.plain Scenario.grid_xy)) "user" true 3
       [ {| Extractor.href := "/a/1"; Extractor.x := 0; Extractor.y := 0 |};
         {| Extractor.href := "/IMAGE01"; Extractor.x := 0; Extractor.y := 150 |} ]
       0 Scripted.start = (Ok p', w')
     /\ p' = 2
     /\ exists new, trace w' = (trace Scripted.start ++ new)%list
                    /\ p' = 0 + gained new
                    /\ 0 < p')
  /\ main_loop (Scripted.engine (Scripted.plain Scenario.grid_xy)) "user" true 3 1
       {| processed := 3; seen_heights := ∅ |} Scripted.start
     = (Ok (Some {| how := CapReached; at_exit := {| processed := 3; seen_heights := ∅ |} |}),
        Scripted.start)
  /\ account 2 (true, 0) = 2 + 1.
Proof.
  destruct (processed_monotone_until_cap
              (Scripted.engine (Scripted.plain Scenario.grid_xy)) "user" true 3)
    as (Hacc & _ & _ & _ & Hcap & _ & Hsum & _).
  split; [|split].
  - set (pass := process_links (Scripted.engine (Scripted.plain Scenario.grid_xy))
                   "user" true 3
                   [ {| Extractor.href := "/a/1"; Extractor.x := 0; Extractor.y := 0 |};
                     {| Extractor.href := "/IMAGE01"; Extractor.x := 0;
                        Extractor.y := 150 |} ]
                   0 Scripted.start).
    assert (pass = (Ok 2, snd pass)) as E by (vm_compute; reflexivity).
    exists 2, (snd pass). split; [exact E|]. split; [reflexivity|].
    destruct (Hsum _ _ _ _ _ E) as (new & Hn & Hg & Hlt).
    exists new. split; [exact Hn|]. split; [exact Hg|]. apply Hlt. discriminate.
  - apply (Hcap 0%nat {| processed := 3; seen_heights := ∅ |} Scripted.start).
    cbn. lia.
  - apply (Hacc "/a/1" 2 Scripted.start (true, 0)). vm_compute. reflexivity.
Defined.


Lemma extends_refl_trace {S} (E : event -> Prop) (w w' : world S) :
  trace w' = trace w -> extends E w w'.
Proof. intros H. exists []. rewrite app_nil_r. split; [exact H|constructor]. Qed.

Lemma go_to_posts_all_events {S} (B : browser S) (username : string) :
  emits (fun ev => ev = Goto (get_posts_url username)
                   \/ exists l, ev = Click l /\ In l all_tab_controls)
        (go_to_posts_all B username).
Proof.
  unfold go_to_posts_all. apply emits_bind.
  - apply emits_safe_goto. left. reflexivity.
  - intros _. eapply emits_weaken_events; [|apply select_all_tab_events].
    intros ev H. right. exact H.
Qed.

(** X12: going back to the grid fails only as its navigation does:
    [go_to_posts_all] raises exactly when [safe_goto] raises, the
    selection of the "All" tab never does; and besides navigating to
    the posts page it clicks nothing but controls of the "All" tab. *)
Theorem go_to_posts_all_errors_and_clicks {S} (B : browser S)
    (username : string) (w : world S) :
  (forall e, fst (go_to_posts_all B username w) = Raise e <->
             fst (safe_goto B (get_posts_url username) w) = Raise e)
  /\ exists new,
       trace (snd (go_to_posts_all B username w)) = (trace w ++ new)%list
       /\ Forall (fun ev => ev = Goto (get_posts_url username)
                            \/ exists l, ev = Click l /\ In l all_tab_controls) new.
Proof.
  split.
  - intros e. unfold go_to_posts_all, bind.
    destruct (safe_goto B (get_posts_url username) w) as [[[]|e'] w1]; cbn [fst].
    + destruct (select_all_tab_total B w1) as [[] Ht]. rewrite Ht.
      split; discriminate.
    + reflexivity.
  - apply go_to_posts_all_events.
Qed.

(** X13: a pass over the links processes them in the order extracted,
    none skipped and none twice: the hrefs with a recorded outcome are
    the first [k] links, [processed] has grown by [k], the pass stops
    before the last link only when the cap is reached, and it never
    scrolls to the bottom. *)
Theorem process_links_in_order {S} (B : browser S)
    (username : string) (dry_run : bool) (cap : Z)
    (links : list Extractor.item) (p p' : Z) (w w' : world S) :
  process_links B username dry_run cap links p w = (Ok p', w') ->
  exists new k,
    trace w' = (trace w ++ new)%list
    /\ attempted new = map Extractor.href (firstn k links)
    /\ p' = p + Z.of_nat k
    /\ (k <= List.length links)%nat
    /\ ((k < List.length links)%nat -> cap <= p')
    /\ Scenario.scrolls_to_bottom new = 0%nat.
Proof. apply process_links_trace. Qed.

Lemma process_links_in_order_witness :
  exists new k,
    trace (snd (process_links (Scripted.engine (Scripted.plain Scenario.grid_xy)) "user" true 2
                  [ {| Extractor.href := "/a/1"; Extractor.x := 0; Extractor.y := 0 |};
                    {| Extractor.href := "/gallery/2"; Extractor.x := 150; Extractor.y := 0 |};
                    {| Extractor.href := "/IMAGE01"; Extractor.x := 0; Extractor.y := 150 |} ]
                  0 Scripted.start))
    = ([] ++ new)%list
    /\ attempted new = ["/a/1"; "/gallery/2"]
    /\ k = 2%nat.
Proof.
  destruct (process_links_in_order (Scripted.engine (Scripted.plain Scenario.grid_xy))
              "user" true 2
              [ {| Extractor.href := "/a/1"; Extractor.x := 0; Extractor.y := 0 |};
                {| Extractor.href := "/gallery/2"; Extractor.x := 150; Extractor.y := 0 |};
                {| Extractor.href := "/IMAGE01"; Extractor.x := 0; Extractor.y := 150 |} ]
              0 2 Scripted.start
              (snd (process_links (Scripted.engine (Scripted.plain Scenario.grid_xy)) "user"
                      true 2
                      [ {| Extractor.href := "/a/1"; Extractor.x := 0; Extractor.y := 0 |};
                        {| Extractor.href := "/gallery/2"; Extractor.x := 150;
                           Extractor.y := 0 |};
                        {| Extractor.href := "/IMAGE01"; Extractor.x := 0;
                           Extractor.y := 150 |} ]
                      0 Scripted.start))
              ltac:(vm_compute; reflexivity))
    as (new & k & Hn & Ha & Hp & _).
  assert (k = 2%nat) as Hk by lia.
  exists new, k. subst k. split; [exact Hn|]. split; [exact Ha|reflexivity].
Defined.

(** X14: the count a run ends with is the number of links it
    attempted: [processed] at the exit equals the number of outcomes
    recorded, successes and failures alike. *)
Theorem processed_counts_attempts {S} (B : browser S)
    (username : string) (dry_run : bool) (cap : Z) (fuel : nat)
    (w w' : world S) (f : final) :
  run B username dry_run cap fuel w = (Ok (Some f), w') ->
  exists new,
    trace w' = (trace w ++ new)%list
    /\ processed (at_exit f) = Z.of_nat (List.length (attempted new)).
Proof.
  unfold run, bind at 1.
  destruct (quiet_step (go_to_posts_all B username) w (go_to_posts_all_quiet B username))
    as (n1 & Hn1 & Ha1 & _).
  destruct (go_to_posts_all B username w) as [[[]|e] w1]; [|discriminate].
  unfold bind at 1.
  destruct (quiet_step (scroll_top B) w1 (scroll_top_quiet B)) as (n2 & Hn2 & Ha2 & _).
  destruct (scroll_top B w1) as [[[]|e] w2]; [|discriminate].
  cbn [snd] in *. intros Hloop.
  apply main_loop_trace in Hloop as (n3 & Hn3 & Hp & _). cbn [processed] in Hp.
  exists (n1 ++ n2 ++ n3)%list.
  split; [rewrite Hn3, Hn2, Hn1, <- !app_assoc; reflexivity|].
  rewrite !attempted_app, Ha1, Ha2. cbn [app]. lia.
Qed.

Lemma processed_counts_attempts_witness :
  exists new,
    Scenario.trace_xy = ([] ++ new)%list
    /\ processed (at_exit Scenario.at_cap) = Z.of_nat (List.length (attempted new)).
Proof.
  exact (processed_counts_attempts (Scripted.engine (Scripted.plain Scenario.grid_xy))
           "user" true 3 2 Scripted.start _ Scenario.at_cap scenario_xy_2).
Defined.

(** X15: the loop scrolls to the bottom once for each scroll height it
    had not seen: in a run that ends, the number of heights remembered
    equals the number of scrolls to the bottom. *)
Theorem one_scroll_per_new_height {S} (B : browser S)
    (username : string) (dry_run : bool) (cap : Z) (fuel : nat)
    (w w' : world S) (f : final) :
  run B username dry_run cap fuel w = (Ok (Some f), w') ->
  exists new,
    trace w' = (trace w ++ new)%list
    /\ size (seen_heights (at_exit f)) = Scenario.scrolls_to_bottom new.
Proof.
  unfold run, bind at 1.
  destruct (quiet_step (go_to_posts_all B username) w (go_to_posts_all_quiet B username))
    as (n1 & Hn1 & _ & Hs1 & _).
  destruct (go_to_posts_all B username w) as [[[]|e] w1]; [|discriminate].
  unfold bind at 1.
  destruct (quiet_step (scroll_top B) w1 (scroll_top_quiet B)) as (n2 & Hn2 & _ & Hs2 & _).
  destruct (scroll_top B w1) as [[[]|e] w2]; [|discriminate].
  cbn [snd] in *. intros Hloop.
  apply main_loop_trace in Hloop as (n3 & Hn3 & _ & Hs). cbn [seen_heights] in Hs.
  exists (n1 ++ n2 ++ n3)%list.
  split; [rewrite Hn3, Hn2, Hn1, <- !app_assoc; reflexivity|].
  rewrite !scrolls_app, Hs1, Hs2, Hs, size_empty. reflexivity.
Qed.

Lemma one_scroll_per_new_height_witness :
  exists new,
    Scenario.trace_xy = ([] ++ new)%list
    /\ size (seen_heights (at_exit Scenario.at_cap)) = Scenario.scrolls_to_bottom new.
Proof.
  exact (one_scroll_per_new_height (Scripted.engine (Scripted.plain Scenario.grid_xy))
           "user" true 3 2 Scripted.start _ Scenario.at_cap scenario_xy_2).
Defined.

(** X16: whatever the page does, and however the run ends (normally,
    out of passes or by an exception), every outcome recorded is
    immediately followed by a navigation back to the user's posts
    page: after each link, success or failure, the loop heads back to
    the grid before anything else. *)
Theorem every_link_returns_to_grid {S} (B : browser S)
    (username : string) (dry_run : bool) (cap : Z) (fuel : nat) (w : world S) :
  exists new,
    trace (snd (run B username dry_run cap fuel w)) = (trace w ++ new)%list
    /\ back_to_grid (get_posts_url username) new.
Proof.
  unfold run, bind at 1.
  destruct (quiet_step (go_to_posts_all B username) w (go_to_posts_all_quiet B username))
    as (n1 & Hn1 & _ & _ & Hb1).
  destruct (go_to_posts_all B username w) as [[[]|e] w1]; cbn [snd] in *;
    [|exists n1; split; [exact Hn1|apply Hb1]].
  unfold bind at 1.
  destruct (quiet_step (scroll_top B) w1 (scroll_top_quiet B)) as (n2 & Hn2 & _ & _ & Hb2).
  destruct (scroll_top B w1) as [[[]|e] w2]; cbn [snd] in *.
  - destruct (main_loop_back_to_grid B username dry_run cap fuel
                {| processed := 0; seen_heights := ∅ |} w2) as (n3 & Hn3 & Hb3).
    exists (n1 ++ n2 ++ n3)%list.
    split; [rewrite Hn3, Hn2, Hn1, <- !app_assoc; reflexivity|].
    apply back_to_grid_app; [apply Hb1|apply back_to_grid_app; [apply Hb2|exact Hb3]].
  - exists (n1 ++ n2)%list. split; [rewrite Hn2, Hn1, app_assoc; reflexivity|].
    apply back_to_grid_app; [apply Hb1|apply Hb2].
Qed.

(** X17: the loop ends whenever the page's scroll height takes finitely
    many values: if every height the page reports lies in a finite set,
    then after at most one pass more than there are heights not yet
    seen the loop has been left (or an exception has ended the run);
    the only way to loop for ever is a page that keeps growing. *)
Theorem loop_ends_when_heights_are_finite {S} (B : browser S)
    (username : string) (dry_run : bool) (cap : Z) (heights : gset Z) :
  (forall p h p', scroll_height B p = (Ok h, p') -> h ∈ heights) ->
  (forall fuel rs w,
      (size (heights ∖ seen_heights rs) < fuel)%nat ->
      fst (main_loop B username dry_run cap fuel rs w) <> Ok None)
  /\ (forall fuel w,
        (size heights < fuel)%nat ->
        fst (run B username dry_run cap fuel w) <> Ok None).
Proof.
  intros Hfin.
  assert (forall fuel rs w,
            (size (heights ∖ seen_heights rs) < fuel)%nat ->
            fst (main_loop B username dry_run cap fuel rs w) <> Ok None) as Hloop.
  { induction fuel as [|fuel IH]; intros rs w Hsize; [lia|].
    assert (forall h p p', scroll_height B p = (Ok h, p') -> h ∉ seen_heights rs ->
              (size (heights ∖ ({[h]} ∪ seen_heights rs)) < fuel)%nat) as Hless.
    { intros h p p' Hh Hout. apply Hfin in Hh.
      assert (heights ∖ ({[h]} ∪ seen_heights rs) ⊂ heights ∖ seen_heights rs) as Hsub.
      { split.
        - intros z Hz. apply elem_of_difference in Hz as [Hz1 Hz2].
          apply elem_of_difference. split; [exact Hz1|].
          intros Hs. apply Hz2, elem_of_union. right. exact Hs.
        - intros Hc.
          assert (h ∈ heights ∖ seen_heights rs) as Hel
            by (apply elem_of_difference; split; assumption).
          apply Hc in Hel. apply elem_of_difference in Hel as [_ Hn].
          apply Hn, elem_of_union. left. apply elem_of_singleton. reflexivity. }
      apply subset_size in Hsub. lia. }
    cbn [main_loop]. destruct (negb (processed rs <? cap)); [discriminate|].
    unfold bind at 1.
    destruct (find_links B w) as [[[|l links]|e] w1]; [| |discriminate].
    - unfold bind at 1.
      destruct (pull_more B (seen_heights rs) w1) as [[[h [seen'|]]|e] w2] eqn:Epm;
        try discriminate.
      apply pull_more_trace in Epm as ((p & Hh) & Hout & -> & _).
      apply IH. cbn [seen_heights]. eapply Hless; eauto.
    - unfold bind at 1.
      destruct (process_links B username dry_run cap (l :: links) (processed rs) w1)
        as [[p|e] w2]; [|discriminate].
      unfold bind at 1.
      destruct (pull_more B (seen_heights rs) w2) as [[[h [seen'|]]|e] w3] eqn:Epm;
        try discriminate.
      apply pull_more_trace in Epm as ((q & Hh) & Hout & -> & _).
      apply IH. cbn [seen_heights]. eapply Hless; eauto. }
  split; [exact Hloop|].
  intros fuel w Hsize. unfold run, bind.
  destruct (go_to_posts_all B username w) as [[[]|e] w1]; [|discriminate].
  destruct (scroll_top B w1) as [[[]|e] w2]; [|discriminate].
  apply Hloop. cbn [seen_heights].
  assert (size (heights ∖ ∅) <= size heights)%nat as Hle.
  { apply subseteq_size. intros z Hz. apply elem_of_difference in Hz as [Hz _]. exact Hz. }
  lia.
Qed.

Lemma loop_ends_when_heights_are_finite_witness :
  fst (run (Scripted.engine (Scripted.plain Scenario.grid_xy)) "user" true 10 2
         Scripted.start) <> Ok None.
Proof.
  refine (proj2 (loop_ends_when_heights_are_finite
                   (Scripted.engine (Scripted.plain Scenario.grid_xy)) "user" true 10
                   {[ 1080 ]} _) 2%nat Scripted.start _).
  - intros p h p' [= <- _]. apply elem_of_singleton. reflexivity.
  - rewrite size_singleton. lia.
Defined.

Lemma locator_eqb_refl l : locator_eqb l l = true.
Proof.
  destruct l as [s|r [n|n]|s i]; cbn;
    rewrite ?String.eqb_refl, ?Nat.eqb_refl; reflexivity.
Qed.

Lemma In_among ls l : In l ls -> among ls l = true.
Proof.
  intros H. unfold among. apply existsb_exists. exists l.
  split; [exact H|apply locator_eqb_refl].
Qed.

Lemma dry_run_controls_not_confirmation l :
  among dry_run_controls l = true -> among confirmation_controls l = false.
Proof.
  intros H. apply among_In in H.
  cbv [dry_run_controls all_tab_controls Sel.all_tab_selectors cancel_controls
       Sel.cancel_selectors map app] in H.
  repeat (destruct H as [<-|H]; [vm_compute; reflexivity|]). destruct H.
Qed.

Section DryRunLoop.
Context {S : Type} (B : browser S).
Variables (username : string) (cap : Z).

Local Abbreviation loop_event := (fun e => dry_run_loop_event e = true).

Lemma delete_one_dry_loop_event href : emits loop_event (delete_one B href true).
Proof.
  eapply emits_weaken_events; [|apply delete_one_dry_emits_allowed].
  intros [u|l| | |h ok n]; cbn [dry_run_allowed dry_run_loop_event];
    try discriminate; auto.
  intros H. apply In_among. unfold dry_run_controls.
  apply in_or_app. right. apply orb_prop in H as [H|H].
  - apply locator_eqb_eq in H. left. symmetry. exact H.
  - right. apply among_In, H.
Qed.

Lemma go_to_posts_all_loop_event : emits loop_event (go_to_posts_all B username).
Proof.
  unfold go_to_posts_all. apply emits_bind; [apply emits_safe_goto; reflexivity|].
  intros _. eapply emits_weaken_events; [|apply select_all_tab_events].
  intros e (l & -> & Hl). cbn [dry_run_loop_event]. apply In_among.
  unfold dry_run_controls.
  apply in_or_app. left. exact Hl.
Qed.

Lemma process_links_loop_event links p :
  emits loop_event (process_links B username true cap links p).
Proof.
  revert p. induction links as [|l rest IH]; intros p; cbn [process_links];
    [apply emits_ret|].
  apply emits_bind; [apply delete_one_dry_loop_event|]. intros o.
  apply emits_bind; [apply emits_note; reflexivity|]. intros _.
  apply emits_bind; [apply go_to_posts_all_loop_event|]. intros _.
  apply emits_bind; [apply emits_act; reflexivity|]. intros _.
  destruct (account p o >=? cap); [apply emits_ret|apply IH].
Qed.

Lemma pull_more_loop_event seen : emits loop_event (pull_more B seen).
Proof.
  unfold pull_more, read_scroll_height, scroll_bottom.
  apply emits_bind; [apply emits_prim|]. intros h.
  destruct (decide (h ∈ seen)); [apply emits_ret|].
  apply emits_bind; [apply emits_act; reflexivity|]. intros _. apply emits_ret.
Qed.

Lemma find_links_loop_event : emits loop_event (find_links B).
Proof.
  unfold find_links. apply emits_bind; [apply emits_prim|]. intros l.
  destruct (Extractor.find_post_links_sorted l); [apply emits_ret|apply emits_raise].
Qed.

Lemma main_loop_loop_event fuel rs :
  emits loop_event (main_loop B username true cap fuel rs).
Proof.
  revert rs. induction fuel as [|fuel IH]; intros rs; cbn [main_loop]; [apply emits_ret|].
  destruct (negb (processed rs <? cap)); [apply emits_ret|].
  apply emits_bind; [apply find_links_loop_event|]. intros [|l links].
  - apply emits_bind; [apply pull_more_loop_event|].
    intros [h [seen'|]]; [apply IH|apply emits_ret].
  - apply emits_bind; [apply process_links_loop_event|]. intros p.
    apply emits_bind; [apply pull_more_loop_event|].
    intros [h [seen'|]]; [apply IH|apply emits_ret].
Qed.

End DryRunLoop.

(** X18: a dry run of the whole loop, whatever the page does and
    however long it runs, clicks nothing but controls of the "All" tab,
    the "Delete image" button that opens the dialog, and cancel
    controls; it never clicks a confirmation control. *)
Theorem dry_run_of_the_loop_confirms_nothing {S} (B : browser S)
    (username : string) (cap : Z) (fuel : nat) (w : world S) :
  exists new,
    trace (snd (run B username true cap fuel w)) = (trace w ++ new)%list
    /\ Forall (fun l => among dry_run_controls l = true
                        /\ among confirmation_controls l = false) (clicks new).
Proof.
  assert (emits (fun e => dry_run_loop_event e = true) (run B username true cap fuel))
    as Hem.
  { unfold run. apply emits_bind; [apply go_to_posts_all_loop_event|]. intros _.
    apply emits_bind; [apply emits_act; reflexivity|]. intros _.
    apply main_loop_loop_event. }
  destruct (Hem w) as (new & Hn & Hall). exists new. split; [exact Hn|].
  clear Hn. induction Hall as [|e new He _ IH]; [constructor|].
  destruct e; try exact IH.
  change (clicks (Click l :: new)) with (l :: clicks new).
  constructor; [|exact IH].
  cbn [dry_run_loop_event] in He.
  split; [exact He|apply dry_run_controls_not_confirmation, He].
Qed.

(** ** The prompts *)

Module ConsoleFacts.
Import Console.

Lemma prompt_yes_no_skips default used rest :
  Forall (passed_over recognised) used ->
  prompt_yes_no default (used ++ rest) = prompt_yes_no default rest.
Proof.
  induction 1 as [|k used (s & -> & Hs) _ IH]; [reflexivity|].
  cbn [app prompt_yes_no]. unfold recognised in Hs.
  destruct (String.eqb (Py.lower (strip s)) EmptyString); [discriminate|].
  destruct (String.eqb (Py.lower (strip s)) "y"); [discriminate|].
  destruct (String.eqb (Py.lower (strip s)) "yes"); [discriminate|].
  destruct (String.eqb (Py.lower (strip s)) "n"); [discriminate|].
  destruct (String.eqb (Py.lower (strip s)) "no"); [discriminate|].
  exact IH.
Qed.

Lemma prompt_yes_no_answered default inputs b rest :
  prompt_yes_no default inputs = Answered b rest ->
  exists used s,
    inputs = (used ++ Line s :: rest)%list
    /\ Forall (passed_over recognised) used
    /\ let response := Py.lower (strip s) in
       (response = EmptyString /\ b = default)
       \/ (b = true /\ (response = "y" \/ response = "yes"))
       \/ (b = false /\ (response = "n" \/ response = "no")).
Proof.
  induction inputs as [|k inputs IH]; [discriminate|].
  destruct k as [s|]; [|discriminate]. cbn [prompt_yes_no].
  destruct (String.eqb_spec (Py.lower (strip s)) EmptyString) as [E0|N0].
  { intros [= <- <-]. exists [], s. repeat split; auto. }
  destruct (String.eqb_spec (Py.lower (strip s)) "y") as [E1|N1].
  { intros [= <- <-]. exists [], s. repeat split; auto. }
  destruct (String.eqb_spec (Py.lower (strip s)) "yes") as [E2|N2].
  { intros [= <- <-]. exists [], s. repeat split; auto. }
  destruct (String.eqb_spec (Py.lower (strip s)) "n") as [E3|N3].
  { intros [= <- <-]. exists [], s. repeat split; auto. }
  destruct (String.eqb_spec (Py.lower (strip s)) "no") as [E4|N4].
  { intros [= <- <-]. exists [], s. repeat split; auto 6. }
  cbn [orb]. intros H. destruct (IH H) as (used & s' & -> & Hused & Hans).
  exists (Line s :: used), s'. split; [reflexivity|]. split; [|exact Hans].
  constructor; [|exact Hused]. exists s. split; [reflexivity|].
  unfold recognised.
  rewrite (proj2 (String.eqb_neq _ _) N0), (proj2 (String.eqb_neq _ _) N1),
    (proj2 (String.eqb_neq _ _) N2), (proj2 (String.eqb_neq _ _) N3),
    (proj2 (String.eqb_neq _ _) N4). reflexivity.
Qed.

Section Int.
Variable int : string -> option Z.

Lemma prompt_int_skips default min_val max_val used rest :
  Forall (passed_over (accepted int min_val max_val)) used ->
  prompt_int int default min_val max_val (used ++ rest)
  = prompt_int int default min_val max_val rest.
Proof.
  induction 1 as [|k used (s & -> & Hs) _ IH]; [reflexivity|].
  cbn [app prompt_int]. unfold accepted in Hs.
  destruct (String.eqb (strip s) EmptyString); [discriminate|]. cbn [orb] in Hs.
  destruct (int (strip s)) as [val|]; [|exact IH].
  destruct (val <? min_val); [exact IH|]. cbn [negb andb] in Hs.
  destruct max_val as [m|]; [|discriminate].
  destruct (val >? m); [exact IH|discriminate].
Qed.

Lemma prompt_int_answered default min_val max_val inputs v rest :
  prompt_int int default min_val max_val inputs = Answered v rest ->
  exists used s,
    inputs = (used ++ Line s :: rest)%list
    /\ Forall (passed_over (accepted int min_val max_val)) used
    /\ ((strip s = EmptyString /\ v = default)
        \/ (strip s <> EmptyString /\ int (strip s) = Some v
            /\ min_val <= v /\ forall m, max_val = Some m -> v <= m)).
Proof.
  induction inputs as [|k inputs IH]; [discriminate|].
  destruct k as [s|]; [|discriminate]. cbn [prompt_int].
  assert (forall (Hrej : accepted int min_val max_val s = false),
            prompt_int int default min_val max_val inputs = Answered v rest ->
            exists used s0,
              (Line s :: inputs = used ++ Line s0 :: rest)%list
              /\ Forall (passed_over (accepted int min_val max_val)) used
              /\ ((strip s0 = EmptyString /\ v = default)
                  \/ (strip s0 <> EmptyString /\ int (strip s0) = Some v
                      /\ min_val <= v /\ forall m, max_val = Some m -> v <= m))) as Hgo.
  { intros Hrej H. destruct (IH H) as (used & s' & -> & Hused & Hans).
    exists (Line s :: used), s'. split; [reflexivity|]. split; [|exact Hans].
    constructor; [|exact Hused]. exists s. auto. }
  unfold accepted in Hgo.
  destruct (String.eqb_spec (strip s) EmptyString) as [E0|N0].
  { intros [= <- <-]. exists [], s. repeat split; auto. }
  cbn [orb] in Hgo.
  destruct (int (strip s)) as [val|] eqn:Eint; [|apply Hgo; reflexivity].
  destruct (val <? min_val) eqn:Emin; [apply Hgo; reflexivity|].
  destruct max_val as [m|].
  - destruct (val >? m) eqn:Emax; [apply Hgo; reflexivity|].
    intros [= <- <-]. exists [], s. split; [reflexivity|]. split; [constructor|].
    right. repeat split; auto; try lia. intros m' [= <-]. lia.
  - intros [= <- <-]. exists [], s. split; [reflexivity|]. split; [constructor|].
    right. repeat split; auto; try lia. discriminate.
Qed.

End Int.

End ConsoleFacts.

(** X19: [prompt_yes_no] passes over every line that is not blank, [y],
    [yes], [n] or [no] once stripped and lower-cased, and answers with
    the first line that is: the default for a blank line, [True] for
    [y]/[yes], [False] for [n]/[no]; the input after that line is left
    unread. *)
Theorem prompt_yes_no_first_recognised
    (default : bool) (inputs : list Console.keyed) :
  (forall used rest,
      Forall (passed_over Console.recognised) used ->
      Console.prompt_yes_no default (used ++ rest) = Console.prompt_yes_no default rest)
  /\ (forall b rest,
        Console.prompt_yes_no default inputs = Console.Answered b rest ->
        exists used s,
          inputs = (used ++ Console.Line s :: rest)%list
          /\ Forall (passed_over Console.recognised) used
          /\ let response := Py.lower (Console.strip s) in
             (response = EmptyString /\ b = default)
             \/ (b = true /\ (response = "y" \/ response = "yes"))
             \/ (b = false /\ (response = "n" \/ response = "no"))).
Proof.
  split.
  - intros used rest. apply ConsoleFacts.prompt_yes_no_skips.
  - intros b rest. apply ConsoleFacts.prompt_yes_no_answered.
Qed.

Lemma prompt_yes_no_first_recognised_witness :
  exists used s,
    [Console.Line "maybe"; Console.Line "  YES "; Console.Line "n"]
    = (used ++ Console.Line s :: [Console.Line "n"])%list
    /\ Forall (passed_over Console.recognised) used
    /\ let response := Py.lower (Console.strip s) in
       (response = EmptyString /\ true = false)
       \/ (true = true /\ (response = "y" \/ response = "yes"))
       \/ (true = false /\ (response = "n" \/ response = "no")).
Proof.
  exact (proj2 (prompt_yes_no_first_recognised false
                  [Console.Line "maybe"; Console.Line "  YES "; Console.Line "n"])
               true [Console.Line "n"] eq_refl).
Defined.

(** X20: [prompt_int] passes over every line that is neither blank nor
    an integer within the bounds and answers with the first line that
    is. A typed answer is always at least [min_val] and at most
    [max_val]; a blank line gives the default as it is, which is not
    checked against the bounds. *)
Theorem prompt_int_within_bounds_or_default
    (int : string -> option Z) (default min_val : Z) (max_val : option Z)
    (inputs : list Console.keyed) :
  (forall used rest,
      Forall (passed_over (Console.accepted int min_val max_val)) used ->
      Console.prompt_int int default min_val max_val (used ++ rest)
      = Console.prompt_int int default min_val max_val rest)
  /\ (forall v rest,
        Console.prompt_int int default min_val max_val inputs = Console.Answered v rest ->
        exists used s,
          inputs = (used ++ Console.Line s :: rest)%list
          /\ Forall (passed_over (Console.accepted int min_val max_val)) used
          /\ ((Console.strip s = EmptyString /\ v = default)
              \/ (Console.strip s <> EmptyString
                  /\ int (Console.strip s) = Some v
                  /\ min_val <= v /\ forall m, max_val = Some m -> v <= m))).
Proof.
  split.
  - intros used rest. apply ConsoleFacts.prompt_int_skips.
  - intros v rest. apply ConsoleFacts.prompt_int_answered.
Qed.

Lemma prompt_int_within_bounds_or_default_witness :
  exists used s,
    [Console.Line "0"; Console.Line "ten"; Console.Line " 25 "; Console.Line ""]
    = (used ++ Console.Line s :: [Console.Line ""])%list
    /\ Forall (passed_over (Console.accepted Console.int_of_digits 1 None)) used
    /\ ((Console.strip s = EmptyString /\ 25 = 10)
        \/ (Console.strip s <> EmptyString
            /\ Console.int_of_digits (Console.strip s) = Some 25
            /\ 1 <= 25 /\ forall m, @None Z = Some m -> 25 <= m)).
Proof.
  exact (proj2 (prompt_int_within_bounds_or_default Console.int_of_digits 10 1 None
                  [Console.Line "0"; Console.Line "ten"; Console.Line " 25 ";
                   Console.Line ""])
               25 [Console.Line ""] eq_refl).
Defined.

(** X21: the setup leaves dry-run mode only on two answers: the dry-run
    question answered no (or left blank when the saved default is
    off), and then the confirmation answered yes or left blank, which
    counts as yes; a no to the confirmation switches back to a dry
    run. *)
Theorem deletion_mode_needs_two_answers
    (default : bool) (inputs rest : list Console.keyed) :
  Console.choose_dry_run default inputs = Console.Answered false rest ->
  exists used1 s1 used2 s2,
    inputs = (used1 ++ Console.Line s1 :: used2 ++ Console.Line s2 :: rest)%list
    /\ Forall (passed_over Console.recognised) used1
    /\ Forall (passed_over Console.recognised) used2
    /\ (let r1 := Py.lower (Console.strip s1) in
        (r1 = EmptyString /\ default = false) \/ r1 = "n" \/ r1 = "no")
    /\ (let r2 := Py.lower (Console.strip s2) in
        r2 = EmptyString \/ r2 = "y" \/ r2 = "yes").
Proof.
  unfold Console.choose_dry_run.
  destruct (Console.prompt_yes_no default inputs) as [[|] rest1| |] eqn:E1; try discriminate.
  destruct (Console.prompt_yes_no true rest1) as [[|] rest2| |] eqn:E2; try discriminate.
  cbn [negb]. intros [= <-].
  apply ConsoleFacts.prompt_yes_no_answered in E1 as (used1 & s1 & -> & H1 & A1).
  apply ConsoleFacts.prompt_yes_no_answered in E2 as (used2 & s2 & -> & H2 & A2).
  exists used1, s1, used2, s2. split; [reflexivity|]. split; [exact H1|].
  split; [exact H2|]. cbn zeta in *. split.
  - destruct A1 as [[E D]|[[D _]|[_ [E|E]]]]; auto; discriminate D.
  - destruct A2 as [[E _]|[[_ [E|E]]|[D _]]]; auto; discriminate D.
Qed.

Lemma deletion_mode_needs_two_answers_witness :
  exists used1 s1 used2 s2,
    [Console.Line "No"; Console.Line "what?"; Console.Line ""]
    = (used1 ++ Console.Line s1 :: used2 ++ Console.Line s2 :: [])%list
    /\ Forall (passed_over Console.recognised) used1
    /\ Forall (passed_over Console.recognised) used2
    /\ (let r1 := Py.lower (Console.strip s1) in
        (r1 = EmptyString /\ true = false) \/ r1 = "n" \/ r1 = "no")
    /\ (let r2 := Py.lower (Console.strip s2) in
        r2 = EmptyString \/ r2 = "y" \/ r2 = "yes").
Proof.
  exact (deletion_mode_needs_two_answers true
           [Console.Line "No"; Console.Line "what?"; Console.Line ""] [] eq_refl).
Defined.

(** ** The user name of a stored session *)

Module StorageFacts.
Import Storage.

Lemma take_label_spec s :
  Extractor.has_char "." (fst (take_label s)) = false
  /\ s = fst (take_label s) +:+ snd (take_label s).
Proof.
  induction s as [|c s [IH1 IH2]]; [split; reflexivity|].
  cbn [take_label]. destruct (Ascii.eqb c ".") eqn:E; [split; reflexivity|].
  destruct (take_label s) as [lab rest]. cbn [fst snd] in *.
  split.
  - rewrite ExtractorFacts.has_char_cons, Ascii.eqb_sym, E. exact IH1.
  - rewrite IH2 at 1. reflexivity.
Qed.

Lemma take_label_app u r :
  Extractor.has_char "." u = false ->
  take_label (u +:+ String "." r) = (u, String "." r).
Proof.
  induction u as [|c u IH]; [reflexivity|].
  rewrite ExtractorFacts.has_char_cons. intros H. apply orb_false_elim in H as [H1 H2].
  change (String c u +:+ String "." r) with (String c (u +:+ String "." r)).
  cbn [take_label]. rewrite Ascii.eqb_sym, H1, (IH H2). reflexivity.
Qed.

Lemma label_at_some s u :
  label_at s = Some u -> u <> EmptyString /\ Extractor.has_char "." u = false.
Proof.
  unfold label_at. pose proof (take_label_spec s) as [Hdot _].
  destruct (take_label s) as [lab rest]. cbn [fst] in Hdot.
  destruct (String.eqb_spec lab EmptyString) as [E|N]; cbn [negb andb]; [discriminate|].
  destruct (Py.startswith rest ".imgur.com"); [|discriminate].
  intros [= <-]. auto.
Qed.

Lemma search_origin_some s u :
  search_origin s = Some u -> u <> EmptyString /\ Extractor.has_char "." u = false.
Proof.
  induction s as [|c s IH]; cbn [search_origin].
  - destruct (Py.startswith EmptyString "https://"); [|discriminate].
    destruct (label_at _) eqn:E; [|discriminate]. intros [= <-]. eapply label_at_some, E.
  - destruct (if Py.startswith (String c s) "https://" then _ else None) as [lab|] eqn:E.
    + intros [= <-]. destruct (Py.startswith (String c s) "https://"); [|discriminate].
      eapply label_at_some, E.
    + exact IH.
Qed.

Lemma search_domain_some s u :
  search_domain s = Some u -> u <> EmptyString /\ Extractor.has_char "." u = false.
Proof.
  induction s as [|c s IH]; cbn [search_domain].
  - destruct (label_at EmptyString) eqn:E; [|discriminate].
    intros [= <-]. eapply label_at_some, E.
  - destruct (label_at (String c s)) eqn:E; [|exact IH].
    intros [= <-]. eapply label_at_some, E.
Qed.

Lemma from_origins_some l u :
  from_origins l = Some u -> u <> EmptyString /\ Extractor.has_char "." u = false.
Proof.
  induction l as [|o l IH]; cbn [from_origins]; [discriminate|].
  destruct (search_origin _) eqn:E; [|exact IH].
  intros [= <-]. eapply search_origin_some, E.
Qed.

Lemma from_cookies_some l u :
  from_cookies l = Some u ->
  u <> EmptyString /\ Extractor.has_char "." u = false /\ ~ In u reserved.
Proof.
  induction l as [|c l IH]; cbn [from_cookies]; [discriminate|].
  destruct (Py.contains ".imgur.com" _); [|exact IH].
  destruct (search_domain _) as [name|] eqn:E; [|exact IH].
  destruct (existsb (String.eqb name) reserved) eqn:Er; [exact IH|].
  intros [= <-]. destruct (search_domain_some _ _ E) as [H1 H2].
  split; [exact H1|]. split; [exact H2|].
  intros Hin. assert (existsb (String.eqb name) reserved = true) as Ht; [|congruence].
  apply existsb_exists. exists name. split; [exact Hin|apply String.eqb_refl].
Qed.

Lemma startswith_app s t : Py.startswith (s +:+ t) s = true.
Proof.
  revert t. induction s as [|c s IH]; intros t; [destruct t; reflexivity|].
  change (String c s +:+ t) with (String c (s +:+ t)).
  cbn [Py.startswith]. rewrite Ascii.eqb_refl. apply IH.
Qed.

Lemma contains_app sub u r : Py.contains sub (u +:+ sub +:+ r) = true.
Proof.
  pose proof startswith_app as Hpre.
  assert (forall s, Py.contains sub s = Py.startswith s sub
                     || match s with
                        | EmptyString => false
                        | String _ s' => Py.contains sub s'
                        end) as Hunf by (intros [|? ?]; reflexivity).
  induction u as [|c u IH].
  - change (EmptyString +:+ sub +:+ r) with (sub +:+ r).
    rewrite Hunf, Hpre. reflexivity.
  - change (String c u +:+ sub +:+ r) with (String c (u +:+ sub +:+ r)).
    rewrite Hunf, IH. apply orb_true_r.
Qed.

End StorageFacts.

(** X22: a user name [extract_username_from_storage] returns is never
    empty and contains no dot, so it is one path segment of the posts
    URL built from it; and a name taken from a cookie domain is never
    one of the host names [www], [i], [api], [m] (a name taken from an
    origin is not filtered). *)
Theorem extracted_username_is_a_label (data : option Storage.state) (u : string) :
  Storage.extract_username_from_storage data = Some u ->
  u <> EmptyString
  /\ Extractor.has_char "." u = false
  /\ (forall d, data = Some d -> Storage.from_origins (Storage.origins d) = None ->
                ~ In u Storage.reserved).
Proof.
  unfold Storage.extract_username_from_storage. destruct data as [d|]; [|discriminate].
  destruct (Storage.from_origins (Storage.origins d)) as [u'|] eqn:Eo.
  - intros [= <-]. destruct (StorageFacts.from_origins_some _ _ Eo) as [H1 H2].
    split; [exact H1|]. split; [exact H2|]. intros d' [= <-] Hnone. congruence.
  - intros Hc. destruct (StorageFacts.from_cookies_some _ _ Hc) as (H1 & H2 & H3).
    split; [exact H1|]. split; [exact H2|]. intros d' _ _. exact H3.
Qed.

Lemma extracted_username_is_a_label_witness :
  "bob" <> EmptyString /\ Extractor.has_char "." "bob" = false.
Proof.
  destruct (extracted_username_is_a_label
              (Some {| Storage.origins := [Some "https://imgur.com"];
                       Storage.cookies := [Some ".imgur.com"; Some "www.imgur.com";
                                           Some "bob.imgur.com"] |})
              "bob" eq_refl) as (H1 & H2 & _).
  split; assumption.
Defined.

(** X23: the session of a user is recognised: for a name that is not
    empty and has no dot, a first origin [https://<name>.imgur.com]
    yields that name whatever else the file holds; and so does, when no
    origin matches and the name is not reserved, a first cookie whose
    domain is [<name>.imgur.com]. *)
Theorem username_round_trip (u path : string)
    (os cs : list (option string)) :
  u <> EmptyString -> Extractor.has_char "." u = false ->
  Storage.extract_username_from_storage
    (Some {| Storage.origins := Some ("https://" +:+ u +:+ ".imgur.com" +:+ path) :: os;
             Storage.cookies := cs |}) = Some u
  /\ (~ In u Storage.reserved ->
      Storage.from_origins os = None ->
      Storage.extract_username_from_storage
        (Some {| Storage.origins := os;
                 Storage.cookies := Some (u +:+ ".imgur.com") :: cs |}) = Some u).
Proof.
  intros Hne Hdot.
  assert (forall tail, Storage.label_at (u +:+ ".imgur.com" +:+ tail) = Some u) as Hlabel.
  { intros tail. unfold Storage.label_at.
    change (u +:+ ".imgur.com" +:+ tail) with (u +:+ String "." ("imgur.com" +:+ tail)).
    rewrite (StorageFacts.take_label_app u _ Hdot).
    rewrite (proj2 (String.eqb_neq _ _) Hne).
    change (String "." ("imgur.com" +:+ tail)) with (".imgur.com" +:+ tail).
    rewrite StorageFacts.startswith_app. reflexivity. }
  split.
  - unfold Storage.extract_username_from_storage. cbn [Storage.origins Storage.from_origins].
    change (default EmptyString (Some ("https://" +:+ u +:+ ".imgur.com" +:+ path)))
      with ("https://" +:+ u +:+ ".imgur.com" +:+ path).
    change ("https://" +:+ u +:+ ".imgur.com" +:+ path)
      with (String "h" (String "t" (String "t" (String "p" (String "s" (String ":"
             (String "/" (String "/" (u +:+ ".imgur.com" +:+ path))))))))).
    cbn [Storage.search_origin].
    replace (Py.startswith
               (String "h" (String "t" (String "t" (String "p" (String "s" (String ":"
                  (String "/" (String "/" (u +:+ ".imgur.com" +:+ path)))))))))
               "https://") with true
      by (symmetry; apply (StorageFacts.startswith_app "https://")).
    cbn [Storage.drop]. rewrite Hlabel. reflexivity.
  - intros Hres Hnone. unfold Storage.extract_username_from_storage.
    cbn [Storage.origins Storage.cookies]. rewrite Hnone. cbn [Storage.from_cookies].
    change (default EmptyString (Some (u +:+ ".imgur.com"))) with (u +:+ ".imgur.com").
    replace (Py.contains ".imgur.com" (u +:+ ".imgur.com")) with true
      by (symmetry; apply (StorageFacts.contains_app ".imgur.com" u EmptyString)).
    assert (Storage.search_domain (u +:+ ".imgur.com") = Some u) as ->.
    { destruct u as [|c u']; [congruence|].
      change (String c u' +:+ ".imgur.com") with (String c (u' +:+ ".imgur.com")).
      cbn [Storage.search_domain].
      change (String c (u' +:+ ".imgur.com")) with (String c u' +:+ ".imgur.com" +:+ "").
      rewrite Hlabel. reflexivity. }
    destruct (existsb (String.eqb u) Storage.reserved) eqn:Er; [|reflexivity].
    exfalso. apply Hres. apply existsb_exists in Er as (r & Hin & Heq).
    apply String.eqb_eq in Heq. subst. exact Hin.
Qed.

Lemma username_round_trip_witness :
  Storage.extract_username_from_storage
    (Some {| Storage.origins := [Some "https://bob.imgur.com"; Some "https://www.imgur.com"];
             Storage.cookies := [] |}) = Some "bob".
Proof.
  apply (proj1 (username_round_trip "bob" "" [Some "https://www.imgur.com"] []
                  ltac:(discriminate) eq_refl)).
Defined.

(** ** Where a run goes *)

Lemma emits_bind_yields {S A C} (E : event -> Prop) (Q : A -> Prop)
    (m : M S A) (k : A -> M S C) :
  emits E m -> yields Q m -> (forall a, Q a -> emits E (k a)) -> emits E (bind m k).
Proof.
  intros Hm Hq Hk w. unfold bind. specialize (Hm w). specialize (Hq w).
  destruct (m w) as [[a|e] w1]; cbn [fst snd] in *; [|exact Hm].
  eapply extends_trans; [exact Hm|]. apply Hk, Hq. reflexivity.
Qed.

Section RunNavigation.
Context {S : Type} (B : browser S).
Variables (username : string) (dry_run : bool) (cap : Z).

Local Abbreviation grid := (get_posts_url username).

Lemma find_links_post_hrefs :
  yields (Forall (fun it => post_href (Extractor.href it))) (find_links B).
Proof.
  unfold find_links. apply yields_bind. intros l.
  destruct (Extractor.find_post_links_sorted l) as [links|e] eqn:E;
    [|intros w a; discriminate].
  apply yields_ret. apply List.Forall_forall. intros it Hit.
  destruct (extractor_output_facts l links E) as (_ & _ & H).
  destruct (H it Hit) as (_ & _ & H1 & H2 & H3). repeat split; assumption.
Qed.

Lemma delete_one_run_event href :
  post_href href -> emits (run_event grid) (delete_one B href dry_run).
Proof.
  intros Hh. eapply emits_weaken_events; [|apply delete_one_post_events].
  intros e [->|[l ->]]; cbn; [right; eauto|exact I].
Qed.

Lemma go_to_posts_all_run_event : emits (run_event grid) (go_to_posts_all B username).
Proof.
  eapply emits_weaken_events; [|apply go_to_posts_all_events].
  intros e [->|(l & -> & _)]; cbn; auto.
Qed.

Lemma process_links_run_event links p :
  Forall (fun it => post_href (Extractor.href it)) links ->
  emits (run_event grid) (process_links B username dry_run cap links p).
Proof.
  intros Hl. revert p. induction Hl as [|l rest Hh _ IH]; intros p; cbn [process_links];
    [apply emits_ret|].
  apply emits_bind; [apply delete_one_run_event, Hh|]. intros o.
  apply emits_bind; [apply emits_note; exact I|]. intros _.
  apply emits_bind; [apply go_to_posts_all_run_event|]. intros _.
  apply emits_bind; [apply emits_act; exact I|]. intros _.
  destruct (account p o >=? cap); [apply emits_ret|apply IH].
Qed.

Lemma pull_more_run_event seen : emits (run_event grid) (pull_more B seen).
Proof.
  unfold pull_more, read_scroll_height, scroll_bottom.
  apply emits_bind; [apply emits_prim|]. intros h.
  destruct (decide (h ∈ seen)); [apply emits_ret|].
  apply emits_bind; [apply emits_act; exact I|]. intros _. apply emits_ret.
Qed.

Lemma main_loop_run_event fuel rs :
  emits (run_event grid) (main_loop B username dry_run cap fuel rs).
Proof.
  revert rs. induction fuel as [|fuel IH]; intros rs; cbn [main_loop]; [apply emits_ret|].
  destruct (negb (processed rs <? cap)); [apply emits_ret|].
  eapply emits_bind_yields; [|apply find_links_post_hrefs|].
  - intros w. apply extends_refl_trace, find_links_trace.
  - intros [|l links] Hl.
    + apply emits_bind; [apply pull_more_run_event|].
      intros [h [seen'|]]; [apply IH|apply emits_ret].
    + apply emits_bind; [apply process_links_run_event, Hl|]. intros p.
      apply emits_bind; [apply pull_more_run_event|].
      intros [h [seen'|]]; [apply IH|apply emits_ret].
Qed.

End RunNavigation.

(** The filter of the extractor is on literal prefixes. The blocked
    prefix for the account pages is [/account/], with its final slash,
    so the href [/account] passes: it starts with none of
    [BAD_PREFIXES], it matches [POST_HREF_PAT] (seven letters), and a
    run on a grid that shows it navigates to it. *)
Example account_href_is_let_through :
  Py.startswith_any "/account" Extractor.BAD_PREFIXES = false
  /\ Extractor.POST_HREF_PAT "/account" = true
  /\ In (Goto "https://imgur.com/account")
        (trace (snd (run (Scripted.engine (Scripted.plain [Scripted.tile "/account" 0 0]))
                       "user" true 1 2 Scripted.start))).
Proof. vm_compute. split; [reflexivity|]. split; [reflexivity|]. tauto. Qed.

(** X24: every address a run sends the page to is the user's posts
    page or [https://imgur.com] followed by an href that starts with a
    slash, starts with none of the ten strings of [BAD_PREFIXES] and
    matches [POST_HREF_PAT]. This is a statement about these literal
    prefixes, not about kinds of page: an href that a blocked prefix
    does not cover to the letter, such as [/account], is let through
    (see [account_href_is_let_through]). *)
Theorem run_visits_only_grid_and_posts {S} (B : browser S)
    (username : string) (dry_run : bool) (cap : Z) (fuel : nat) (w : world S) :
  exists new,
    trace (snd (run B username dry_run cap fuel w)) = (trace w ++ new)%list
    /\ forall u, In (Goto u) new ->
         u = get_posts_url username
         \/ exists h, u = "https://imgur.com" +:+ h
                      /\ Py.startswith h "/" = true
                      /\ Py.startswith_any h Extractor.BAD_PREFIXES = false
                      /\ Extractor.POST_HREF_PAT h = true.
Proof.
  assert (emits (run_event (get_posts_url username)) (run B username dry_run cap fuel))
    as Hem.
  { unfold run. apply emits_bind; [apply go_to_posts_all_run_event|]. intros _.
    apply emits_bind; [apply emits_act; exact I|]. intros _.
    apply main_loop_run_event. }
  destruct (Hem w) as (new & Hn & Hall). exists new. split; [exact Hn|].
  intros u Hin. rewrite List.Forall_forall in Hall. exact (Hall _ Hin).
Qed.
